(** * pySMT's Z3 back-end ([pysmt/solvers/z3.py]): a shallow embedding

    The development follows the layout of the Python module:
    - the types of the formula side (pySMT types and formula nodes);
    - the native side (Z3 sorts, declarations and terms, and the
      constructors of the Z3 C API the converter calls);
    - [Z3Converter]: the forward walk ([convert]) and the worklist-driven
      backward conversion ([back]) with its memo table;
    - [Z3Solver]: the incremental session with its deferred pop;
    - [Z3QuantifierEliminator].

    Python exceptions are values of [PyExn]; a method that mutates its
    object is a function from the object's state to a result and the new
    state.  The state is returned on an exception too: what a method wrote
    before it raised stays written. *)

From Stdlib Require Import ZArith String List Bool Lia.
From stdpp Require Import base option list strings gmap pretty.

Set Warnings "-register-all".
Local Open Scope Z_scope.
Local Open Scope string_scope.

(** ** pySMT types ([pysmt.typing]) *)

Inductive PySMTType :=
| BOOL
| REAL
| INT
| STRING
| BVType (width : N)
| ArrayType (index_type elem_type : PySMTType)
| FunctionType (return_type : PySMTType) (param_types : list PySMTType)
| Type_ (name : string).

#[global] Instance PySMTType_eq_dec : EqDecision PySMTType.
Proof.
  unfold EqDecision, Decision. fix go 1. intros a b.
  pose proof (list_eq_dec (dec := go)) as Hl.
  unfold EqDecision, Decision in Hl.
  decide equality; solve [ apply N.eq_dec | apply String.string_dec ].
Defined.

Definition is_bool_type (t : PySMTType) : bool :=
  match t with BOOL => true | _ => false end.
Definition is_real_type (t : PySMTType) : bool :=
  match t with REAL => true | _ => false end.
Definition is_int_type (t : PySMTType) : bool :=
  match t with INT => true | _ => false end.
Definition is_string_type (t : PySMTType) : bool :=
  match t with STRING => true | _ => false end.
Definition is_bv_type (t : PySMTType) : bool :=
  match t with BVType _ => true | _ => false end.
Definition is_array_type (t : PySMTType) : bool :=
  match t with ArrayType _ _ => true | _ => false end.
Definition is_function_type (t : PySMTType) : bool :=
  match t with FunctionType _ _ => true | _ => false end.
Definition is_custom_type (t : PySMTType) : bool :=
  match t with Type_ _ => true | _ => false end.

(** ** Formula nodes ([pysmt.operators], [pysmt.fnode])

    The node-type tags are those of [pysmt.operators].  A node carries its
    tag, its children and a payload (the symbol's name and type, the
    constant's value, the bit-vector width and integer parameters, ...).
    pySMT hash-conses nodes, so that structural equality of [FNode] is the
    identity of the Python object. *)

Module op.
Inductive t :=
| FORALL | EXISTS | AND | OR | NOT | IMPLIES | IFF
| SYMBOL | FUNCTION
| REAL_CONSTANT | BOOL_CONSTANT | INT_CONSTANT | STR_CONSTANT
| PLUS | MINUS | TIMES | LE | LT | EQUALS | ITE | TOREAL
| BV_CONSTANT | BV_NOT | BV_AND | BV_OR | BV_XOR | BV_CONCAT | BV_EXTRACT
| BV_ULT | BV_ULE | BV_NEG | BV_ADD | BV_SUB | BV_MUL | BV_UDIV | BV_UREM
| BV_LSHL | BV_LSHR | BV_ROL | BV_ROR | BV_ZEXT | BV_SEXT
| BV_SLT | BV_SLE | BV_COMP | BV_SDIV | BV_SREM | BV_ASHR
| STR_LENGTH | STR_CONCAT | STR_CONTAINS | STR_INDEXOF | STR_REPLACE
| STR_SUBSTR | STR_PREFIXOF | STR_SUFFIXOF | STR_TO_INT | INT_TO_STR
| STR_CHARAT
| ARRAY_SELECT | ARRAY_STORE | ARRAY_VALUE
| DIV | POW | ALGEBRAIC_CONSTANT | BV_TONATURAL.

#[global] Instance eq_dec : EqDecision t.
Proof. solve_decision. Defined.

(** [op.CONSTANTS] *)
Definition CONSTANTS (o : t) : bool :=
  match o with
  | BOOL_CONSTANT | REAL_CONSTANT | INT_CONSTANT | BV_CONSTANT
  | STR_CONSTANT | ALGEBRAIC_CONSTANT => true
  | _ => false
  end.

(** The other sets of [pysmt.operators] that the converter tests a node
    kind against.  Modelled from the spec: the node kinds are those the
    data model enumerates; the sets group them by the sort of the result
    (the quantifiers and connectives with the relations are Boolean, the
    bit-vector operators "return a bit-vector"). *)
Definition QUANTIFIERS (o : t) : bool :=
  match o with FORALL | EXISTS => true | _ => false end.
Definition BOOL_CONNECTIVES (o : t) : bool :=
  match o with AND | OR | NOT | IMPLIES | IFF => true | _ => false end.
Definition BOOL_OPERATORS (o : t) : bool :=
  QUANTIFIERS o || BOOL_CONNECTIVES o.
Definition RELATIONS (o : t) : bool :=
  match o with
  | LE | LT | EQUALS | BV_ULE | BV_ULT | BV_SLT | BV_SLE => true
  | _ => false
  end.
Definition BV_OPERATORS (o : t) : bool :=
  match o with
  | BV_NOT | BV_AND | BV_OR | BV_XOR | BV_CONCAT | BV_EXTRACT | BV_NEG
  | BV_ADD | BV_SUB | BV_MUL | BV_UDIV | BV_UREM | BV_LSHL | BV_LSHR
  | BV_ROL | BV_ROR | BV_ZEXT | BV_SEXT | BV_COMP | BV_SDIV | BV_SREM
  | BV_ASHR => true
  | _ => false
  end.
Definition IRA_OPERATORS (o : t) : bool :=
  match o with
  | PLUS | MINUS | TIMES | TOREAL | DIV | POW | BV_TONATURAL => true
  | _ => false
  end.
Definition ARRAY_OPERATORS (o : t) : bool :=
  match o with ARRAY_SELECT | ARRAY_STORE | ARRAY_VALUE => true | _ => false end.
End op.

Inductive Payload :=
| NoPayload
| SymbolPayload (name : string) (ty : PySMTType)
| BoolPayload (b : bool)
| IntPayload (z : Z)
| RealPayload (numerator : Z) (denominator : positive)
| StrPayload (s : string)
| AlgebraicPayload (repr : string)
| BVConstPayload (value : Z) (width : N)
| BVPayload (width : N) (params : list Z)
| QuantPayload (vars : list (string * PySMTType))
| ArrayValuePayload (idx_type : PySMTType).

#[global] Instance Payload_eq_dec : EqDecision Payload.
Proof. solve_decision. Defined.

Inductive FNode :=
| mkFNode (node_type : op.t) (args : list FNode) (payload : Payload).

#[global] Instance FNode_eq_dec : EqDecision FNode.
Proof.
  unfold EqDecision, Decision. fix go 1. intros a b.
  pose proof (list_eq_dec (dec := go)) as Hl.
  unfold EqDecision, Decision in Hl.
  decide equality; solve [ apply Payload_eq_dec | apply op.eq_dec ].
Defined.

Definition node_type (f : FNode) : op.t :=
  match f with mkFNode o _ _ => o end.
Definition args (f : FNode) : list FNode :=
  match f with mkFNode _ a _ => a end.
Definition payload (f : FNode) : Payload :=
  match f with mkFNode _ _ p => p end.

Definition is_symbol (f : FNode) : bool := bool_decide (node_type f = op.SYMBOL).
Definition is_not (f : FNode) : bool := bool_decide (node_type f = op.NOT).

(** [FNode.is_constant]: a node of a constant kind, or an array value
    whose arguments are all constants. *)
Fixpoint is_constant (f : FNode) : bool :=
  match f with
  | mkFNode o xs _ =>
      if op.CONSTANTS o then true
      else if bool_decide (o = op.ARRAY_VALUE) then forallb is_constant xs
      else false
  end.

Definition symbol_name (f : FNode) : string :=
  match payload f with SymbolPayload n _ => n | _ => "" end.
Definition symbol_type (f : FNode) : PySMTType :=
  match payload f with SymbolPayload _ ty => ty | _ => BOOL end.

(** [FNode.is_symbol(BOOL)] *)
Definition is_bool_symbol (f : FNode) : bool :=
  is_symbol f && is_bool_type (symbol_type f).

(** [FNode.is_literal]: a Boolean symbol or the negation of one. *)
Definition is_literal (f : FNode) : bool :=
  if is_bool_symbol f then true
  else if is_not f then
    match args f with a :: _ => is_bool_symbol a | [] => false end
  else false.

(** [FNode.bv_width] on constants and operators (the only nodes the
    converter asks). *)
Definition bv_width (f : FNode) : N :=
  match payload f with
  | BVConstPayload _ w => w
  | BVPayload w _ => w
  | _ => 0%N
  end.

Definition bv_param (i : nat) (f : FNode) : Z :=
  match payload f with
  | BVPayload _ ps => nth i ps 0
  | _ => 0
  end.
Definition bv_extract_start : FNode -> Z := bv_param 0.
Definition bv_extract_end : FNode -> Z := bv_param 1.
Definition bv_rotation_step : FNode -> Z := bv_param 0.
Definition bv_extend_step : FNode -> Z := bv_param 0.

Definition quantifier_vars (f : FNode) : list FNode :=
  match payload f with
  | QuantPayload vs =>
      map (fun v => mkFNode op.SYMBOL [] (SymbolPayload (fst v) (snd v))) vs
  | _ => []
  end.
Definition is_forall (f : FNode) : bool := bool_decide (node_type f = op.FORALL).

(** The symbol a [FUNCTION] node applies. *)
Definition function_name (f : FNode) : FNode :=
  mkFNode op.SYMBOL [] (payload f).

Definition array_value_index_type (f : FNode) : PySMTType :=
  match payload f with ArrayValuePayload t => t | _ => BOOL end.

(** ** The native side: Z3 sorts, declarations and terms

    Z3 hash-conses its terms inside one context: [AstRef.eq] (the test
    behind [askey]) holds exactly for structurally equal terms, which is
    equality of [Z3_ast] here.  Reference counts ([Z3_inc_ref],
    [Z3_dec_ref]) keep terms alive and do not change them; the embedding
    has no deallocation and leaves them out.

    In Python a term is held by an object of a z3py class.  The objects
    z3py itself makes (the children an object lists, the values and
    interpretations of a model, an unsat core, the result of a tactic)
    have the class the term determines ([expr_class] below), and what
    z3py decides by the class of an object ([is_expr], [is_quantifier],
    [children], the tests for numerals and what it reads off them) is
    given here as a function of the term: it is what holds of such an
    object.  These are the objects [back] is given where this module
    calls it, and the only ones it meets below the top of a term.  The
    object [convert] returns holds the term of the walk in the class
    [get_z3_ref] picks, which can be another; [class_kept] says when it is
    the same. *)

Inductive Z3Sort :=
| BoolSort
| IntSort
| RealSort
| BitVecSort (size : N)
| ArraySort (domain range : Z3Sort)
| DeclareSort (name : string)
| OtherSort (name : string).  (* floating point, sequences, datatypes, ... *)

#[global] Instance Z3Sort_eq_dec : EqDecision Z3Sort.
Proof. solve_decision. Defined.

(** [Z3_decl_kind], the part of the enumeration that arithmetic,
    bit-vector and array terms use. *)
Inductive Z3_decl_kind :=
| Z3_OP_TRUE | Z3_OP_FALSE | Z3_OP_EQ | Z3_OP_DISTINCT | Z3_OP_ITE
| Z3_OP_AND | Z3_OP_OR | Z3_OP_IFF | Z3_OP_XOR | Z3_OP_NOT | Z3_OP_IMPLIES
| Z3_OP_ANUM | Z3_OP_AGNUM
| Z3_OP_LE | Z3_OP_GE | Z3_OP_LT | Z3_OP_GT
| Z3_OP_ADD | Z3_OP_SUB | Z3_OP_UMINUS | Z3_OP_MUL | Z3_OP_DIV | Z3_OP_IDIV
| Z3_OP_REM | Z3_OP_MOD | Z3_OP_TO_REAL | Z3_OP_TO_INT | Z3_OP_IS_INT
| Z3_OP_POWER
| Z3_OP_STORE | Z3_OP_SELECT | Z3_OP_CONST_ARRAY | Z3_OP_AS_ARRAY
| Z3_OP_BNUM | Z3_OP_BNEG | Z3_OP_BADD | Z3_OP_BSUB | Z3_OP_BMUL
| Z3_OP_BSDIV | Z3_OP_BUDIV | Z3_OP_BSREM | Z3_OP_BUREM | Z3_OP_BSMOD
| Z3_OP_ULEQ | Z3_OP_SLEQ | Z3_OP_UGEQ | Z3_OP_SGEQ
| Z3_OP_ULT | Z3_OP_SLT | Z3_OP_UGT | Z3_OP_SGT
| Z3_OP_BAND | Z3_OP_BOR | Z3_OP_BNOT | Z3_OP_BXOR
| Z3_OP_CONCAT | Z3_OP_SIGN_EXT | Z3_OP_ZERO_EXT | Z3_OP_EXTRACT
| Z3_OP_BSHL | Z3_OP_BLSHR | Z3_OP_BASHR
| Z3_OP_ROTATE_LEFT | Z3_OP_ROTATE_RIGHT
| Z3_OP_EXT_ROTATE_LEFT | Z3_OP_EXT_ROTATE_RIGHT
| Z3_OP_BV2INT
| Z3_OP_UNINTERPRETED.

#[global] Instance Z3_decl_kind_eq_dec : EqDecision Z3_decl_kind.
Proof. solve_decision. Defined.

(** A declaration's parameters: the integers [Z3_get_decl_int_parameter]
    reads, and the function an as-array term stands for. *)
Inductive Z3_parameter :=
| Z3_PARAMETER_INT (i : Z)
| Z3_PARAMETER_FUNC_DECL (name : string).

#[global] Instance Z3_parameter_eq_dec : EqDecision Z3_parameter.
Proof. solve_decision. Defined.

Record Z3_func_decl := mk_func_decl {
  decl_kind : Z3_decl_kind;
  decl_name : string;
  decl_parameters : list Z3_parameter;
  decl_domain : list Z3Sort;
  decl_range : Z3Sort
}.

#[global] Instance Z3_func_decl_eq_dec : EqDecision Z3_func_decl.
Proof. solve_decision. Defined.

Inductive Z3_ast :=
| Z3_arith_numeral (numerator : Z) (denominator : positive) (s : Z3Sort)
| Z3_bv_numeral (value : Z) (size : N)
| Z3_app (d : Z3_func_decl) (args : list Z3_ast)
| Z3_var (index : nat) (s : Z3Sort)
| Z3_quantifier (is_forall : bool) (bound : list (string * Z3Sort))
                (body : Z3_ast)
| Z3_func_decl_ast (d : Z3_func_decl).

#[global] Instance Z3_ast_eq_dec : EqDecision Z3_ast.
Proof.
  unfold EqDecision, Decision. fix go 1. intros a b.
  pose proof (list_eq_dec (dec := go)) as Hl.
  unfold EqDecision, Decision in Hl.
  decide equality;
    solve [ apply Z3Sort_eq_dec | apply Z3_func_decl_eq_dec | apply Z.eq_dec
          | apply Pos.eq_dec | apply N.eq_dec | apply Nat.eq_dec
          | apply Bool.bool_dec
          | apply (list_eq_dec (A := string * Z3Sort)) ].
Defined.

(** *** What z3py reads off a term *)

Definition Z3_get_sort (a : Z3_ast) : Z3Sort :=
  match a with
  | Z3_arith_numeral _ _ s => s
  | Z3_bv_numeral _ w => BitVecSort w
  | Z3_app d _ => decl_range d
  | Z3_var _ s => s
  | Z3_quantifier _ _ _ => BoolSort
  | Z3_func_decl_ast d => decl_range d
  end.

(** [ExprRef.children] (for a quantifier: its body). *)
Definition children (a : Z3_ast) : list Z3_ast :=
  match a with
  | Z3_app _ xs => xs
  | Z3_quantifier _ _ b => [b]
  | _ => []
  end.

Definition is_expr (a : Z3_ast) : bool :=
  match a with Z3_func_decl_ast _ => false | _ => true end.

Definition is_quantifier (a : Z3_ast) : bool :=
  match a with Z3_quantifier _ _ _ => true | _ => false end.

(** [is_app]: the AST kind is an application or a numeral. *)
Definition is_app (a : Z3_ast) : bool :=
  match a with
  | Z3_arith_numeral _ _ _ | Z3_bv_numeral _ _ | Z3_app _ _ => true
  | _ => false
  end.

Definition num_args (a : Z3_ast) : nat := length (children a).

Definition is_const (a : Z3_ast) : bool :=
  is_app a && bool_decide (num_args a = 0%nat).

(** [Z3_get_decl_kind] of [Z3_get_app_decl]: a numeral is an application
    of a numeral declaration; a bound variable or a quantifier has no
    declaration (Z3 reports an invalid argument). *)
Definition Z3_get_app_decl_kind (a : Z3_ast) : option Z3_decl_kind :=
  match a with
  | Z3_arith_numeral _ _ _ => Some Z3_OP_ANUM
  | Z3_bv_numeral _ _ => Some Z3_OP_BNUM
  | Z3_app d _ => Some (decl_kind d)
  | _ => None
  end.

Definition is_app_of (a : Z3_ast) (k : Z3_decl_kind) : bool :=
  bool_decide (Z3_get_app_decl_kind a = Some k).

Definition is_and (a : Z3_ast) := is_app_of a Z3_OP_AND.
Definition is_or (a : Z3_ast) := is_app_of a Z3_OP_OR.
Definition is_add (a : Z3_ast) := is_app_of a Z3_OP_ADD.
Definition is_mul (a : Z3_ast) := is_app_of a Z3_OP_MUL.
(** The predicates the module patches into [z3]. *)
Definition is_ite (a : Z3_ast) := is_app_of a Z3_OP_ITE.
Definition is_function (a : Z3_ast) := is_app_of a Z3_OP_UNINTERPRETED.
Definition is_array_store (a : Z3_ast) := is_app_of a Z3_OP_STORE.

Definition is_rational_value (a : Z3_ast) : bool :=
  match a with
  | Z3_arith_numeral _ _ RealSort => true
  | _ => false
  end.
Definition is_int_value (a : Z3_ast) : bool :=
  match a with
  | Z3_arith_numeral _ _ IntSort => true
  | _ => false
  end.
Definition is_bv_value (a : Z3_ast) : bool :=
  match a with Z3_bv_numeral _ _ => true | _ => false end.
Definition is_as_array (a : Z3_ast) : bool := is_app_of a Z3_OP_AS_ARRAY.
Definition is_algebraic_value (a : Z3_ast) : bool :=
  is_app_of a Z3_OP_AGNUM && bool_decide (Z3_get_sort a = RealSort).

(** [str(expr)] of a constant and [expr.decl().name()]: the declared name. *)
Definition expr_name (a : Z3_ast) : string :=
  match a with
  | Z3_app d _ => decl_name d
  | _ => ""
  end.

(** [z3.get_payload(node, i)]: the i-th integer parameter of the node's
    declaration. *)
Definition get_payload (a : Z3_ast) (i : nat) : option Z :=
  match a with
  | Z3_app d _ =>
      match decl_parameters d !! i with
      | Some (Z3_PARAMETER_INT z) => Some z
      | _ => None
      end
  | _ => None
  end.

(** [z3.get_as_array_func] *)
Definition get_as_array_func (a : Z3_ast) : option string :=
  match a with
  | Z3_app d _ =>
      match decl_parameters d with
      | Z3_PARAMETER_FUNC_DECL f :: _ => Some f
      | _ => None
      end
  | _ => None
  end.

(** *** The constructors of the C API that the converter calls

    A built-in operator is an application of a declaration of its kind;
    the range sort is what Z3 computes for the operator. *)

Definition builtin (k : Z3_decl_kind) (ps : list Z3_parameter)
    (range : Z3Sort) (xs : list Z3_ast) : Z3_ast :=
  Z3_app (mk_func_decl k "" ps (map Z3_get_sort xs) range) xs.

Definition sort_of_first (xs : list Z3_ast) : Z3Sort :=
  match xs with x :: _ => Z3_get_sort x | [] => BoolSort end.

Definition bv_size (a : Z3_ast) : N :=
  match Z3_get_sort a with BitVecSort w => w | _ => 0%N end.

Definition Z3_mk_not (a : Z3_ast) := builtin Z3_OP_NOT [] BoolSort [a].
Definition Z3_mk_and (xs : list Z3_ast) := builtin Z3_OP_AND [] BoolSort xs.
Definition Z3_mk_or (xs : list Z3_ast) := builtin Z3_OP_OR [] BoolSort xs.
Definition Z3_mk_implies (a b : Z3_ast) :=
  builtin Z3_OP_IMPLIES [] BoolSort [a; b].
Definition Z3_mk_eq (a b : Z3_ast) := builtin Z3_OP_EQ [] BoolSort [a; b].
Definition Z3_mk_ite (i t e : Z3_ast) :=
  builtin Z3_OP_ITE [] (Z3_get_sort t) [i; t; e].
Definition Z3_mk_le (a b : Z3_ast) := builtin Z3_OP_LE [] BoolSort [a; b].
Definition Z3_mk_lt (a b : Z3_ast) := builtin Z3_OP_LT [] BoolSort [a; b].
Definition Z3_mk_add (xs : list Z3_ast) :=
  builtin Z3_OP_ADD [] (sort_of_first xs) xs.
Definition Z3_mk_mul (xs : list Z3_ast) :=
  builtin Z3_OP_MUL [] (sort_of_first xs) xs.
Definition Z3_mk_sub (xs : list Z3_ast) :=
  builtin Z3_OP_SUB [] (sort_of_first xs) xs.
Definition Z3_mk_power (a b : Z3_ast) :=
  builtin Z3_OP_POWER [] (Z3_get_sort a) [a; b].
(** [Z3_mk_div]: integer division ([Z3_OP_IDIV]) when the first argument
    is of integer sort, and real division otherwise. *)
Definition Z3_mk_div (a b : Z3_ast) :=
  builtin (if bool_decide (Z3_get_sort a = IntSort) then Z3_OP_IDIV
           else Z3_OP_DIV)
    [] (Z3_get_sort a) [a; b].
Definition Z3_mk_int2real (a : Z3_ast) :=
  builtin Z3_OP_TO_REAL [] RealSort [a].
Definition Z3_mk_true := builtin Z3_OP_TRUE [] BoolSort [].
Definition Z3_mk_false := builtin Z3_OP_FALSE [] BoolSort [].

(** [Z3_mk_const]: an uninterpreted constant. *)
Definition Z3_mk_const (name : string) (s : Z3Sort) : Z3_ast :=
  Z3_app (mk_func_decl Z3_OP_UNINTERPRETED name [] [] s) [].

Definition Z3_mk_func_decl (name : string) (dom : list Z3Sort)
    (ret : Z3Sort) : Z3_func_decl :=
  mk_func_decl Z3_OP_UNINTERPRETED name [] dom ret.

Definition Z3_mk_app (d : Z3_func_decl) (xs : list Z3_ast) : Z3_ast :=
  Z3_app d xs.

(** [Z3_mk_numeral]: the converter passes the decimal text of an integer
    or of a fraction; here it passes the number.  A bit-vector numeral is
    taken modulo two to the width.  Other sorts have no numerals. *)
Definition Z3_mk_numeral (n : Z) (d : positive) (s : Z3Sort)
    : option Z3_ast :=
  match s with
  | RealSort =>
      let g := Z.gcd n (Z.pos d) in
      Some (Z3_arith_numeral (n / g) (Z.to_pos (Z.pos d / g)) RealSort)
  | IntSort => Some (Z3_arith_numeral (n / Z.pos d) 1 IntSort)
  | BitVecSort w => Some (Z3_bv_numeral ((n / Z.pos d) mod 2 ^ Z.of_N w) w)
  | _ => None
  end.

Definition bv_unop (k : Z3_decl_kind) (a : Z3_ast) :=
  builtin k [] (Z3_get_sort a) [a].
Definition bv_binop (k : Z3_decl_kind) (a b : Z3_ast) :=
  builtin k [] (Z3_get_sort a) [a; b].
Definition bv_rel (k : Z3_decl_kind) (a b : Z3_ast) :=
  builtin k [] BoolSort [a; b].

Definition Z3_mk_bvnot := bv_unop Z3_OP_BNOT.
Definition Z3_mk_bvneg := bv_unop Z3_OP_BNEG.
Definition Z3_mk_bvand := bv_binop Z3_OP_BAND.
Definition Z3_mk_bvor := bv_binop Z3_OP_BOR.
Definition Z3_mk_bvxor := bv_binop Z3_OP_BXOR.
Definition Z3_mk_bvadd := bv_binop Z3_OP_BADD.
Definition Z3_mk_bvsub := bv_binop Z3_OP_BSUB.
Definition Z3_mk_bvmul := bv_binop Z3_OP_BMUL.
Definition Z3_mk_bvudiv := bv_binop Z3_OP_BUDIV.
Definition Z3_mk_bvurem := bv_binop Z3_OP_BUREM.
Definition Z3_mk_bvsdiv := bv_binop Z3_OP_BSDIV.
Definition Z3_mk_bvsrem := bv_binop Z3_OP_BSREM.
Definition Z3_mk_bvshl := bv_binop Z3_OP_BSHL.
Definition Z3_mk_bvlshr := bv_binop Z3_OP_BLSHR.
Definition Z3_mk_bvashr := bv_binop Z3_OP_BASHR.
Definition Z3_mk_ext_rotate_left := bv_binop Z3_OP_EXT_ROTATE_LEFT.
Definition Z3_mk_ext_rotate_right := bv_binop Z3_OP_EXT_ROTATE_RIGHT.
Definition Z3_mk_bvult := bv_rel Z3_OP_ULT.
Definition Z3_mk_bvule := bv_rel Z3_OP_ULEQ.
Definition Z3_mk_bvslt := bv_rel Z3_OP_SLT.
Definition Z3_mk_bvsle := bv_rel Z3_OP_SLEQ.
Definition Z3_mk_concat (a b : Z3_ast) :=
  builtin Z3_OP_CONCAT [] (BitVecSort (bv_size a + bv_size b)) [a; b].
Definition Z3_mk_extract (high low : Z) (a : Z3_ast) :=
  builtin Z3_OP_EXTRACT [Z3_PARAMETER_INT high; Z3_PARAMETER_INT low]
    (BitVecSort (Z.to_N (high - low + 1))) [a].
Definition Z3_mk_zero_ext (i : Z) (a : Z3_ast) :=
  builtin Z3_OP_ZERO_EXT [Z3_PARAMETER_INT i]
    (BitVecSort (bv_size a + Z.to_N i)) [a].
Definition Z3_mk_sign_ext (i : Z) (a : Z3_ast) :=
  builtin Z3_OP_SIGN_EXT [Z3_PARAMETER_INT i]
    (BitVecSort (bv_size a + Z.to_N i)) [a].
Definition Z3_mk_bv2int (a : Z3_ast) := builtin Z3_OP_BV2INT [] IntSort [a].

Definition Z3_mk_select (a i : Z3_ast) :=
  builtin Z3_OP_SELECT []
    (match Z3_get_sort a with ArraySort _ r => r | s => s end) [a; i].
Definition Z3_mk_store (a i v : Z3_ast) :=
  builtin Z3_OP_STORE [] (Z3_get_sort a) [a; i; v].
Definition Z3_mk_const_array (dom : Z3Sort) (v : Z3_ast) :=
  builtin Z3_OP_CONST_ARRAY [] (ArraySort dom (Z3_get_sort v)) [v].

Fixpoint index_of (x : Z3_ast) (l : list Z3_ast) : option nat :=
  match l with
  | [] => None
  | y :: l' => if decide (x = y) then Some 0%nat else S <$> index_of x l'
  end.

(** Z3 keeps the body of a quantifier with the bound constants replaced
    by de Bruijn variables (the last bound constant has index 0). *)
Fixpoint abstract_consts (bound : list Z3_ast) (depth : nat) (t : Z3_ast)
    : Z3_ast :=
  match t with
  | Z3_app d xs =>
      match index_of t bound with
      | Some i => Z3_var (depth + (length bound - 1 - i)) (decl_range d)
      | None => Z3_app d (map (abstract_consts bound depth) xs)
      end
  | Z3_quantifier fa bs b =>
      Z3_quantifier fa bs (abstract_consts bound (depth + length bs) b)
  | _ => t
  end.

(** [Z3_mk_quantifier_const_ex] with weight 1, empty identifiers and no
    patterns, as [walk_quantifier] calls it. *)
Definition Z3_mk_quantifier_const_ex (is_forall : bool)
    (bound : list Z3_ast) (body : Z3_ast) : Z3_ast :=
  Z3_quantifier is_forall
    (map (fun b => (expr_name b, Z3_get_sort b)) bound)
    (abstract_consts bound 0 body).

(** ** Exceptions and results *)

(** The object an exception carries in its [expression] attribute. *)
Inductive PyObject :=
| FormulaObject (f : FNode)
| NativeObject (t : Z3_ast).

(** The exception classes of [pysmt.exceptions] and of Python that the
    module raises or lets through.  A message that the source formats with
    [%s] is kept as its format string.  The last two are not Python
    exceptions but the places where the embedding stops: [IterationBound]
    when the bound on a loop's iterations is used up, and [NoneArgument]
    where the source would hand [None] (a memo entry still being computed)
    to the formula manager, whose behaviour on [None] is outside this
    module. *)
Inductive PyExn :=
| SolverReturnedUnknownResultError
| SolverNotConfiguredForUnsatCoresError
| SolverStatusError (message : string)
| ConvertExpressionError (message : string) (expression : PyObject)
| UndefinedSymbolError (name : string)
| PysmtValueError (message : string)
| PysmtTypeError (message : string)
| NotImplementedError (message : string)
| AssertionError (message : string)
| KeyError
| IndexError
| AttributeError (message : string)
| Z3Exception (message : string)
| IterationBound
| NoneArgument.

Inductive result (A : Type) :=
| Ok (a : A)
| Raise (e : PyExn).
Arguments Ok {A} a.
Arguments Raise {A} e.

#[global] Instance result_ret : MRet result := fun _ a => Ok a.
#[global] Instance result_bind : MBind result := fun _ _ f r =>
  match r with Ok a => f a | Raise e => Raise e end.
#[global] Instance result_fmap : FMap result := fun _ _ f r =>
  match r with Ok a => Ok (f a) | Raise e => Raise e end.

Definition is_Ok {A} (r : result A) : bool :=
  match r with Ok _ => true | Raise _ => false end.

(** A method of an object with state [S]: the result and the state it
    leaves. *)
Definition Method (S A : Type) : Type := S -> result A * S.

Definition ret {S A} (a : A) : Method S A := fun s => (Ok a, s).
Definition raise {S A} (e : PyExn) : Method S A := fun s => (Raise e, s).
Definition bind {S A B} (m : Method S A) (k : A -> Method S B)
    : Method S B :=
  fun s => match m s with
           | (Ok a, s') => k a s'
           | (Raise e, s') => (Raise e, s')
           end.
Definition lift {S A} (r : result A) : Method S A := fun s => (r, s).
Definition get {S} : Method S S := fun s => (Ok s, s).
Definition modify {S} (f : S -> S) : Method S unit := fun s => (Ok tt, f s).

Declare Scope method_scope.
Delimit Scope method_scope with method.
Notation "x <~ c1 ;; c2" := (bind c1 (fun x => c2))
  (at level 100, c1 at next level, right associativity) : method_scope.
Notation "c1 ;;; c2" := (bind c1 (fun _ => c2))
  (at level 100, right associativity) : method_scope.

(** [for x in xs: body(x)] *)
Fixpoint for_each {S A} (xs : list A) (body : A -> Method S unit)
    : Method S unit :=
  match xs with
  | [] => ret tt
  | x :: xs' => bind (body x) (fun _ => for_each xs' body)
  end.

(** ** Python dictionaries with keys that have no order: association
    lists in insertion order; a key is bound at most once. *)

Section PyDict.
Context {K V : Type} `{EqDecision K}.

Definition dict := list (K * V).

Fixpoint dict_get (k : K) (d : dict) : option V :=
  match d with
  | [] => None
  | (k', v) :: d' => if decide (k' = k) then Some v else dict_get k d'
  end.

Fixpoint dict_set (k : K) (v : V) (d : dict) : dict :=
  match d with
  | [] => [(k, v)]
  | (k', v') :: d' =>
      if decide (k' = k) then (k, v) :: d' else (k', v') :: dict_set k v d'
  end.

Definition dict_keys (d : dict) : list K := map fst d.
End PyDict.
Arguments dict : clear implicits.

(** ** The environment's collaborators *)

(** The type-inference oracle, [environment.stc.get_type]. *)
Class TypeOracle := { get_type : FNode -> PySMTType }.

(** ** The formula manager ([environment.formula_manager])

    Modelled from the spec: the manager is the symbol table of the
    interface section ([get_symbol(name)], [declare(name, type)], "raising
    UndefinedSymbolError on unknown lookups", "same name always resolves to
    the same symbol") and the constructors of formula nodes.  A
    constructor creates the node of its kind, except that [And], [Or],
    [Plus] and [Times] of one argument are that argument, [And] and [Or]
    of none are the constants, and [Not] of a negation is the negated
    formula; the operators pySMT has no node kind for ([GT], [GE], [Xor]
    and the unsigned and signed "greater" comparisons) are built from
    those it has. *)

Module FormulaManager.

Record t := mk {
  symbols : gmap string PySMTType;
  _fresh_guess : nat
}.

Definition empty : t := mk ∅ 0.

Definition symbol_node (name : string) (ty : PySMTType) : FNode :=
  mkFNode op.SYMBOL [] (SymbolPayload name ty).

Definition get_symbol (name : string) : Method t FNode := fun m =>
  match symbols m !! name with
  | Some ty => (Ok (symbol_node name ty), m)
  | None => (Raise (UndefinedSymbolError name), m)
  end.

(** [Symbol(name, type)]: the symbol of that name, declared if it is new. *)
Definition Symbol (name : string) (ty : PySMTType) : Method t FNode :=
  fun m =>
    match symbols m !! name with
    | None =>
        (Ok (symbol_node name ty),
         mk (<[name := ty]> (symbols m)) (_fresh_guess m))
    | Some ty' =>
        if decide (ty' = ty) then (Ok (symbol_node name ty), m)
        else (Raise (PysmtTypeError
                "Trying to redefine symbol '%s' with a new type"), m)
    end.

(** [template % n] for a template that ends in [%d]. *)
Definition format_d (prefix : string) (n : nat) : string :=
  prefix +:+ pretty n.

(** The first index from [_fresh_guess] on whose name is not taken; one
    of [size symbols + 1] consecutive indices is free. *)
Definition fresh_index (prefix : string) (m : t) : nat :=
  let candidates := seq (_fresh_guess m) (S (size (symbols m))) in
  match list_find (fun n => symbols m !! format_d prefix n = None)
                  candidates with
  | Some (_, n) => n
  | None => _fresh_guess m + S (size (symbols m))
  end.

(** [FreshSymbol(typename=BOOL, template=prefix + "%d")] *)
Definition FreshSymbol (ty : PySMTType) (prefix : string)
    : Method t FNode := fun m =>
  let n := fresh_index prefix m in
  let name := format_d prefix n in
  (Ok (symbol_node name ty), mk (<[name := ty]> (symbols m)) (S n)).

Definition node (o : op.t) (xs : list FNode) : FNode :=
  mkFNode o xs NoPayload.

Definition TRUE := mkFNode op.BOOL_CONSTANT [] (BoolPayload true).
Definition FALSE := mkFNode op.BOOL_CONSTANT [] (BoolPayload false).
Definition Bool (b : bool) := mkFNode op.BOOL_CONSTANT [] (BoolPayload b).
Definition Int (n : Z) := mkFNode op.INT_CONSTANT [] (IntPayload n).

(** [Real(Fraction(n, d))]: the fraction in lowest terms. *)
Definition Real (n : Z) (d : positive) : FNode :=
  let g := Z.gcd n (Z.pos d) in
  mkFNode op.REAL_CONSTANT []
    (RealPayload (n / g) (Z.to_pos (Z.pos d / g))).

Definition BV (value : Z) (width : N) :=
  mkFNode op.BV_CONSTANT [] (BVConstPayload value width).
Definition _Algebraic (repr : string) :=
  mkFNode op.ALGEBRAIC_CONSTANT [] (AlgebraicPayload repr).

(** [And] and [Or]: without arguments the constant, of one argument the
    argument itself. *)
Definition And (xs : list FNode) : FNode :=
  match xs with
  | [] => TRUE
  | [x] => x
  | _ => node op.AND xs
  end.
Definition Or (xs : list FNode) : FNode :=
  match xs with
  | [] => FALSE
  | [x] => x
  | _ => node op.OR xs
  end.

(** [Not(formula)]: of a negation, the negated formula. *)
Definition Not (a : FNode) : FNode :=
  match a with
  | mkFNode op.NOT (b :: _) _ => b
  | _ => node op.NOT [a]
  end.
Definition Implies (a b : FNode) := node op.IMPLIES [a; b].
Definition Iff (a b : FNode) := node op.IFF [a; b].
Definition Xor (a b : FNode) := Not (Iff a b).

(** [Plus] and [Times]: of one argument the argument itself; without
    arguments they raise. *)
Definition Plus (xs : list FNode) : result FNode :=
  match xs with
  | [] => Raise (PysmtTypeError "Cannot create a Plus without arguments.")
  | [x] => Ok x
  | _ => Ok (node op.PLUS xs)
  end.
Definition Times (xs : list FNode) : result FNode :=
  match xs with
  | [] => Raise (PysmtTypeError "Cannot create a Times without arguments.")
  | [x] => Ok x
  | _ => Ok (node op.TIMES xs)
  end.
Definition Minus (a b : FNode) := node op.MINUS [a; b].
Definition Div (a b : FNode) := node op.DIV [a; b].
Definition Pow (a b : FNode) := node op.POW [a; b].
Definition LE (a b : FNode) := node op.LE [a; b].
Definition LT (a b : FNode) := node op.LT [a; b].
Definition GE (a b : FNode) := LE b a.
Definition GT (a b : FNode) := LT b a.
Definition Equals (a b : FNode) := node op.EQUALS [a; b].
Definition Ite (i t e : FNode) := node op.ITE [i; t; e].
Definition ToReal (a : FNode) := node op.TOREAL [a].
Definition Select (a i : FNode) := node op.ARRAY_SELECT [a; i].
Definition Store (a i v : FNode) := node op.ARRAY_STORE [a; i; v].

(** [Function(fsymbol, args)]; without arguments it is the symbol. *)
Definition Function (fsymbol : FNode) (xs : list FNode) : FNode :=
  match xs with
  | [] => fsymbol
  | _ => mkFNode op.FUNCTION xs (payload fsymbol)
  end.

(** [Array(idx_type, default, assign)]: the default, then the index and
    value of each assignment. *)
Definition Array (idx_type : PySMTType) (default : FNode)
    (assign : dict FNode FNode) : FNode :=
  mkFNode op.ARRAY_VALUE
    (default :: flat_map (fun kv => [fst kv; snd kv]) assign)
    (ArrayValuePayload idx_type).

(** The width of a bit-vector term, as [FNode.bv_width] finds it. *)
Fixpoint width_of (f : FNode) : N :=
  match f with
  | mkFNode o xs p =>
      match p with
      | BVConstPayload _ w => w
      | BVPayload w _ => w
      | SymbolPayload _ (BVType w) => w
      | SymbolPayload _ (FunctionType (BVType w) _) => w
      | _ =>
          match o, xs with
          | op.ITE, [_; a; _] => width_of a
          | _, _ => 0%N
          end
      end
  end.

Definition bv (o : op.t) (w : N) (ps : list Z) (xs : list FNode) : FNode :=
  mkFNode o xs (BVPayload w ps).

Definition BVNot (a : FNode) := bv op.BV_NOT (width_of a) [] [a].
Definition BVNeg (a : FNode) := bv op.BV_NEG (width_of a) [] [a].
Definition BVAnd (a b : FNode) := bv op.BV_AND (width_of a) [] [a; b].
Definition BVOr (a b : FNode) := bv op.BV_OR (width_of a) [] [a; b].
Definition BVXor (a b : FNode) := bv op.BV_XOR (width_of a) [] [a; b].
Definition BVAdd (a b : FNode) := bv op.BV_ADD (width_of a) [] [a; b].
Definition BVSub (a b : FNode) := bv op.BV_SUB (width_of a) [] [a; b].
Definition BVMul (a b : FNode) := bv op.BV_MUL (width_of a) [] [a; b].
Definition BVUDiv (a b : FNode) := bv op.BV_UDIV (width_of a) [] [a; b].
Definition BVURem (a b : FNode) := bv op.BV_UREM (width_of a) [] [a; b].
Definition BVSDiv (a b : FNode) := bv op.BV_SDIV (width_of a) [] [a; b].
Definition BVSRem (a b : FNode) := bv op.BV_SREM (width_of a) [] [a; b].
Definition BVLShl (a b : FNode) := bv op.BV_LSHL (width_of a) [] [a; b].
Definition BVLShr (a b : FNode) := bv op.BV_LSHR (width_of a) [] [a; b].
Definition BVAShr (a b : FNode) := bv op.BV_ASHR (width_of a) [] [a; b].
Definition BVConcat (a b : FNode) :=
  bv op.BV_CONCAT (width_of a + width_of b) [] [a; b].
Definition BVExtract (a : FNode) (start end_ : Z) :=
  bv op.BV_EXTRACT (Z.to_N (end_ - start + 1)) [start; end_] [a].
Definition BVRol (a : FNode) (steps : Z) :=
  bv op.BV_ROL (width_of a) [steps] [a].
Definition BVRor (a : FNode) (steps : Z) :=
  bv op.BV_ROR (width_of a) [steps] [a].
Definition BVZExt (a : FNode) (increase : Z) :=
  bv op.BV_ZEXT (width_of a + Z.to_N increase) [increase] [a].
Definition BVSExt (a : FNode) (increase : Z) :=
  bv op.BV_SEXT (width_of a + Z.to_N increase) [increase] [a].
Definition BVULT (a b : FNode) := node op.BV_ULT [a; b].
Definition BVULE (a b : FNode) := node op.BV_ULE [a; b].
Definition BVUGT (a b : FNode) := BVULT b a.
Definition BVUGE (a b : FNode) := BVULE b a.
Definition BVSLT (a b : FNode) := node op.BV_SLT [a; b].
Definition BVSLE (a b : FNode) := node op.BV_SLE [a; b].
Definition BVSGT (a b : FNode) := BVSLT b a.
Definition BVSGE (a b : FNode) := BVSLE b a.
Definition BVToNatural (a : FNode) := node op.BV_TONATURAL [a].

End FormulaManager.

(** ** [Z3Converter]: forward conversion *)

Definition from_z3 {A} (o : option A) : result A :=
  match o with
  | Some a => Ok a
  | None => Raise (Z3Exception "invalid argument")
  end.

(** [args[i]] *)
Definition item {A} (xs : list A) (i : nat) : result A :=
  match xs !! i with
  | Some x => Ok x
  | None => Raise IndexError
  end.

(** [z3BitVecSort]: [z3.BitVecSort(width)] hands the width to the C API as
    an unsigned 32-bit integer, which keeps it modulo two to the 32, and
    the engine rejects the size zero.  (The cache returns, for a width it
    has seen, the sort built here.) *)
Definition z3BitVecSort (width : N) : result Z3Sort :=
  let size := (width mod 2 ^ 32)%N in
  if bool_decide (size = 0%N) then
    Raise (Z3Exception "bit-vector size must be greater than zero")
  else Ok (BitVecSort size).

(** [_type_to_z3]; the sort caches ([z3ArraySort], [z3Sort]) return the
    sort they were first given for a key, which is the sort built here. *)
Fixpoint _type_to_z3 (tp : PySMTType) : result Z3Sort :=
  match tp with
  | BOOL => Ok BoolSort
  | REAL => Ok RealSort
  | INT => Ok IntSort
  | ArrayType i e =>
      key_sort ← _type_to_z3 i;
      val_sort ← _type_to_z3 e;
      Ok (ArraySort key_sort val_sort)
  | BVType w => z3BitVecSort w
  | Type_ name => Ok (DeclareSort name)
  | STRING | FunctionType _ _ => Raise (AssertionError "Unsupported type '%s'")
  end.

(** [_z3_func_decl]: the declaration of a function symbol (cached by
    symbol; the cached declaration is the one built here). *)
Definition _z3_func_decl (func_name : FNode) : result Z3_func_decl :=
  match symbol_type func_name with
  | FunctionType return_type param_types =>
      z3dom ← mapM _type_to_z3 param_types;
      z3ret ← _type_to_z3 return_type;
      Ok (Z3_mk_func_decl (symbol_name func_name) z3dom z3ret)
  | _ => Raise (AttributeError "param_types")
  end.

Definition walk_not (args : list Z3_ast) : result Z3_ast :=
  a ← item args 0;
  Ok (Z3_mk_not a).

Definition walk_symbol (formula : FNode) : result Z3_ast :=
  let symbol_type := symbol_type formula in
  if is_function_type symbol_type then
    Z3_func_decl_ast <$> _z3_func_decl formula
  else
    let sname := symbol_name formula in
    sort_ast ←
      (if is_bool_type symbol_type then Ok BoolSort
       else if is_real_type symbol_type then Ok RealSort
       else if is_int_type symbol_type then Ok IntSort
       else if is_array_type symbol_type then _type_to_z3 symbol_type
       else if is_string_type symbol_type then
         Raise (ConvertExpressionError "Unsupported string symbol: %s"
                  (FormulaObject formula))
       else if is_custom_type symbol_type then _type_to_z3 symbol_type
       else _type_to_z3 symbol_type);
    Ok (Z3_mk_const sname sort_ast).

(** The z3py classes of the objects the converter meets.  [get_z3_ref]
    picks among the first six; the others are classes z3py itself gives
    to the terms it hands out. *)
Inductive Z3RefClass :=
| BoolRef | ArithRef | BitVecRef | ArrayRef | FuncDeclRef | AstRef
| QuantifierRef | IntNumRef | RatNumRef | AlgebraicNumRef | BitVecNumRef
| ExprRef.

#[global] Instance Z3RefClass_eq_dec : EqDecision Z3RefClass.
Proof. solve_decision. Defined.

Definition BOOLREF_SET (o : op.t) : bool :=
  op.BOOL_OPERATORS o || op.RELATIONS o.
Definition ARITHREF_SET : op.t -> bool := op.IRA_OPERATORS.
Definition BITVECREF_SET : op.t -> bool := op.BV_OPERATORS.

(** The class of a symbol or of a function application, by its type or
    return type. *)
Definition class_of_type (type_ : PySMTType) : Z3RefClass :=
  if is_bool_type type_ then BoolRef
  else if is_real_type type_ || is_int_type type_ then ArithRef
  else if is_array_type type_ then ArrayRef
  else if is_bv_type type_ then BitVecRef
  else if is_function_type type_ then FuncDeclRef
  else AstRef.

(** [FNode.constant_type] *)
Definition constant_type (formula : FNode) : result PySMTType :=
  match node_type formula with
  | op.INT_CONSTANT => Ok INT
  | op.REAL_CONSTANT => Ok REAL
  | op.BOOL_CONSTANT => Ok BOOL
  | op.STR_CONSTANT => Ok STRING
  | op.BV_CONSTANT => Ok (BVType (bv_width formula))
  | _ => Raise (AssertionError "Unsupported method constant_type '%s'")
  end.

(** [get_z3_ref].  Its first test compares the method [node_type] itself,
    not the kind it returns, with the quantifiers, and never holds: a
    quantified formula is classed by the next test, as Boolean. *)
Fixpoint get_z3_ref (formula : FNode) : result Z3RefClass :=
  match formula with
  | mkFNode o xs p =>
      if BOOLREF_SET o then Ok BoolRef
      else if ARITHREF_SET o then Ok ArithRef
      else if BITVECREF_SET o then Ok BitVecRef
      else if bool_decide (o = op.SYMBOL) || bool_decide (o = op.FUNCTION)
      then
        if bool_decide (o = op.FUNCTION) then
          match symbol_type (function_name formula) with
          | FunctionType return_type _ => Ok (class_of_type return_type)
          | _ => Raise (AttributeError "return_type")
          end
        else Ok (class_of_type (symbol_type formula))
      else if op.ARRAY_OPERATORS o then Ok ArrayRef
      else if bool_decide (o = op.ITE) then
        match xs with
        | _ :: child :: _ => get_z3_ref child
        | _ => Raise IndexError
        end
      else if negb (is_constant formula) then Raise (AssertionError "")
      else
        type_ ← constant_type formula;
        if is_bool_type type_ then Ok BoolRef
        else if is_real_type type_ || is_int_type type_ then Ok ArithRef
        else if is_array_type type_ then Ok ArrayRef
        else if is_bv_type type_ then Ok BitVecRef
        else Raise (NotImplementedError "")
  end.

Section Forward.
Context `{TypeOracle}.

Definition walk_ite (formula : FNode) (args : list Z3_ast)
    : result Z3_ast :=
  i ← item args 0;
  ni ← walk_not [i];
  t ← item args 1;
  e ← item args 2;
  if is_bool_type (get_type formula) then
    (* Rewrite as (!i \/ t) & (i \/ e) *)
    let or1 := Z3_mk_or [ni; t] in
    let or2 := Z3_mk_or [i; e] in
    Ok (Z3_mk_and [or1; or2])
  else
    Ok (Z3_mk_ite i t e).

Definition walk_real_constant (formula : FNode) : result Z3_ast :=
  match payload formula with
  | RealPayload n d => from_z3 (Z3_mk_numeral n d RealSort)
  | _ => Raise (AttributeError "numerator")
  end.

Definition walk_int_constant (formula : FNode) : result Z3_ast :=
  match payload formula with
  | IntPayload n => from_z3 (Z3_mk_numeral n 1 IntSort)
  | _ => Raise (AssertionError "")
  end.

Definition walk_bool_constant (formula : FNode) : result Z3_ast :=
  match payload formula with
  | BoolPayload true => Ok Z3_mk_true
  | _ => Ok Z3_mk_false
  end.

Definition walk_quantifier (formula : FNode) (args : list Z3_ast)
    : result Z3_ast :=
  qvars ← mapM walk_symbol (quantifier_vars formula);
  body ← item args 0;
  Ok (Z3_mk_quantifier_const_ex (is_forall formula) qvars body).

Definition walk_toreal (args : list Z3_ast) : result Z3_ast :=
  a ← item args 0;
  Ok (Z3_mk_int2real a).

Definition walk_function (formula : FNode) (args : list Z3_ast)
    : result Z3_ast :=
  z3func ← _z3_func_decl (function_name formula);
  Ok (Z3_mk_app z3func args).

Definition walk_bv_constant (formula : FNode) : result Z3_ast :=
  match payload formula with
  | BVConstPayload value w =>
      bvsort ← z3BitVecSort w;
      from_z3 (Z3_mk_numeral value 1 bvsort)
  | _ => Raise (AttributeError "constant_value")
  end.

Definition walk_bv_extract (formula : FNode) (args : list Z3_ast)
    : result Z3_ast :=
  a ← item args 0;
  Ok (Z3_mk_extract (bv_extract_end formula) (bv_extract_start formula) a).

Definition walk_bv_rotate (mk : Z3_ast -> Z3_ast -> Z3_ast)
    (formula : FNode) (args : list Z3_ast) : result Z3_ast :=
  bvsort ← z3BitVecSort (bv_width formula);
  step ← from_z3 (Z3_mk_numeral (bv_rotation_step formula) 1 bvsort);
  a ← item args 0;
  Ok (mk a step).
Definition walk_bv_rol := walk_bv_rotate Z3_mk_ext_rotate_left.
Definition walk_bv_ror := walk_bv_rotate Z3_mk_ext_rotate_right.

Definition walk_bv_zext (formula : FNode) (args : list Z3_ast)
    : result Z3_ast :=
  a ← item args 0;
  Ok (Z3_mk_zero_ext (bv_extend_step formula) a).

Definition walk_bv_sext (formula : FNode) (args : list Z3_ast)
    : result Z3_ast :=
  a ← item args 0;
  Ok (Z3_mk_sign_ext (bv_extend_step formula) a).

Definition walk_bv_comp (args : list Z3_ast) : result Z3_ast :=
  a ← item args 0;
  b ← item args 1;
  let cond := Z3_mk_eq a b in
  bvsort1 ← z3BitVecSort 1;
  then_ ← from_z3 (Z3_mk_numeral 1 1 bvsort1);
  bvsort1' ← z3BitVecSort 1;
  else_ ← from_z3 (Z3_mk_numeral 0 1 bvsort1');
  Ok (Z3_mk_ite cond then_ else_).

Definition walk_array_select (args : list Z3_ast) : result Z3_ast :=
  a ← item args 0;
  i ← item args 1;
  Ok (Z3_mk_select a i).

Definition walk_array_store (args : list Z3_ast) : result Z3_ast :=
  a ← item args 0;
  i ← item args 1;
  v ← item args 2;
  Ok (Z3_mk_store a i v).

(** The loop of [walk_array_value] over the index and value pairs. *)
Fixpoint array_value_stores (z3term : Z3_ast) (rest : list Z3_ast)
    : result Z3_ast :=
  match rest with
  | [] => Ok z3term
  | [_] => Raise IndexError
  | c :: v :: rest' =>
      z3term' ← walk_array_store [z3term; c; v];
      array_value_stores z3term' rest'
  end.

Definition walk_array_value (formula : FNode) (args : list Z3_ast)
    : result Z3_ast :=
  let idx_type := array_value_index_type formula in
  arraysort ← _type_to_z3 idx_type;
  default ← item args 0;
  array_value_stores (Z3_mk_const_array arraysort default) (tail args).

(** [make_walk_nary] and [make_walk_binary] *)
Definition make_walk_nary (func : list Z3_ast -> Z3_ast)
    (args : list Z3_ast) : result Z3_ast :=
  Ok (func args).

Definition make_walk_binary (func : Z3_ast -> Z3_ast -> Z3_ast)
    (args : list Z3_ast) : result Z3_ast :=
  a ← item args 0;
  b ← item args 1;
  Ok (func a b).

Definition walk_unary (func : Z3_ast -> Z3_ast) (args : list Z3_ast)
    : result Z3_ast :=
  a ← item args 0;
  Ok (func a).

(** The walker's dispatch on the node type: the [walk_] method of the
    node's kind.  Modelled from the spec: a kind the converter has no
    method for ("unsupported theories") "raises a ConversionError". *)
Definition walk_node (formula : FNode) (args : list Z3_ast)
    : result Z3_ast :=
  match node_type formula with
  | op.FORALL | op.EXISTS => walk_quantifier formula args
  | op.AND => make_walk_nary Z3_mk_and args
  | op.OR => make_walk_nary Z3_mk_or args
  | op.NOT => walk_not args
  | op.IMPLIES => make_walk_binary Z3_mk_implies args
  | op.IFF => make_walk_binary Z3_mk_eq args
  | op.SYMBOL => walk_symbol formula
  | op.FUNCTION => walk_function formula args
  | op.REAL_CONSTANT => walk_real_constant formula
  | op.BOOL_CONSTANT => walk_bool_constant formula
  | op.INT_CONSTANT => walk_int_constant formula
  | op.PLUS => make_walk_nary Z3_mk_add args
  | op.MINUS => make_walk_nary Z3_mk_sub args
  | op.TIMES => make_walk_nary Z3_mk_mul args
  | op.LE => make_walk_binary Z3_mk_le args
  | op.LT => make_walk_binary Z3_mk_lt args
  | op.EQUALS => make_walk_binary Z3_mk_eq args
  | op.ITE => walk_ite formula args
  | op.TOREAL => walk_toreal args
  | op.BV_CONSTANT => walk_bv_constant formula
  | op.BV_NOT => walk_unary Z3_mk_bvnot args
  | op.BV_NEG => walk_unary Z3_mk_bvneg args
  | op.BV_AND => make_walk_binary Z3_mk_bvand args
  | op.BV_OR => make_walk_binary Z3_mk_bvor args
  | op.BV_XOR => make_walk_binary Z3_mk_bvxor args
  | op.BV_CONCAT => make_walk_binary Z3_mk_concat args
  | op.BV_EXTRACT => walk_bv_extract formula args
  | op.BV_ULT => make_walk_binary Z3_mk_bvult args
  | op.BV_ULE => make_walk_binary Z3_mk_bvule args
  | op.BV_ADD => make_walk_binary Z3_mk_bvadd args
  | op.BV_SUB => make_walk_binary Z3_mk_bvsub args
  | op.BV_MUL => make_walk_binary Z3_mk_bvmul args
  | op.BV_UDIV => make_walk_binary Z3_mk_bvudiv args
  | op.BV_UREM => make_walk_binary Z3_mk_bvurem args
  | op.BV_LSHL => make_walk_binary Z3_mk_bvshl args
  | op.BV_LSHR => make_walk_binary Z3_mk_bvlshr args
  | op.BV_ROL => walk_bv_rol formula args
  | op.BV_ROR => walk_bv_ror formula args
  | op.BV_ZEXT => walk_bv_zext formula args
  | op.BV_SEXT => walk_bv_sext formula args
  | op.BV_SLT => make_walk_binary Z3_mk_bvslt args
  | op.BV_SLE => make_walk_binary Z3_mk_bvsle args
  | op.BV_COMP => walk_bv_comp args
  | op.BV_SDIV => make_walk_binary Z3_mk_bvsdiv args
  | op.BV_SREM => make_walk_binary Z3_mk_bvsrem args
  | op.BV_ASHR => make_walk_binary Z3_mk_bvashr args
  | op.ARRAY_SELECT => walk_array_select args
  | op.ARRAY_STORE => walk_array_store args
  | op.ARRAY_VALUE => walk_array_value formula args
  | op.DIV => make_walk_binary Z3_mk_div args
  | op.POW => make_walk_binary Z3_mk_power args
  | op.BV_TONATURAL => walk_unary Z3_mk_bv2int args
  | op.STR_CONSTANT | op.ALGEBRAIC_CONSTANT
  | op.STR_LENGTH | op.STR_CONCAT | op.STR_CONTAINS | op.STR_INDEXOF
  | op.STR_REPLACE | op.STR_SUBSTR | op.STR_PREFIXOF | op.STR_SUFFIXOF
  | op.STR_TO_INT | op.INT_TO_STR | op.STR_CHARAT =>
      Raise (ConvertExpressionError "Unsupported operator"
               (FormulaObject formula))
  end.

(** [DagWalker.walk]: the children first, then the node.  Modelled from
    the spec ("post-order DAG evaluator that lowers one formula node at a
    time"); the walker's own memo table shares the work on a subterm that
    occurs twice and returns what this function computes. *)
Fixpoint walk (formula : FNode) : result Z3_ast :=
  match formula with
  | mkFNode _ xs _ =>
      args ← (fix walk_all (l : list FNode) : result (list Z3_ast) :=
                match l with
                | [] => Ok []
                | x :: l' => a ← walk x; r ← walk_all l'; Ok (a :: r)
                end) xs;
      walk_node formula args
  end.

(** [convert]: the term of the walk, wrapped in the class that
    [get_z3_ref] picks.  The value here is the term of the object; its
    class is [get_z3_ref formula].  What the solver does with the object
    (asserting it, checking under it, evaluating it, handing it to a
    tactic) reads the term only. *)
Definition convert (formula : FNode) : result Z3_ast :=
  z3term ← walk formula;
  ref_class ← get_z3_ref formula;
  Ok z3term.

(** The class z3py itself gives the object of a term ([_to_expr_ref]):
    by the kind of the term and of its sort.  Such are the objects that
    the engine returns and the children that an object lists, which
    [back] and [_back_single_term] read. *)
Definition expr_class (t : Z3_ast) : Z3RefClass :=
  match t with
  | Z3_quantifier _ _ _ => QuantifierRef
  | Z3_func_decl_ast _ => FuncDeclRef
  | _ =>
      match Z3_get_sort t with
      | BoolSort => BoolRef
      | IntSort => if is_int_value t then IntNumRef else ArithRef
      | RealSort =>
          if is_rational_value t then RatNumRef
          else if is_algebraic_value t then AlgebraicNumRef
          else ArithRef
      | BitVecSort _ => if is_bv_value t then BitVecNumRef else BitVecRef
      | ArraySort _ _ => ArrayRef
      | DeclareSort _ | OtherSort _ => ExprRef
      end
  end.

(** The object [convert] returns for the formula is of the class z3py
    itself gives its term: it is then an object such as [back] reads. *)
Definition class_kept (f : FNode) : bool :=
  match walk f, get_z3_ref f with
  | Ok t, Ok c => bool_decide (c = expr_class t)
  | _, _ => false
  end.

End Forward.

(** ** [Z3Converter]: backward conversion *)

(** [_z3_to_type] *)
Fixpoint _z3_to_type (sort : Z3Sort) : result PySMTType :=
  match sort with
  | BoolSort => Ok BOOL
  | IntSort => Ok INT
  | RealSort => Ok REAL
  | ArraySort d r =>
      i ← _z3_to_type d;
      e ← _z3_to_type r;
      Ok (ArrayType i e)
  | BitVecSort w => Ok (BVType w)
  | DeclareSort name => Ok (Type_ name)
  | OtherSort _ =>
      Raise (NotImplementedError "Unsupported sort in conversion: %s")
  end.

(** A function's interpretation in a model ([FuncInterp]): the entries
    (argument values and value) and the value elsewhere. *)
Record FuncInterp := mk_interp {
  entries : list (list Z3_ast * Z3_ast);
  else_value : Z3_ast
}.

#[global] Instance FuncInterp_eq_dec : EqDecision FuncInterp.
Proof. solve_decision. Defined.

(** A [ModelRef] object.  Python compares models by identity:
    [model_id] tells two objects with the same contents apart. *)
Record ModelRef := mk_model {
  model_id : nat;
  interps : list (string * FuncInterp)
}.

#[global] Instance ModelRef_eq_dec : EqDecision ModelRef.
Proof. solve_decision. Defined.

(** [model[decl]] *)
Definition model_getitem (m : ModelRef) (f : string) : option FuncInterp :=
  dict_get f (interps m).

(** The key of the memo table: [(askey(expr), model)]. *)
Definition BackKey : Type := Z3_ast * option ModelRef.

(** One completed call of [_back_single_term]: the key, the arguments it
    was given and the node it returned. *)
Record BackEvent := mk_event {
  ev_key : BackKey;
  ev_args : list FNode;
  ev_result : FNode
}.

(** The converter object.  [_back_memoization] maps a key to [None] while
    the term is being converted and to the node afterwards.  [computed]
    is instrumentation and no field of the Python object: the log of the
    completed calls of [_back_single_term], the latest first. *)
Record Z3Converter := mk_converter {
  mgr : FormulaManager.t;
  _back_memoization : dict BackKey (option FNode);
  computed : list BackEvent
}.

Definition new_converter (m : FormulaManager.t) : Z3Converter :=
  mk_converter m [] [].

Definition with_mgr (f : FormulaManager.t -> FormulaManager.t)
    (self : Z3Converter) : Z3Converter :=
  mk_converter (f (mgr self)) (_back_memoization self) (computed self).

Definition memo_set (key : BackKey) (v : option FNode)
    (self : Z3Converter) : Z3Converter :=
  mk_converter (mgr self) (dict_set key v (_back_memoization self))
    (computed self).

Definition log_event (e : BackEvent) (self : Z3Converter) : Z3Converter :=
  mk_converter (mgr self) (_back_memoization self) (e :: computed self).

(** A method of the formula manager, called through [self.mgr]. *)
Definition on_mgr {A} (m : Method FormulaManager.t A)
    : Method Z3Converter A := fun self =>
  match m (mgr self) with
  | (r, mgr') => (r, with_mgr (fun _ => mgr') self)
  end.

(** [self._back_memoization[(askey(c), model)]] as an argument of
    [_back_single_term]. *)
Definition memo_arg (model : option ModelRef) (self : Z3Converter)
    (c : Z3_ast) : result FNode :=
  match dict_get (c, model) (_back_memoization self) with
  | None => Raise KeyError
  | Some None => Raise NoneArgument
  | Some (Some f) => Ok f
  end.

Definition bv_unsigned_value (f : FNode) : result Z :=
  match payload f with
  | BVConstPayload v _ => Ok v
  | _ => Raise (AssertionError "")
  end.

Section Backward.
Context `{TypeOracle}.

Import FormulaManager.

Definition back1 (mk : FNode -> FNode) (args : list FNode)
    : result FNode :=
  a ← item args 0; Ok (mk a).
Definition back2 (mk : FNode -> FNode -> FNode) (args : list FNode)
    : result FNode :=
  a ← item args 0; b ← item args 1; Ok (mk a b).
Definition back3 (mk : FNode -> FNode -> FNode -> FNode)
    (args : list FNode) : result FNode :=
  a ← item args 0; b ← item args 1; c ← item args 2; Ok (mk a b c).
Definition back_param1 (mk : FNode -> Z -> FNode) (args : list FNode)
    (expr : Z3_ast) : result FNode :=
  a ← item args 0; p ← from_z3 (get_payload expr 0); Ok (mk a p).

Definition _back_z3_eq (args : list FNode) (expr : Z3_ast)
    : result FNode :=
  a ← item args 0;
  if is_bool_type (get_type a) then
    b ← item args 1; Ok (Iff a b)
  else
    b ← item args 1; Ok (Equals a b).

Definition _back_z3_uminus (args : list FNode) (expr : Z3_ast)
    : result FNode :=
  a ← item args 0;
  let tp := get_type a in
  minus_one ←
    (if is_real_type tp then Ok (Real (-1) 1)
     else if is_int_type tp then Ok (Int (-1))
     else Raise (AssertionError ""));
  Times [a; minus_one].

Definition _back_z3_const_array (args : list FNode) (expr : Z3_ast)
    : result FNode :=
  arr_ty ← _z3_to_type (Z3_get_sort expr);
  match arr_ty with
  | ArrayType index_type _ =>
      a ← item args 0; Ok (Array index_type a [])
  | _ => Raise (AttributeError "index_type")
  end.

(** The table [_back_fun]: the reconstruction rule of a declaration kind,
    [None] for a kind that is no key of the table. *)
Definition _back_fun (kind : Z3_decl_kind)
    : option (list FNode -> Z3_ast -> result FNode) :=
  match kind with
  | Z3_OP_AND => Some (fun args _ => Ok (And args))
  | Z3_OP_OR => Some (fun args _ => Ok (Or args))
  | Z3_OP_MUL => Some (fun args _ => Times args)
  | Z3_OP_ADD => Some (fun args _ => Plus args)
  | Z3_OP_DIV => Some (fun args _ => back2 Div args)
  | Z3_OP_IFF => Some (fun args _ => back2 Iff args)
  | Z3_OP_XOR => Some (fun args _ => back2 Xor args)
  | Z3_OP_FALSE => Some (fun _ _ => Ok FALSE)
  | Z3_OP_TRUE => Some (fun _ _ => Ok TRUE)
  | Z3_OP_GT => Some (fun args _ => back2 GT args)
  | Z3_OP_GE => Some (fun args _ => back2 GE args)
  | Z3_OP_LT => Some (fun args _ => back2 LT args)
  | Z3_OP_LE => Some (fun args _ => back2 LE args)
  | Z3_OP_SUB => Some (fun args _ => back2 Minus args)
  | Z3_OP_NOT => Some (fun args _ => back1 Not args)
  | Z3_OP_IMPLIES => Some (fun args _ => back2 Implies args)
  | Z3_OP_ITE => Some (fun args _ => back3 Ite args)
  | Z3_OP_TO_REAL => Some (fun args _ => back1 ToReal args)
  | Z3_OP_BAND => Some (fun args _ => back2 BVAnd args)
  | Z3_OP_BOR => Some (fun args _ => back2 BVOr args)
  | Z3_OP_BXOR => Some (fun args _ => back2 BVXor args)
  | Z3_OP_BNOT => Some (fun args _ => back1 BVNot args)
  | Z3_OP_BNEG => Some (fun args _ => back1 BVNeg args)
  | Z3_OP_CONCAT => Some (fun args _ => back2 BVConcat args)
  | Z3_OP_ULT => Some (fun args _ => back2 BVULT args)
  | Z3_OP_ULEQ => Some (fun args _ => back2 BVULE args)
  | Z3_OP_SLT => Some (fun args _ => back2 BVSLT args)
  | Z3_OP_SLEQ => Some (fun args _ => back2 BVSLE args)
  | Z3_OP_UGT => Some (fun args _ => back2 BVUGT args)
  | Z3_OP_UGEQ => Some (fun args _ => back2 BVUGE args)
  | Z3_OP_SGT => Some (fun args _ => back2 BVSGT args)
  | Z3_OP_SGEQ => Some (fun args _ => back2 BVSGE args)
  | Z3_OP_BADD => Some (fun args _ => back2 BVAdd args)
  | Z3_OP_BMUL => Some (fun args _ => back2 BVMul args)
  | Z3_OP_BUDIV => Some (fun args _ => back2 BVUDiv args)
  | Z3_OP_BSDIV => Some (fun args _ => back2 BVSDiv args)
  | Z3_OP_BUREM => Some (fun args _ => back2 BVURem args)
  | Z3_OP_BSREM => Some (fun args _ => back2 BVSRem args)
  | Z3_OP_BSHL => Some (fun args _ => back2 BVLShl args)
  | Z3_OP_BLSHR => Some (fun args _ => back2 BVLShr args)
  | Z3_OP_BASHR => Some (fun args _ => back2 BVAShr args)
  | Z3_OP_BSUB => Some (fun args _ => back2 BVSub args)
  | Z3_OP_EXT_ROTATE_LEFT =>
      Some (fun args _ =>
              a ← item args 0; b ← item args 1;
              n ← bv_unsigned_value b; Ok (BVRol a n))
  | Z3_OP_EXT_ROTATE_RIGHT =>
      Some (fun args _ =>
              a ← item args 0; b ← item args 1;
              n ← bv_unsigned_value b; Ok (BVRor a n))
  | Z3_OP_BV2INT => Some (fun args _ => back1 BVToNatural args)
  | Z3_OP_POWER => Some (fun args _ => back2 Pow args)
  | Z3_OP_SELECT => Some (fun args _ => back2 Select args)
  | Z3_OP_STORE => Some (fun args _ => back3 Store args)
  (* Actually use both args, expr *)
  | Z3_OP_SIGN_EXT => Some (back_param1 BVSExt)
  | Z3_OP_ZERO_EXT => Some (back_param1 BVZExt)
  | Z3_OP_ROTATE_LEFT => Some (back_param1 BVRol)
  | Z3_OP_ROTATE_RIGHT => Some (back_param1 BVRor)
  | Z3_OP_EXTRACT =>
      Some (fun args expr =>
              a ← item args 0;
              p1 ← from_z3 (get_payload expr 1);
              p0 ← from_z3 (get_payload expr 0);
              Ok (BVExtract a p1 p0))
  (* Complex Back Translation *)
  | Z3_OP_EQ => Some _back_z3_eq
  | Z3_OP_UMINUS => Some _back_z3_uminus
  | Z3_OP_CONST_ARRAY => Some _back_z3_const_array
  | _ => None
  end.

(** The assertion on the number of arguments at the head of
    [_back_single_term]. *)
Definition nary_ok (expr : Z3_ast) (args : list FNode) : bool :=
  negb (bool_decide (2 < length args)%nat)
  || (is_and expr || is_or expr || is_add expr || is_mul expr
      || (bool_decide (length args = 3%nat)
          && (is_ite expr || is_array_store expr))).

(** The recursive call [self.back(expr, model=model)]. *)
Definition BackRec : Type :=
  Z3_ast -> option ModelRef -> Method Z3Converter FNode.

Local Open Scope method_scope.

(** The loop over the entries of an as-array interpretation. *)
Fixpoint back_entries (back : BackRec) (model : ModelRef)
    (es : list (list Z3_ast * Z3_ast)) (assign : dict FNode FNode)
    : Method Z3Converter (dict FNode FNode) :=
  match es with
  | [] => ret assign
  | (arg_values, value) :: es' =>
      match arg_values with
      | [arg_value] =>
          idx <~ back arg_value (Some model) ;;
          val <~ back value (Some model) ;;
          back_entries back model es' (dict_set idx val assign)
      | _ => raise (AssertionError "")
      end
  end.

Definition back_as_array (back : BackRec) (expr : Z3_ast)
    (model : option ModelRef) : Method Z3Converter FNode :=
  match model with
  | None =>
      raise (NotImplementedError
        "As-array expressions cannot be handled as they are not self-contained")
  | Some model =>
      interp_decl <~ lift (from_z3 (get_as_array_func expr)) ;;
      match model_getitem model interp_decl with
      | None => raise (AttributeError "else_value")
      | Some interp =>
          default <~ back (else_value interp) (Some model) ;;
          assign <~ back_entries back model (entries interp) [] ;;
          arr_type <~ lift (_z3_to_type (Z3_get_sort expr)) ;;
          match arr_type with
          | ArrayType index_type _ => ret (Array index_type default assign)
          | _ => raise (AttributeError "index_type")
          end
      end
  end.

(** The fallback for a constant that is none of the literals: "it must
    be a symbol". *)
Definition back_symbol (expr : Z3_ast) : Method Z3Converter FNode :=
  fun self =>
    match on_mgr (get_symbol (expr_name expr)) self with
    | (Raise (UndefinedSymbolError _), self') =>
        (symb_type <~ lift (_z3_to_type (Z3_get_sort expr)) ;;
         on_mgr (Symbol (expr_name expr) symb_type)) self'
    | r => r
    end.

Definition _back_single_term (back : BackRec) (expr : Z3_ast)
    (args : list FNode) (model : option ModelRef)
    : Method Z3Converter FNode :=
  if negb (is_expr expr) then raise (AssertionError "")
  else if is_quantifier expr then
    raise (NotImplementedError
             "Quantified back conversion is currently not supported")
  else if negb (nary_ok expr args) then
    raise (AssertionError "Unexpected n-ary term: %s")
  else
    match Z3_get_app_decl_kind expr with
    | None => raise (Z3Exception "invalid argument")
    | Some kind =>
        match _back_fun kind with
        | Some fun_ => lift (fun_ args expr)
        | None =>
            if is_const expr then
              (* Const or Symbol *)
              match expr with
              | Z3_arith_numeral n d RealSort => ret (Real n d)
              | Z3_arith_numeral n _ IntSort => ret (Int n)
              | Z3_bv_numeral n w => ret (BV n w)
              | _ =>
                  if is_as_array expr then back_as_array back expr model
                  else if is_algebraic_value expr then
                    ret (_Algebraic (expr_name expr))
                  else back_symbol expr
              end
            else if is_function expr then
              (* This needs to be after we try to convert regular Symbols *)
              fsymbol <~ on_mgr (get_symbol (expr_name expr)) ;;
              ret (Function fsymbol args)
            else
              raise (ConvertExpressionError "Unsupported expression: %s"
                       (NativeObject expr))
        end
    end.

(** The loop of [back].  The Python list [stack] grows and shrinks at its
    end, which is the head of the list here.  Each iteration uses one
    unit of [fuel]; the calls of [back] inside [_back_single_term] run on
    what is left. *)
Fixpoint back_loop (fuel : nat) (model : option ModelRef)
    (stack : list Z3_ast) : Method Z3Converter unit :=
  match fuel with
  | O => raise IterationBound
  | S fuel' =>
      match stack with
      | [] => ret tt
      | current :: stack' => fun self =>
          let key := (current, model) in
          match dict_get key (_back_memoization self) with
          | None =>
              back_loop fuel' model
                (rev (children current) ++ current :: stack')
                (memo_set key None self)
          | Some None =>
              match mapM (memo_arg model self) (children current) with
              | Raise e => (Raise e, self)
              | Ok args =>
                  let back_rec : BackRec := fun e m =>
                    back_loop fuel' m [e] ;;;
                    (fun self' => (memo_arg m self' e, self')) in
                  match _back_single_term back_rec current args model self
                  with
                  | (Raise e, self') => (Raise e, self')
                  | (Ok res, self') =>
                      back_loop fuel' model stack'
                        (log_event (mk_event key args res)
                           (memo_set key (Some res) self'))
                  end
              end
          | Some (Some _) =>
              (* we already visited the node, nothing else to do *)
              back_loop fuel' model stack' self
          end
      end
  end.

(** [back(expr, model=None)] *)
Definition back (fuel : nat) (expr : Z3_ast) (model : option ModelRef)
    : Method Z3Converter FNode :=
  back_loop fuel model [expr] ;;;
  (fun self => (memo_arg model self expr, self)).

End Backward.

(** ** The engine: a [z3.Solver] object and its black boxes *)

Inductive CheckSatResult := sat | unsat | unknown.

(** An assertion of the engine: [add(term)] or
    [assert_and_track(term, indicator)]. *)
Inductive Z3_assertion :=
| Added (term : Z3_ast)
| TrackedBy (term indicator : Z3_ast).

Inductive ParamValue :=
| BoolParam (b : bool)
| IntParam (z : Z)
| StrParam (s : string).

(** The state of a [z3.Solver]: the assertions of the current scope, the
    scopes below it (the innermost first), the parameters set, the
    assumptions of the last [check], and how many [ModelRef] objects it
    has handed out. *)
Record Z3SolverRef := mk_z3 {
  current_scope : list Z3_assertion;
  outer_scopes : list (list Z3_assertion);
  parameters : list (string * ParamValue);
  last_check : option (list Z3_ast);
  models_made : nat
}.

Definition new_z3 : Z3SolverRef := mk_z3 [] [] [] None 0.

(** What the embedding does not compute: the engine's answers. *)
Class Z3Engine := {
  (** the answer of [Solver.check] for the assertions in scope, the
      parameters set and the given assumptions *)
  z3_check : list (list Z3_assertion) -> list (string * ParamValue) ->
             list Z3_ast -> CheckSatResult;
  (** [Solver.unsat_core()] *)
  z3_unsat_core : Z3SolverRef -> list Z3_ast;
  (** the interpretations of [Solver.model()], if there is a model *)
  z3_model : Z3SolverRef -> option (list (string * FuncInterp));
  (** [ModelRef.eval(term, model_completion)] *)
  z3_eval : ModelRef -> Z3_ast -> bool -> Z3_ast;
  (** whether [Solver.set(name, value)] accepts the parameter *)
  z3_accepts : string -> ParamValue -> bool;
  (** [Tactic(name)(term).as_expr()] *)
  z3_tactic : string -> Z3_ast -> result Z3_ast
}.

Definition z3_push : Method Z3SolverRef unit := fun z =>
  (Ok tt, mk_z3 [] (current_scope z :: outer_scopes z) (parameters z)
            (last_check z) (models_made z)).

Definition z3_pop : Method Z3SolverRef unit := fun z =>
  match outer_scopes z with
  | [] => (Raise (Z3Exception "index out of bounds"), z)
  | scope :: below =>
      (Ok tt, mk_z3 scope below (parameters z) (last_check z)
                (models_made z))
  end.

Definition z3_assert (a : Z3_assertion) : Method Z3SolverRef unit :=
  fun z =>
    (Ok tt, mk_z3 (current_scope z ++ [a]) (outer_scopes z) (parameters z)
              (last_check z) (models_made z)).

Definition z3_add (term : Z3_ast) := z3_assert (Added term).
Definition z3_assert_and_track (term indicator : Z3_ast) :=
  z3_assert (TrackedBy term indicator).

Definition z3_reset : Method Z3SolverRef unit := fun z =>
  (Ok tt, mk_z3 [] [] (parameters z) None (models_made z)).

(** The scoped assertion stack of the engine, the innermost scope first. *)
Definition assertion_stack (z : Z3SolverRef) : list (list Z3_assertion) :=
  current_scope z :: outer_scopes z.

Section Engine.
Context `{Z3Engine}.

Definition z3_set (name : string) (value : ParamValue)
    : Method Z3SolverRef unit := fun z =>
  if z3_accepts name value then
    (Ok tt, mk_z3 (current_scope z) (outer_scopes z)
              (parameters z ++ [(name, value)]) (last_check z)
              (models_made z))
  else (Raise (Z3Exception "unknown parameter"), z).

Definition z3_check_ (assumptions : list Z3_ast)
    : Method Z3SolverRef CheckSatResult := fun z =>
  (Ok (z3_check (assertion_stack z) (parameters z) assumptions),
   mk_z3 (current_scope z) (outer_scopes z) (parameters z)
     (Some assumptions) (models_made z)).

(** [Solver.model()]: a new [ModelRef] object each time. *)
Definition z3_model_ : Method Z3SolverRef ModelRef := fun z =>
  match z3_model z with
  | None => (Raise (Z3Exception "model is not available"), z)
  | Some interps =>
      (Ok (mk_model (models_made z) interps),
       mk_z3 (current_scope z) (outer_scopes z) (parameters z)
         (last_check z) (S (models_made z)))
  end.

End Engine.

(** ** [Z3Options] *)

Record Z3Options := mk_options {
  generate_models : bool;
  unsat_cores_mode : option string;
  random_seed : option Z;
  solver_options : list (string * ParamValue)
}.

Section Options.
Context `{Z3Engine}.
Local Open Scope method_scope.

Definition _set_option (name : string) (value : ParamValue)
    : Method Z3SolverRef unit := fun z =>
  match z3_set name value z with
  | (Raise (Z3Exception _), z') =>
      (Raise (PysmtValueError "Error setting the option '%s=%s'"), z')
  | r => r
  end.

(** [Z3Options.__call__] *)
Definition apply_options (o : Z3Options) : Method Z3SolverRef unit :=
  _set_option "model" (BoolParam (generate_models o)) ;;;
  (match unsat_cores_mode o with
   | Some _ => _set_option "unsat_core" (BoolParam true)
   | None => ret tt
   end) ;;;
  (match random_seed o with
   | Some seed => _set_option "random_seed" (IntParam seed)
   | None => ret tt
   end) ;;;
  for_each (solver_options o) (fun kv => _set_option (fst kv) (snd kv)).

End Options.

(** ** [Z3Solver]: the incremental session *)

(** What [_add_assertion] returns: the formula, or the triple of the
    indicator, the name and the formula of a tracked assertion. *)
Inductive TrackedAssertion :=
| Untracked (formula : FNode)
| Named (key : FNode) (named : option string) (formula : FNode).

(** The outcome of the last [solve]: [True], [False], or the text
    "unknown"; [None] before the first one. *)
Inductive LastResult := ResultTrue | ResultFalse | ResultUnknown.

#[global] Instance LastResult_eq_dec : EqDecision LastResult.
Proof. solve_decision. Defined.

Record Z3Solver := mk_solver {
  z3 : Z3SolverRef;
  options : Z3Options;
  converter : Z3Converter;
  pending_pop : bool;
  named_assertions : list (FNode * option string * FNode);
  last_result : option LastResult;
  last_command : option string
}.

(** The order in which Python iterates over a set of formulas is not
    specified: any duplicate-free enumeration of the members. *)
Class SetOrder := {
  set_iter : list FNode -> list FNode;
  set_iter_NoDup : forall l, NoDup (set_iter l);
  set_iter_elem_of : forall l x, x ∈ set_iter l <-> x ∈ l
}.

(** [FNode.simplify] *)
Class Simplifier := { simplify : FNode -> FNode }.

Definition on_z3 {A} (m : Method Z3SolverRef A) : Method Z3Solver A :=
  fun self =>
    match m (z3 self) with
    | (r, z') =>
        (r, mk_solver z' (options self) (converter self) (pending_pop self)
              (named_assertions self) (last_result self)
              (last_command self))
    end.

Definition on_converter {A} (m : Method Z3Converter A)
    : Method Z3Solver A := fun self =>
  match m (converter self) with
  | (r, c') =>
      (r, mk_solver (z3 self) (options self) c' (pending_pop self)
            (named_assertions self) (last_result self) (last_command self))
  end.

Definition set_pending_pop (b : bool) : Method Z3Solver unit :=
  modify (fun self =>
    mk_solver (z3 self) (options self) (converter self) b
      (named_assertions self) (last_result self) (last_command self)).

Definition set_last_command (c : string) : Method Z3Solver unit :=
  modify (fun self =>
    mk_solver (z3 self) (options self) (converter self) (pending_pop self)
      (named_assertions self) (last_result self) (Some c)).

Definition set_last_result (r : option LastResult) : Method Z3Solver unit :=
  modify (fun self =>
    mk_solver (z3 self) (options self) (converter self) (pending_pop self)
      (named_assertions self) r (last_command self)).

Definition record_named (t : FNode * option string * FNode)
    : Method Z3Solver unit :=
  modify (fun self =>
    mk_solver (z3 self) (options self) (converter self) (pending_pop self)
      (named_assertions self ++ [t]) (last_result self)
      (last_command self)).

Section Solver.
Context `{TypeOracle} `{Z3Engine} `{SetOrder} `{Simplifier}.
Local Open Scope method_scope.

(** The body of [_pop]: [for _ in xrange(levels): self.z3.pop()]. *)
Definition _pop_body (levels : nat) : Method Z3Solver unit :=
  for_each (seq 0 levels) (fun _ => on_z3 z3_pop).

(** The body of [_push]. *)
Definition _push_body (levels : nat) : Method Z3Solver unit :=
  for_each (seq 0 levels) (fun _ => on_z3 z3_push).

(** The decorator [clear_pending_pop].  Modelled from the spec: a
    deferred pop is "discharged before the next mutating call"; every
    decorated method "always discharges any pending deferred pop first".
    The discharge clears the mark and calls [self.pop()], whose own
    decorated [_pop] then finds the mark cleared and pops one scope. *)
Definition clear_pending_pop {A} (f : Method Z3Solver A)
    : Method Z3Solver A := fun self =>
  if pending_pop self then
    (set_pending_pop false ;;;
     _pop_body 1 ;;;
     set_last_command "pop" ;;;
     f) self
  else f self.

Definition _pop (levels : nat) := clear_pending_pop (_pop_body levels).
Definition _push (levels : nat) := clear_pending_pop (_push_body levels).

(** The public [push] and [pop] of the session.  Modelled from the spec:
    "adjusts the scope depth by exactly n"; they are mutating commands. *)
Definition push (levels : nat) : Method Z3Solver unit :=
  _push levels ;;; set_last_command "push".
Definition pop (levels : nat) : Method Z3Solver unit :=
  _pop levels ;;; set_last_command "pop".

Definition _reset_assertions : Method Z3Solver unit :=
  clear_pending_pop
    (on_z3 z3_reset ;;;
     fun self => on_z3 (apply_options (options self)) self).

Definition declare_variable (var : FNode) : Method Z3Solver unit :=
  clear_pending_pop (raise (NotImplementedError "")).

Definition all_sat : Method Z3Solver unit :=
  clear_pending_pop (raise (NotImplementedError "")).

(** [_assert_is_boolean].  Modelled from the spec: "requires f is
    Boolean-typed". *)
Definition _assert_is_boolean (formula : FNode) : Method Z3Solver unit :=
  if is_bool_type (get_type formula) then ret tt
  else raise (PysmtTypeError "Argument of boolean type required").

Definition _add_assertion (formula : FNode) (named : option string)
    : Method Z3Solver TrackedAssertion :=
  clear_pending_pop
    (_assert_is_boolean formula ;;;
     term <~ lift (convert formula) ;;
     fun self =>
       match named, unsat_cores_mode (options self) with
       | Some _, Some _ =>
           (* TODO: IF unsat_cores_mode is all, then we add this fresh
              variable.  Otherwise, we should track this only if it is
              named. *)
           (key <~ on_converter
                     (on_mgr (FormulaManager.FreshSymbol BOOL "_assertion_")) ;;
            tkey <~ lift (convert key) ;;
            on_z3 (z3_assert_and_track term tkey) ;;;
            ret (Named key named formula)) self
       | _, _ =>
           (on_z3 (z3_add term) ;;;
            ret (Untracked formula)) self
       end).

(** The public [add_assertion].  Modelled from the spec: the session
    "record[s] the (indicator, name, f) triple" of a tracked assertion;
    it is a mutating command. *)
Definition add_assertion (formula : FNode) (named : option string)
    : Method Z3Solver unit :=
  tracked <~ _add_assertion formula named ;;
  (match tracked with
   | Named key name f => record_named (key, name, f)
   | Untracked _ => ret tt
   end) ;;;
  set_last_command "assert".

(** The loop of [_solve] over the assumptions: the literals, converted,
    and the other formulas. *)
Fixpoint split_assumptions (assumptions : list FNode)
    (bool_ass : list Z3_ast) (other_ass : list FNode)
    : result (list Z3_ast * list FNode) :=
  match assumptions with
  | [] => Ok (bool_ass, other_ass)
  | x :: rest =>
      if is_literal x then
        t ← convert x;
        split_assumptions rest (bool_ass ++ [t]) other_ass
      else split_assumptions rest bool_ass (other_ass ++ [x])
  end.

(** [_solve] up to the engine's answer: [res = self.z3.check(...)]. *)
Definition _solve_check (assumptions : option (list FNode))
    : Method Z3Solver CheckSatResult :=
  match assumptions with
  | Some assumptions =>
      split <~ lift (split_assumptions assumptions [] []) ;;
      let bool_ass := fst split in
      let other_ass := snd split in
      (if bool_decide (0 < length other_ass)%nat then
         push 1 ;;;
         add_assertion (FormulaManager.And other_ass) None ;;;
         set_pending_pop true
       else ret tt) ;;;
      on_z3 (z3_check_ bool_ass)
  | None => on_z3 (z3_check_ [])
  end.

Definition _solve (assumptions : option (list FNode))
    : Method Z3Solver bool :=
  clear_pending_pop
    (res <~ _solve_check assumptions ;;
     match res with
     | unknown => raise SolverReturnedUnknownResultError
     | sat => ret true
     | unsat => ret false
     end).

(** The public [solve].  Modelled from the spec: the session "transitions
    to ResultSat/ResultUnsat", an "unknown" result is recorded as such and
    the error raised, and [solve] becomes the last command. *)
Definition solve (assumptions : option (list FNode))
    : Method Z3Solver bool := fun self =>
  match _solve assumptions self with
  | (Ok res, self') =>
      (set_last_result (Some (if res then ResultTrue else ResultFalse)) ;;;
       set_last_command "solve" ;;;
       ret res) self'
  | (Raise SolverReturnedUnknownResultError, self') =>
      (set_last_result (Some ResultUnknown) ;;;
       set_last_command "solve" ;;;
       raise SolverReturnedUnknownResultError) self'
  | (Raise e, self') =>
      (set_last_command "solve" ;;; raise e) self'
  end.

(** [_named_assertions_map] (when unsat cores are enabled). *)
Definition _named_assertions_map (self : Z3Solver)
    : dict FNode (option string * FNode) :=
  fold_left (fun d t => dict_set (fst (fst t)) (snd (fst t), snd t) d)
    (named_assertions self) [].

(** The loop of [get_named_unsat_core] over the core's indicators. *)
Fixpoint core_loop (n_ass_map : dict FNode (option string * FNode))
    (keys : list FNode) (cnt : nat) (res : gmap string FNode)
    : gmap string FNode :=
  match keys with
  | [] => res
  | key :: keys' =>
      match dict_get key n_ass_map with
      | Some (name, formula) =>
          match name with
          | None =>
              core_loop n_ass_map keys' (S cnt)
                (<[FormulaManager.format_d "_a_" cnt := formula]> res)
          | Some name =>
              core_loop n_ass_map keys' cnt (<[name := formula]> res)
          end
      | None => core_loop n_ass_map keys' cnt res
      end
  end.

(** [self.converter.back(t) for t in assumptions] *)
Fixpoint back_all (fuel : nat) (ts : list Z3_ast)
    : Method Z3Converter (list FNode) :=
  match ts with
  | [] => ret []
  | t :: ts' =>
      f <~ back fuel t None ;;
      fs <~ back_all fuel ts' ;;
      ret (f :: fs)
  end.

Definition get_named_unsat_core (fuel : nat)
    : Method Z3Solver (gmap string FNode) := fun self =>
  match unsat_cores_mode (options self) with
  | None => (Raise SolverNotConfiguredForUnsatCoresError, self)
  | Some _ =>
      if negb (bool_decide (last_result self = Some ResultFalse)) then
        (Raise (SolverStatusError
           "The last call to solve() was not unsatisfiable"), self)
      else if negb (bool_decide (last_command self = Some "solve")) then
        (Raise (SolverStatusError
           "The solver status has been modified by a '%s' command after the last call to solve()"),
         self)
      else
        let assumptions := z3_unsat_core (z3 self) in
        (backs <~ on_converter (back_all fuel assumptions) ;;
         let pysmt_assumptions := set_iter backs in
         fun self' =>
           (Ok (core_loop (_named_assertions_map self') pysmt_assumptions
                  0 ∅), self')) self
  end.

(** [get_unsat_core]: the values of the named core. *)
Definition get_unsat_core (fuel : nat) : Method Z3Solver (list FNode) :=
  core <~ get_named_unsat_core fuel ;;
  ret (snd <$> map_to_list core).

Definition get_value (fuel : nat) (item : FNode) : Method Z3Solver FNode :=
  titem <~ lift (convert item) ;;
  model <~ on_z3 z3_model_ ;;
  let z3_res := z3_eval model titem true in
  model' <~ on_z3 z3_model_ ;;
  res <~ on_converter (back fuel z3_res (Some model')) ;;
  if negb (is_constant res) then ret (simplify res)
  else ret res.

End Solver.

Section SolverInit.
Context `{Z3Engine}.

(** [Z3Solver.__init__]: a new engine with the options applied, a new
    converter over the environment's formula manager, nothing pending. *)
Definition Z3Solver_init (env_mgr : FormulaManager.t) (o : Z3Options)
    : result Z3Solver :=
  match apply_options o new_z3 with
  | (Ok _, z) =>
      Ok (mk_solver z o (new_converter env_mgr) false [] None None)
  | (Raise e, _) => Raise e
  end.

End SolverInit.

(** ** [Z3QuantifierEliminator] *)

(** The logic classification: [get_logic] and the order on logics, with
    the two logics the eliminator names. *)
Class LogicOracle := {
  Logic : Type;
  get_logic : FNode -> Logic;
  logic_le : Logic -> Logic -> bool;
  LRA : Logic;
  LIA : Logic
}.

Section QuantifierEliminator.
Context `{TypeOracle} `{Z3Engine} `{LogicOracle}.
Local Open Scope method_scope.

Definition lia_incomplete_message : string :=
  "Unable to representexpression %s in pySMT: the quantifier elimination for LIA is incomplete as it requires the modulus. You can find the Z3 expression representing the quantifier elimination as the attribute 'expression' of this exception object".

(** [eliminate_quantifiers]; the state is the eliminator's converter. *)
Definition eliminate_quantifiers (fuel : nat) (formula : FNode)
    : Method Z3Converter FNode :=
  let logic := get_logic formula in
  if negb (logic_le logic LRA) && negb (logic_le logic LIA) then
    raise (PysmtValueError
      "Z3 quantifier elimination only supports LRA or LIA without combination.(detected logic is: %s)")
  else
    f <~ lift (convert formula) ;;
    s <~ lift (z3_tactic "simplify" f) ;;
    res <~ lift (z3_tactic "qe" f) ;;
    fun self =>
      match back fuel res None self with
      | (Raise (ConvertExpressionError m e), self') =>
          if logic_le logic LRA then
            (Raise (ConvertExpressionError m e), self')
          else
            (Raise (ConvertExpressionError lia_incomplete_message
                      (NativeObject res)), self')
      | r => r
      end.

End QuantifierEliminator.

(** ** Sample collaborators

    Instances of the oracles, for running the definitions on concrete
    formulas. *)

(** A type oracle that reads the type off the node. *)
Fixpoint sample_type (f : FNode) : PySMTType :=
  match f with
  | mkFNode o xs p =>
      match o with
      | op.SYMBOL => match p with SymbolPayload _ t => t | _ => BOOL end
      | op.FUNCTION =>
          match p with
          | SymbolPayload _ (FunctionType r _) => r
          | _ => BOOL
          end
      | op.REAL_CONSTANT | op.TOREAL | op.ALGEBRAIC_CONSTANT => REAL
      | op.INT_CONSTANT | op.BV_TONATURAL | op.STR_LENGTH
      | op.STR_INDEXOF | op.STR_TO_INT => INT
      | op.STR_CONSTANT | op.STR_CONCAT | op.STR_REPLACE | op.STR_SUBSTR
      | op.INT_TO_STR | op.STR_CHARAT => STRING
      | op.PLUS | op.MINUS | op.TIMES | op.DIV | op.POW | op.ARRAY_STORE =>
          match xs with a :: _ => sample_type a | [] => INT end
      | op.ITE =>
          match xs with _ :: a :: _ => sample_type a | _ => BOOL end
      | op.ARRAY_SELECT =>
          match xs with
          | a :: _ =>
              match sample_type a with ArrayType _ e => e | t => t end
          | [] => BOOL
          end
      | op.ARRAY_VALUE =>
          match p, xs with
          | ArrayValuePayload i, d :: _ => ArrayType i (sample_type d)
          | _, _ => BOOL
          end
      | op.BV_CONSTANT | op.BV_NOT | op.BV_AND | op.BV_OR | op.BV_XOR
      | op.BV_CONCAT | op.BV_EXTRACT | op.BV_NEG | op.BV_ADD | op.BV_SUB
      | op.BV_MUL | op.BV_UDIV | op.BV_UREM | op.BV_LSHL | op.BV_LSHR
      | op.BV_ROL | op.BV_ROR | op.BV_ZEXT | op.BV_SEXT | op.BV_COMP
      | op.BV_SDIV | op.BV_SREM | op.BV_ASHR =>
          BVType (match p with
                  | BVConstPayload _ w | BVPayload w _ => w
                  | _ => 0%N
                  end)
      | _ => BOOL
      end
  end.

Definition sample_oracle : TypeOracle := {| get_type := sample_type |}.

(** Iteration over a set in the order of first occurrence. *)
Program Definition first_occurrence_order : SetOrder :=
  {| set_iter := remove_dups |}.
Next Obligation. intros l. apply NoDup_remove_dups. Qed.
Next Obligation. intros l x. apply elem_of_remove_dups. Qed.

Definition identity_simplifier : Simplifier := {| simplify := fun f => f |}.

(** An engine that gives the same answers whatever it is asked: the
    answer to [check], the core, a model with the given interpretations;
    evaluation and tactics return the term they are given, except that
    the tactic [qe] returns [qe_result] when there is one. *)
Definition constant_engine (answer : CheckSatResult) (core : list Z3_ast)
    (interps : list (string * FuncInterp)) (qe_result : option Z3_ast)
    : Z3Engine :=
  {| z3_check := fun _ _ _ => answer;
     z3_unsat_core := fun _ => core;
     z3_model := fun _ => Some interps;
     z3_eval := fun _ t _ => t;
     z3_accepts := fun _ _ => true;
     z3_tactic := fun name t =>
       match qe_result with
       | Some r => if String.eqb name "qe" then Ok r else Ok t
       | None => Ok t
       end |}.

(** A classification that puts a formula with an integer constant or
    symbol in LIA and any other formula in LRA. *)
Inductive SampleLogic := SampleLRA | SampleLIA | SampleOther.

Fixpoint mentions_int (f : FNode) : bool :=
  match f with
  | mkFNode o xs p =>
      match p with
      | IntPayload _ | SymbolPayload _ INT => true
      | _ => existsb mentions_int xs
      end
  end.

Definition sample_logics : LogicOracle :=
  {| Logic := SampleLogic;
     get_logic := fun f => if mentions_int f then SampleLIA else SampleLRA;
     logic_le := fun a b =>
       match a, b with
       | SampleLRA, SampleLRA | SampleLIA, SampleLIA => true
       | _, _ => false
       end;
     LRA := SampleLRA;
     LIA := SampleLIA |}.

(** ** The mutating commands of the session

    The methods the source decorates with [clear_pending_pop]. *)
Inductive Command :=
| Cmd_reset_assertions
| Cmd_declare_variable (var : FNode)
| Cmd_add_assertion (formula : FNode) (named : option string)
| Cmd_solve (assumptions : option (list FNode))
| Cmd_all_sat
| Cmd_push (levels : nat)
| Cmd_pop (levels : nat).

Section Commands.
Context `{TypeOracle} `{Z3Engine} `{SetOrder} `{Simplifier}.
Local Open Scope method_scope.

Definition forget {A} (m : Method Z3Solver A) : Method Z3Solver unit :=
  fun self => match m self with
              | (Ok _, s) => (Ok tt, s)
              | (Raise e, s) => (Raise e, s)
              end.

(** The call of a decorated method (its result dropped). *)
Definition run_command (c : Command) : Method Z3Solver unit :=
  match c with
  | Cmd_reset_assertions => _reset_assertions
  | Cmd_declare_variable v => declare_variable v
  | Cmd_add_assertion f n => forget (_add_assertion f n)
  | Cmd_solve a => forget (_solve a)
  | Cmd_all_sat => all_sat
  | Cmd_push n => _push n
  | Cmd_pop n => _pop n
  end.

End Commands.

(** The engine without the record of its last check. *)
Definition forget_check (z : Z3SolverRef) : Z3SolverRef :=
  mk_z3 (current_scope z) (outer_scopes z) (parameters z) None
    (models_made z).

(** What a mutating command neither reads nor is judged by: the
    assumptions of the engine's last check and the session's record of
    the last result and command. *)
Definition forget_status (self : Z3Solver) : Z3Solver :=
  mk_solver (forget_check (z3 self)) (options self) (converter self) (pending_pop self)
    (named_assertions self) None None.


(** The session with another status, and with another converter. *)
Definition with_status (r : option LastResult) (c : option string)
    (self : Z3Solver) : Z3Solver :=
  mk_solver (z3 self) (options self) (converter self) (pending_pop self)
    (named_assertions self) r c.

Definition with_converter (c : Z3Converter) (self : Z3Solver) : Z3Solver :=
  mk_solver (z3 self) (options self) c (pending_pop self)
    (named_assertions self) (last_result self) (last_command self).

(** The assignments [res[name] = formula] that the loop of
    [get_named_unsat_core] executes, in order: for each indicator of the
    core that has a recorded triple, the formula under the user's name,
    or under ["_a_<cnt>"] with the counter's current value when the
    triple has no name. *)
Fixpoint core_assignments (n_ass_map : dict FNode (option string * FNode))
    (keys : list FNode) (cnt : nat) : list (string * FNode) :=
  match keys with
  | [] => []
  | key :: keys' =>
      match dict_get key n_ass_map with
      | Some (None, formula) =>
          (FormulaManager.format_d "_a_" cnt, formula)
          :: core_assignments n_ass_map keys' (S cnt)
      | Some (Some name, formula) =>
          (name, formula) :: core_assignments n_ass_map keys' cnt
      | None => core_assignments n_ass_map keys' cnt
      end
  end.

(** An indicator whose recorded triple has no user-supplied name. *)
Definition is_unnamed (n_ass_map : dict FNode (option string * FNode))
    (key : FNode) : bool :=
  match dict_get key n_ass_map with
  | Some (None, _) => true
  | _ => false
  end.

(** ** Notions for the memo table of [back] *)

(** The number of nodes of a term (as a tree). *)
Fixpoint ast_size (t : Z3_ast) : nat :=
  match t with
  | Z3_app _ xs => S (foldr (fun x n => ast_size x + n)%nat 0%nat xs)
  | Z3_quantifier _ _ b => S (ast_size b)
  | _ => 1%nat
  end.

(** A model is well founded when its functions can be ranked so that the
    interpretation of a function mentions, through as-array terms, only
    functions of lower rank.  The rank of a term is one more than the
    highest rank of a function it mentions so, and zero when it mentions
    none. *)
Definition decl_array_rank (rk : string -> nat) (d : Z3_func_decl) : nat :=
  if decide (decl_kind d = Z3_OP_AS_ARRAY) then
    match decl_parameters d with
    | Z3_PARAMETER_FUNC_DECL f :: _ => S (rk f)
    | _ => 0%nat
    end
  else 0%nat.

Fixpoint array_rank (rk : string -> nat) (t : Z3_ast) : nat :=
  match t with
  | Z3_app d xs =>
      Nat.max (decl_array_rank rk d)
        (foldr (fun x n => Nat.max (array_rank rk x) n) 0%nat xs)
  | Z3_quantifier _ _ b => array_rank rk b
  | _ => 0%nat
  end.

(** The terms of an interpretation: the value elsewhere, and the argument
    values and the value of each entry. *)
Definition interp_terms (i : FuncInterp) : list Z3_ast :=
  else_value i :: flat_map (fun e => fst e ++ [snd e])%list (entries i).

Definition stratified (rk : string -> nat) (m : ModelRef) : Prop :=
  forall f interp, model_getitem m f = Some interp ->
  forall t, t ∈ interp_terms interp -> (array_rank rk t <= rk f)%nat.

Definition model_stratified (rk : string -> nat) (model : option ModelRef)
    : Prop :=
  match model with
  | Some m => stratified rk m
  | None => True
  end.

(** The entry of a key: the node it is resolved to, or pending. *)
Definition resolved (self : Z3Converter) (k : BackKey) (f : FNode) : Prop :=
  dict_get k (_back_memoization self) = Some (Some f).

Definition pending (self : Z3Converter) (k : BackKey) : Prop :=
  dict_get k (_back_memoization self) = Some None.

(** The log agrees with the table: no key is logged twice, and every
    logged call returned the node its key is resolved to, on arguments
    that are the nodes its children are resolved to. *)
Definition log_consistent (self : Z3Converter) : Prop :=
  NoDup (ev_key <$> computed self) /\
  forall e, e ∈ computed self ->
    resolved self (ev_key e) (ev_result e) /\
    Forall2 (fun c a => resolved self (c, snd (ev_key e)) a)
      (children (fst (ev_key e))) (ev_args e).

(** A converter between two calls of [back]: nothing is pending. *)
Definition settled (self : Z3Converter) : Prop :=
  (forall k, ~ pending self k) /\ log_consistent self.

(** A key is foreign to a run of the loop on terms of rank at most [b]
    under [model] when the run cannot meet it. *)
Definition foreign (rk : string -> nat) (b : nat) (model : option ModelRef)
    (k : BackKey) : Prop :=
  ~ (snd k = model /\ (array_rank rk (fst k) <= b)%nat).

(** A term waits on the stack for its second visit, under terms of at
    most its rank. *)
Definition awaiting (rk : string -> nat) (stack : list Z3_ast)
    (t : Z3_ast) : Prop :=
  exists above below_,
    stack = (above ++ t :: below_)%list /\
    forall x, x ∈ above -> (array_rank rk x <= array_rank rk t)%nat.

(** The invariant of the loop: the log agrees with the table, the stack
    holds terms of rank at most [b], and every pending key the run can
    meet waits on the stack. *)
Definition loop_inv (rk : string -> nat) (b : nat)
    (model : option ModelRef) (stack : list Z3_ast) (self : Z3Converter)
    : Prop :=
  log_consistent self /\
  (forall x, x ∈ stack -> (array_rank rk x <= b)%nat) /\
  (forall t, pending self (t, model) -> (array_rank rk t <= b)%nat ->
             awaiting rk stack t).

(** What a call inside [_back_single_term] may do to the converter:
    resolve keys that had no entry, and log them. *)
Definition extends (self self1 : Z3Converter) : Prop :=
  log_consistent self1 /\
  (forall k f, resolved self k f -> resolved self1 k f) /\
  (forall k, pending self1 k <-> pending self k) /\
  exists new,
    computed self1 = (new ++ computed self)%list /\
    forall e, e ∈ new -> forall g, ~ resolved self (ev_key e) g.

(** What a run of the loop does: besides, it resolves the keys on its
    stack and the pending keys it can meet. *)
Definition loop_post (rk : string -> nat) (b : nat)
    (model : option ModelRef) (stack : list Z3_ast)
    (self self' : Z3Converter) : Prop :=
  log_consistent self' /\
  (forall k f, resolved self k f -> resolved self' k f) /\
  (forall k, pending self' k <-> pending self k /\ foreign rk b model k) /\
  (forall x, x ∈ stack -> exists f, resolved self' (x, model) f) /\
  exists new,
    computed self' = (new ++ computed self)%list /\
    forall e, e ∈ new -> forall g, ~ resolved self (ev_key e) g.

(** The table and the log are those of [self]. *)
Definition same_table (self self1 : Z3Converter) : Prop :=
  _back_memoization self1 = _back_memoization self /\
  computed self1 = computed self.

Section LoopNotions.
Context `{TypeOracle}.
Variable rk : string -> nat.

(** What is proved of the loop for every bound on its iterations. *)
Definition loop_spec (n : nat) : Prop :=
  forall b model stack self self',
    model_stratified rk model ->
    loop_inv rk b model stack self ->
    back_loop n model stack self = (Ok tt, self') ->
    loop_post rk b model stack self self'.

Definition all_pending_foreign (b : nat) (m : ModelRef)
    (self : Z3Converter) : Prop :=
  forall k, pending self k -> foreign rk b (Some m) k.

End LoopNotions.

(** Two logged calls under the same model got, for a child they share,
    the same node as argument. *)
Definition parents_agree (self : Z3Converter) : Prop :=
  forall e1 e2 i j c a1 a2,
    e1 ∈ computed self -> e2 ∈ computed self ->
    snd (ev_key e1) = snd (ev_key e2) ->
    children (fst (ev_key e1)) !! i = Some c ->
    children (fst (ev_key e2)) !! j = Some c ->
    ev_args e1 !! i = Some a1 -> ev_args e2 !! j = Some a2 ->
    a1 = a2 /\ resolved self (c, snd (ev_key e1)) a1.

(** The session after its deferred pop is discharged: the innermost
    scope is gone, the mark is cleared, and [pop] is the last command. *)
Definition discharge (self : Z3Solver) : Z3Solver :=
  match outer_scopes (z3 self) with
  | scope :: below =>
      mk_solver
        (mk_z3 scope below (parameters (z3 self)) (last_check (z3 self))
           (models_made (z3 self)))
        (options self) (converter self) false (named_assertions self)
        (last_result self) (Some "pop")
  | [] => self
  end.

(** ** Notions of the statements *)

Definition z3_with_assertion (a : Z3_assertion) (z : Z3SolverRef)
    : Z3SolverRef :=
  mk_z3 (current_scope z ++ [a]) (outer_scopes z) (parameters z)
    (last_check z) (models_made z).

(** The indicator [FreshSymbol] allocates in the manager [m]. *)
Definition next_indicator_name (m : FormulaManager.t) : string :=
  FormulaManager.format_d "_assertion_"
    (FormulaManager.fresh_index "_assertion_" m).

Definition declare_indicator (m : FormulaManager.t) : FormulaManager.t :=
  FormulaManager.mk
    (<[next_indicator_name m := BOOL]> (FormulaManager.symbols m))
    (S (FormulaManager.fresh_index "_assertion_" m)).

Definition declare_symbol (name : string) (ty : PySMTType)
    (m : FormulaManager.t) : FormulaManager.t :=
  FormulaManager.mk (<[name := ty]> (FormulaManager.symbols m))
    (FormulaManager._fresh_guess m).

(** The converter after [back] has lifted the leaf [expr] to [res]. *)
Definition leaf_lifted (expr : Z3_ast) (model : option ModelRef)
    (res : FNode) (self : Z3Converter) : Z3Converter :=
  log_event (mk_event (expr, model) [] res)
    (memo_set (expr, model) (Some res) (memo_set (expr, model) None self)).

Definition with_z3 (z : Z3SolverRef) (self : Z3Solver) : Z3Solver :=
  mk_solver z (options self) (converter self) (pending_pop self)
    (named_assertions self) (last_result self) (last_command self).

(** A method respects the status when, on two sessions that differ only
    in the recorded status (the engine's last check, the last result and
    the last command), it returns the same and leaves sessions that again
    differ only in the status. *)
Definition respects_status {A} (m : Method Z3Solver A) : Prop :=
  forall s s', forget_status s = forget_status s' ->
    fst (m s) = fst (m s') /\
    forget_status (snd (m s)) = forget_status (snd (m s')).

Definition respects_check {A} (m : Method Z3SolverRef A) : Prop :=
  forall z z', forget_check z = forget_check z' ->
    fst (m z) = fst (m z') /\
    forget_check (snd (m z)) = forget_check (snd (m z')).

(** The session in which [solve] with composite assumptions leaves the
    engine: one more scope, holding the lowered conjunction. *)
Definition scope_pushed (t : Z3_ast) (lits : list Z3_ast)
    (z : Z3SolverRef) : Z3SolverRef :=
  mk_z3 [Added t] (current_scope z :: outer_scopes z) (parameters z)
    (Some lits) (models_made z).

(** ** Sample formulas *)

Module Sample.
Import FormulaManager.

Definition x := symbol_node "x" INT.
Definition y := symbol_node "y" INT.
Definition z := symbol_node "z" INT.
Definition p := symbol_node "p" BOOL.
Definition q := symbol_node "q" BOOL.
Definition s := symbol_node "s" STRING.

(** An uninterpreted predicate of three integers, and its application. *)
Definition P3 := symbol_node "P" (FunctionType BOOL [INT; INT; INT]).
Definition P3_xyz := Function P3 [x; y; z].

(** The manager in which these symbols are declared. *)
Definition manager : FormulaManager.t :=
  FormulaManager.mk
    (list_to_map [("x", INT); ("y", INT); ("z", INT); ("p", BOOL);
                  ("q", BOOL);
                  ("P", FunctionType BOOL [INT; INT; INT])]) 0.

(** A new session over that manager, with the given unsat-core mode. *)
Definition session (mode : option string) : Z3Solver :=
  mk_solver new_z3 (mk_options true mode None [])
    (new_converter manager) false [] None None.

(** An engine that answers "unsat" with the core [_assertion_0], and
    the session, tracking named assertions, that asserted [p] under the
    name "hyp" and then solved. *)
Definition refuting_engine : Z3Engine :=
  constant_engine unsat [Z3_mk_const "_assertion_0" BoolSort] [] None.

Definition refuted_session : Z3Solver :=
  let s1 := snd (@add_assertion sample_oracle p (Some "hyp")
                   (session (Some "named"))) in
  snd (@solve sample_oracle refuting_engine None s1).

(** The native terms [x mod 2], which has no counterpart among the
    formula nodes, and [x mod 2 = 0]. *)
Definition x_mod_2 : Z3_ast :=
  builtin Z3_OP_MOD [] IntSort
    [Z3_mk_const "x" IntSort; Z3_arith_numeral 2 1 IntSort].

Definition x_mod_2_is_0 : Z3_ast :=
  Z3_mk_eq x_mod_2 (Z3_arith_numeral 0 1 IntSort).

(** [exists y. x = 2 * y and 0 <= y] over the integers, and an engine
    whose [qe] tactic answers [0 <= x and x mod 2 = 0]. *)
Definition x_is_even_nonneg : FNode :=
  mkFNode op.EXISTS
    [And [Equals x (node op.TIMES [Int 2; y]); LE (Int 0) y]]
    (QuantPayload [("y", INT)]).

Definition nonneg_even_x : Z3_ast :=
  Z3_mk_and [Z3_mk_le (Z3_arith_numeral 0 1 IntSort) (Z3_mk_const "x" IntSort);
             x_mod_2_is_0].

Definition parity_engine : Z3Engine :=
  constant_engine sat [] [] (Some nonneg_even_x).

(** A simplifier that answers [TRUE] whatever it is given: it shows
    where a result went through simplification. *)
Definition collapsing_simplifier : Simplifier :=
  {| simplify := fun _ => TRUE |}.

(** An engine whose model gives every term the value 1. *)
Definition valuing_engine : Z3Engine :=
  {| z3_check := fun _ _ _ => sat;
     z3_unsat_core := fun _ => [];
     z3_model := fun _ => Some [];
     z3_eval := fun _ _ _ => Z3_arith_numeral 1 1 IntSort;
     z3_accepts := fun _ _ => true;
     z3_tactic := fun _ t => Ok t |}.

End Sample.

(** ** Notions for the further properties *)

(** The types that have a sort: no string and no function type inside,
    and no bit-vector width that is zero modulo two to the 32. *)
Fixpoint has_z3_sort (tp : PySMTType) : bool :=
  match tp with
  | BOOL | REAL | INT | Type_ _ => true
  | BVType w => negb (bool_decide ((w mod 2 ^ 32)%N = 0%N))
  | ArrayType i e => has_z3_sort i && has_z3_sort e
  | STRING | FunctionType _ _ => false
  end.

(** The type with each bit-vector width taken modulo two to the 32. *)
Fixpoint wrap_widths (tp : PySMTType) : PySMTType :=
  match tp with
  | BVType w => BVType (w mod 2 ^ 32)
  | ArrayType i e => ArrayType (wrap_widths i) (wrap_widths e)
  | tp => tp
  end.

(** The sorts an engine has: each bit-vector size is positive and below
    two to the 32. *)
Fixpoint bv_sizes_fit (s : Z3Sort) : bool :=
  match s with
  | BitVecSort w => bool_decide (0 < w < 2 ^ 32)%N
  | ArraySort d r => bv_sizes_fit d && bv_sizes_fit r
  | _ => true
  end.

(** The errors of [_type_to_z3]: its assertion on a type that is none of
    the kinds it knows, and the engine's refusal of a bit-vector size. *)
Definition is_type_to_z3_error (e : PyExn) : bool :=
  match e with
  | AssertionError m => String.eqb m "Unsupported type '%s'"
  | Z3Exception m =>
      String.eqb m "bit-vector size must be greater than zero"
  | _ => false
  end.

(** The sorts that have a type: Boolean, integer, real, bit-vector,
    uninterpreted, and arrays over these. *)
Fixpoint has_pysmt_type (s : Z3Sort) : bool :=
  match s with
  | BoolSort | IntSort | RealSort | BitVecSort _ | DeclareSort _ => true
  | ArraySort d r => has_pysmt_type d && has_pysmt_type r
  | OtherSort _ => false
  end.

(** The parameters [Z3Options.__call__] sets, in order. *)
Definition option_settings (o : Z3Options) : list (string * ParamValue) :=
  [("model", BoolParam (generate_models o))]
  ++ (match unsat_cores_mode o with
      | Some _ => [("unsat_core", BoolParam true)]
      | None => []
      end)
  ++ (match random_seed o with
      | Some seed => [("random_seed", IntParam seed)]
      | None => []
      end)
  ++ solver_options o.

Definition with_parameters (ps : list (string * ParamValue))
    (z : Z3SolverRef) : Z3SolverRef :=
  mk_z3 (current_scope z) (outer_scopes z) ps (last_check z)
    (models_made z).

Definition set_options_message : string :=
  "Error setting the option '%s=%s'".

(** The engine with another stack of scopes (the innermost first). *)
Definition with_stack (stack : list (list Z3_assertion)) (z : Z3SolverRef)
    : Z3SolverRef :=
  match stack with
  | scope :: below =>
      mk_z3 scope below (parameters z) (last_check z) (models_made z)
  | [] => z
  end.

(** The engine after a check under the given assumptions. *)
Definition with_last_check (lits : list Z3_ast) (z : Z3SolverRef)
    : Z3SolverRef :=
  mk_z3 (current_scope z) (outer_scopes z) (parameters z) (Some lits)
    (models_made z).

(** ** The bottom-up reading of [back] *)

Section BackTree.
Context `{TypeOracle}.

(** The recursive call of [_back_single_term]: made only for an as-array
    term under a model. *)
Definition no_back : BackRec :=
  fun _ _ => raise (NotImplementedError "").

(** One call of [_back_single_term] under no model, as a function of the
    formula manager. *)
Definition back_step (m : FormulaManager.t) (expr : Z3_ast)
    (args : list FNode) : result FNode :=
  fst (_back_single_term no_back expr args None (new_converter m)).

(** The term rebuilt bottom-up: the children first, then
    [_back_single_term] on the term and the nodes of its children. *)
Fixpoint back_tree (m : FormulaManager.t) (t : Z3_ast) : result FNode :=
  args ← match t with
         | Z3_app _ xs =>
             (fix go (l : list Z3_ast) : result (list FNode) :=
                match l with
                | [] => Ok []
                | x :: l' => a ← back_tree m x; r ← go l'; Ok (a :: r)
                end) xs
         | Z3_quantifier _ _ b => a ← back_tree m b; Ok [a]
         | _ => Ok []
         end;
  back_step m t args.

(** The constants that [_back_single_term] takes for symbols: of a kind
    that is no key of [_back_fun], and no numeral, as-array term or
    algebraic value. *)
Definition taken_for_symbol (t : Z3_ast) : bool :=
  match Z3_get_app_decl_kind t with
  | Some kind =>
      match _back_fun kind with
      | Some _ => false
      | None =>
          is_const t
          && negb (is_rational_value t) && negb (is_int_value t)
          && negb (is_bv_value t) && negb (is_as_array t)
          && negb (is_algebraic_value t)
      end
  | None => false
  end.

(** Every constant of the term that is taken for a symbol is declared in
    the manager. *)
Fixpoint symbols_declared (m : FormulaManager.t) (t : Z3_ast) : bool :=
  (if taken_for_symbol t
   then bool_decide (is_Some (FormulaManager.symbols m !! expr_name t))
   else true)
  && match t with
     | Z3_app _ xs => forallb (symbols_declared m) xs
     | Z3_quantifier _ _ b => symbols_declared m b
     | _ => true
     end.

(** The entries of the table under [model] are the nodes [back_tree]
    gives. *)
Definition table_sound (model : option ModelRef) (self : Z3Converter)
    : Prop :=
  forall t g, resolved self (t, model) g -> back_tree (mgr self) t = Ok g.

(** [n] iterations of the loop take the stack [stack_in] to [stack_out]
    and the converter [self] to [self1]. *)
Definition loop_run (model : option ModelRef) (n : nat)
    (stack_in stack_out : list Z3_ast) (self self1 : Z3Converter) : Prop :=
  (forall fuel,
     back_loop (n + fuel) model stack_in self
     = back_loop fuel model stack_out self1) /\
  mgr self1 = mgr self /\
  table_sound model self1 /\
  (forall k, pending self1 k <-> pending self k) /\
  (forall k g, resolved self k g -> resolved self1 k g).

End BackTree.

(** [s] occurs in [t]. *)
Inductive subterm : Z3_ast -> Z3_ast -> Prop :=
| subterm_refl t : subterm t t
| subterm_child s c t : subterm s c -> c ∈ children t -> subterm s t.

(** The sizes of a list of terms, added up. *)
Definition ast_sizes (ts : list Z3_ast) : nat :=
  foldr (fun x n => ast_size x + n)%nat 0%nat ts.

(** ** The terms Z3 builds as asked

    Z3 checks the sorts of the arguments it is given: it reports an error
    for a Boolean connective over a number, and it converts the integers
    of a sum that has a real in it.  The constructors of the C API are
    given above as they build a term from arguments it accepts as they
    are; [well_sorted] says that a term has been built from such
    arguments throughout. *)

Definition is_arith_sort (s : Z3Sort) : bool :=
  match s with IntSort | RealSort => true | _ => false end.

Definition is_bv_sort (s : Z3Sort) : bool :=
  match s with BitVecSort _ => true | _ => false end.

Definition all_of_sort (s : Z3Sort) (xs : list Z3_ast) : bool :=
  forallb (fun x => bool_decide (Z3_get_sort x = s)) xs.

(** The sorts of the arguments of one application, by the kind of its
    declaration. *)
Definition args_well_sorted (d : Z3_func_decl) (xs : list Z3_ast) : bool :=
  let s := sort_of_first xs in
  let n := length xs in
  match decl_kind d with
  | Z3_OP_TRUE | Z3_OP_FALSE | Z3_OP_ANUM | Z3_OP_AGNUM | Z3_OP_BNUM
  | Z3_OP_AS_ARRAY =>
      bool_decide (n = 0%nat)
  | Z3_OP_AND | Z3_OP_OR => all_of_sort BoolSort xs
  | Z3_OP_NOT => bool_decide (n = 1%nat) && all_of_sort BoolSort xs
  | Z3_OP_IMPLIES | Z3_OP_IFF | Z3_OP_XOR =>
      bool_decide (n = 2%nat) && all_of_sort BoolSort xs
  | Z3_OP_EQ => bool_decide (n = 2%nat) && all_of_sort s xs
  | Z3_OP_DISTINCT => all_of_sort s xs
  | Z3_OP_ITE =>
      match xs with
      | [i; t; e] =>
          bool_decide (Z3_get_sort i = BoolSort)
          && bool_decide (Z3_get_sort e = Z3_get_sort t)
      | _ => false
      end
  | Z3_OP_LE | Z3_OP_GE | Z3_OP_LT | Z3_OP_GT | Z3_OP_POWER =>
      bool_decide (n = 2%nat) && is_arith_sort s && all_of_sort s xs
  | Z3_OP_ADD | Z3_OP_SUB | Z3_OP_MUL =>
      negb (bool_decide (n = 0%nat)) && is_arith_sort s && all_of_sort s xs
  | Z3_OP_UMINUS => bool_decide (n = 1%nat) && is_arith_sort s
  | Z3_OP_DIV => bool_decide (n = 2%nat) && all_of_sort RealSort xs
  | Z3_OP_IDIV | Z3_OP_REM | Z3_OP_MOD =>
      bool_decide (n = 2%nat) && all_of_sort IntSort xs
  | Z3_OP_TO_REAL => bool_decide (n = 1%nat) && all_of_sort IntSort xs
  | Z3_OP_TO_INT | Z3_OP_IS_INT =>
      bool_decide (n = 1%nat) && all_of_sort RealSort xs
  | Z3_OP_SELECT =>
      match xs with
      | [a; i] =>
          match Z3_get_sort a with
          | ArraySort dom _ => bool_decide (Z3_get_sort i = dom)
          | _ => false
          end
      | _ => false
      end
  | Z3_OP_STORE =>
      match xs with
      | [a; i; v] =>
          bool_decide
            (Z3_get_sort a = ArraySort (Z3_get_sort i) (Z3_get_sort v))
      | _ => false
      end
  | Z3_OP_CONST_ARRAY => bool_decide (n = 1%nat)
  | Z3_OP_BNEG | Z3_OP_BNOT | Z3_OP_SIGN_EXT | Z3_OP_ZERO_EXT
  | Z3_OP_EXTRACT | Z3_OP_ROTATE_LEFT | Z3_OP_ROTATE_RIGHT | Z3_OP_BV2INT =>
      bool_decide (n = 1%nat) && is_bv_sort s
  | Z3_OP_CONCAT =>
      bool_decide (n = 2%nat) && forallb (fun x => is_bv_sort (Z3_get_sort x)) xs
  | Z3_OP_BADD | Z3_OP_BSUB | Z3_OP_BMUL
  | Z3_OP_BSDIV | Z3_OP_BUDIV | Z3_OP_BSREM | Z3_OP_BUREM | Z3_OP_BSMOD
  | Z3_OP_ULEQ | Z3_OP_SLEQ | Z3_OP_UGEQ | Z3_OP_SGEQ
  | Z3_OP_ULT | Z3_OP_SLT | Z3_OP_UGT | Z3_OP_SGT
  | Z3_OP_BAND | Z3_OP_BOR | Z3_OP_BXOR
  | Z3_OP_BSHL | Z3_OP_BLSHR | Z3_OP_BASHR
  | Z3_OP_EXT_ROTATE_LEFT | Z3_OP_EXT_ROTATE_RIGHT =>
      bool_decide (n = 2%nat) && is_bv_sort s && all_of_sort s xs
  | Z3_OP_UNINTERPRETED =>
      bool_decide (map Z3_get_sort xs = decl_domain d)
  end.

Fixpoint well_sorted (t : Z3_ast) : bool :=
  match t with
  | Z3_arith_numeral _ _ s => is_arith_sort s
  | Z3_bv_numeral _ w => negb (bool_decide (w = 0%N))
  | Z3_app d xs => args_well_sorted d xs && forallb well_sorted xs
  | Z3_var _ _ => true
  | Z3_quantifier _ _ b =>
      bool_decide (Z3_get_sort b = BoolSort) && well_sorted b
  | Z3_func_decl_ast _ => false
  end.

(** ** The formulas that survive the round trip *)

Section Liftable.
Context `{TypeOracle}.

(** The walk of a formula asks Z3 for no term that it does not build as
    asked: the term the walk gives, when it gives one, is well sorted. *)
Definition walk_well_sorted (f : FNode) : bool :=
  match walk f with
  | Ok t => well_sorted t
  | Raise _ => true
  end.

(** The nodes that [convert] lowers to a term from which [back] rebuilds
    the same node, given that this holds of the children: the Boolean
    connectives, sums, products, differences and comparisons, the
    bit-vector operators that have a kind of their own, array reads and
    writes, the constants, the declared symbols, and the applications of
    declared functions to one or two arguments, as many as the function
    has parameters.  A conjunction, disjunction, sum or product has two
    arguments or more, and a negation negates no negation (the formula
    manager builds no other).  An if-then-else is among them when it is
    not Boolean, and an equivalence or an equality when the type oracle
    agrees with its kind.  A node of a bit-vector operator carries the
    width of its first argument; a bit-vector constant has a width
    between one and two to the 32 and a value below two to the width; a
    real constant is in lowest terms. *)
Definition node_liftable (m : FormulaManager.t) (f : FNode) : bool :=
  match f with
  | mkFNode o xs p =>
      match o, xs, p with
      | (op.AND | op.OR | op.PLUS | op.TIMES), _ :: _ :: _, NoPayload => true
      | op.NOT, [a], NoPayload => negb (is_not a)
      | op.BV_TONATURAL, [_], NoPayload => true
      | (op.IMPLIES | op.MINUS | op.LE | op.LT
         | op.ARRAY_SELECT | op.BV_ULT | op.BV_ULE | op.BV_SLT | op.BV_SLE),
        [_; _], NoPayload => true
      | op.IFF, [a; _], NoPayload => is_bool_type (get_type a)
      | op.EQUALS, [a; _], NoPayload => negb (is_bool_type (get_type a))
      | op.ITE, [_; _; _], NoPayload => negb (is_bool_type (get_type f))
      | op.ARRAY_STORE, [_; _; _], NoPayload => true
      | (op.BV_NOT | op.BV_NEG), [a], BVPayload w [] =>
          bool_decide (w = FormulaManager.width_of a)
      | (op.BV_AND | op.BV_OR | op.BV_XOR | op.BV_ADD | op.BV_SUB
         | op.BV_MUL | op.BV_UDIV | op.BV_UREM | op.BV_SDIV | op.BV_SREM
         | op.BV_LSHL | op.BV_LSHR | op.BV_ASHR),
        [a; _], BVPayload w [] =>
          bool_decide (w = FormulaManager.width_of a)
      | op.BOOL_CONSTANT, [], BoolPayload _ => true
      | op.INT_CONSTANT, [], IntPayload _ => true
      | op.REAL_CONSTANT, [], RealPayload n d =>
          bool_decide (Z.gcd n (Z.pos d) = 1)
      | op.BV_CONSTANT, [], BVConstPayload v w =>
          bool_decide (0 < w < 2 ^ 32)%N
          && bool_decide (0 <= v < 2 ^ Z.of_N w)
      | op.SYMBOL, [], SymbolPayload name ty =>
          negb (is_function_type ty) && has_z3_sort ty
          && bool_decide (FormulaManager.symbols m !! name = Some ty)
      | op.FUNCTION, ([_] | [_; _]),
        SymbolPayload name (FunctionType r ps) =>
          bool_decide (length xs = length ps)
          && has_z3_sort r && forallb has_z3_sort ps
          && bool_decide (FormulaManager.symbols m !! name
                          = Some (FunctionType r ps))
      | _, _, _ => false
      end
  end.

Fixpoint liftable (m : FormulaManager.t) (f : FNode) : bool :=
  node_liftable m f
  && match f with mkFNode _ xs _ => forallb (liftable m) xs end.

(** A formula and the term it is lowered to and rebuilt from. *)
Definition round_trip_pair (m : FormulaManager.t) (f : FNode) (t : Z3_ast)
    : Prop :=
  convert f = Ok t /\ back_tree m t = Ok f /\ symbols_declared m t = true.

End Liftable.

(** [s] occurs in the formula [f]. *)
Inductive subformula : FNode -> FNode -> Prop :=
| subformula_refl f : subformula f f
| subformula_arg s c f : subformula s c -> c ∈ args f -> subformula s f.

(** ** [Z3Model] *)

Module Z3Model.

(** The model object: the engine's model and a converter of its own. *)
Record t := mk {
  z3_model : ModelRef;
  converter : Z3Converter
}.

(** [Z3Model.__init__] *)
Definition init (env_mgr : FormulaManager.t) (z3_model : ModelRef) : t :=
  mk z3_model (new_converter env_mgr).

Section Methods.
Context `{TypeOracle} `{Z3Engine}.

(** [get_value(formula, model_completion=True)] *)
Definition get_value (fuel : nat) (formula : FNode)
    (model_completion : bool) : Method t FNode := fun self =>
  match convert formula with
  | Raise e => (Raise e, self)
  | Ok titem =>
      let z3_res := z3_eval (z3_model self) titem model_completion in
      match back fuel z3_res (Some (z3_model self)) (converter self) with
      | (r, c) => (r, mk (z3_model self) c)
      end
  end.

End Methods.
End Z3Model.

(** Whether a result is the exception of an unknown symbol. *)
Definition is_undefined_symbol_error {A} (r : result A) : bool :=
  match r with
  | Raise (UndefinedSymbolError _) => true
  | _ => false
  end.

(** An engine whose tactic [simplify] returns the term [true] whatever it
    is given; its other tactics return the term they are given. *)
Definition simplifying_engine : Z3Engine :=
  {| z3_check := fun _ _ _ => sat;
     z3_unsat_core := fun _ => [];
     z3_model := fun _ => Some [];
     z3_eval := fun _ t _ => t;
     z3_accepts := fun _ _ => true;
     z3_tactic := fun name t =>
       if String.eqb name "simplify" then Ok Z3_mk_true else Ok t |}.
(** * Properties *)

(** ** The state-and-exception combinators *)

Lemma bind_Ok {S A B} (m : Method S A) (k : A -> Method S B) s a s' :
  m s = (Ok a, s') -> bind m k s = k a s'.
Proof. unfold bind. intros ->. reflexivity. Qed.

Lemma bind_Raise {S A B} (m : Method S A) (k : A -> Method S B) s e s' :
  m s = (Raise e, s') -> bind m k s = (Raise e, s').
Proof. unfold bind. intros ->. reflexivity. Qed.

Lemma bind_assoc {S A B C} (m : Method S A) (k : A -> Method S B)
    (k' : B -> Method S C) s :
  bind (bind m k) k' s = bind m (fun a => bind (k a) k') s.
Proof. unfold bind. destruct (m s) as [[a|e] s']; reflexivity. Qed.

Lemma bind_inv_Ok {S A B} (m : Method S A) (k : A -> Method S B) s b s2 :
  bind m k s = (Ok b, s2) ->
  exists a s1, m s = (Ok a, s1) /\ k a s1 = (Ok b, s2).
Proof.
  unfold bind. destruct (m s) as [[a|e] s1]; intros Hk; [eauto|discriminate].
Qed.

Lemma mapM_result_Ok {A B} (f : A -> result B) (l : list A) (k : list B) :
  mapM f l = Ok k <-> Forall2 (fun x y => f x = Ok y) l k.
Proof.
  revert k. induction l as [|x l IH]; intros k.
  - cbn. split.
    + intros [= <-]. constructor.
    + intros Hf. inversion Hf. reflexivity.
  - cbn [mapM]. split.
    + destruct (f x) as [y|e] eqn:Hx; [|discriminate]. cbn.
      destruct (mapM f l) as [ys|e] eqn:Hl; [|discriminate]. cbn.
      intros [= <-]. constructor; [exact Hx|]. apply IH. reflexivity.
    + intros Hf. inversion Hf as [|x' y l' ys Hx Hl]; subst.
      rewrite Hx. cbn. apply IH in Hl. rewrite Hl. reflexivity.
Qed.

Lemma FNode_nested_ind (P : FNode -> Prop) :
  (forall o xs p, Forall P xs -> P (mkFNode o xs p)) -> forall f, P f.
Proof.
  intros Hstep. fix go 1. intros [o xs p]. apply Hstep.
  induction xs as [|x xs IH]; constructor; [apply go|exact IH].
Qed.

(** ** Forward conversion of if-then-else *)

Section ForwardFacts.
Context `{TypeOracle}.

Lemma walk_node_eq (o : op.t) (xs : list FNode) (p : Payload) :
  walk (mkFNode o xs p)
  = (args ← mapM walk xs; walk_node (mkFNode o xs p) args).
Proof.
  cbn [walk].
  match goal with
  | |- mbind _ (?F xs) = _ => assert (HF : forall l, F l = mapM walk l)
  end.
  { induction l as [|x l IH]; [reflexivity|].
    cbn [mapM]. rewrite <- IH. reflexivity. }
  rewrite HF. reflexivity.
Qed.

(** [get_z3_ref] finds a class for every formula the walk lowers. *)
Lemma walk_get_z3_ref (f : FNode) :
  forall z, walk f = Ok z -> exists c, get_z3_ref f = Ok c.
Proof.
  induction f as [o xs p IH] using FNode_nested_ind. intros z Hw.
  rewrite walk_node_eq in Hw.
  destruct (mapM walk xs) as [zs|] eqn:Hzs; [|discriminate Hw].
  cbn [mbind result_bind] in Hw.
  destruct o; try (eexists; reflexivity);
    cbn [walk_node node_type] in Hw; try discriminate Hw.
  - (* a function application *)
    unfold walk_function, _z3_func_decl in Hw. cbn [get_z3_ref].
    cbn [BOOLREF_SET ARITHREF_SET BITVECREF_SET op.BOOL_OPERATORS
         op.QUANTIFIERS op.BOOL_CONNECTIVES op.RELATIONS op.IRA_OPERATORS
         op.BV_OPERATORS orb].
    rewrite bool_decide_false by discriminate.
    rewrite !bool_decide_true by reflexivity. cbn [orb].
    destruct (symbol_type (function_name (mkFNode op.FUNCTION xs p)));
      try discriminate Hw; eauto.
  - (* an if-then-else *)
    apply mapM_result_Ok in Hzs. unfold walk_ite in Hw.
    destruct Hzs as [|a za xs' zs' Ha Hzs]; [discriminate Hw|].
    destruct Hzs as [|b zb xs' zs' Hb Hzs]; [discriminate Hw|].
    inversion IH as [|? ? _ IH']; subst. inversion IH' as [|? ? IHb _]; subst.
    destruct (IHb zb Hb) as [c Hc]. exists c. exact Hc.
Qed.

Lemma convert_walk (f : FNode) : convert f = walk f.
Proof.
  unfold convert. destruct (walk f) as [z|e] eqn:Hw; [|reflexivity].
  destruct (walk_get_z3_ref f z Hw) as [c ->]. reflexivity.
Qed.

Lemma convert_node (o : op.t) (xs : list FNode) (p : Payload)
    (zs : list Z3_ast) :
  mapM convert xs = Ok zs ->
  convert (mkFNode o xs p) = walk_node (mkFNode o xs p) zs.
Proof.
  intros Hxs. rewrite convert_walk, walk_node_eq.
  assert (HF : forall l, mapM convert l = mapM walk l).
  { induction l as [|x l IHl]; [reflexivity|].
    cbn [mapM]. rewrite IHl, convert_walk. reflexivity. }
  rewrite <- HF, Hxs. reflexivity.
Qed.

(** C3.  An if-then-else whose static type is Boolean lowers to the
    native conjunction of two disjunctions, [(not i or t) and (i or e)],
    whose nodes are a conjunction, two disjunctions and a negation over
    the lowered children, and not to the native ternary; an if-then-else
    of any other type lowers to the native ternary. *)
Theorem convert_ite (i t e : FNode) (zi zt ze : Z3_ast) :
  convert i = Ok zi -> convert t = Ok zt -> convert e = Ok ze ->
  let formula := FormulaManager.Ite i t e in
  (is_bool_type (get_type formula) = true ->
   convert formula
   = Ok (Z3_mk_and [Z3_mk_or [Z3_mk_not zi; zt]; Z3_mk_or [zi; ze]])
   /\ is_ite (Z3_mk_and [Z3_mk_or [Z3_mk_not zi; zt]; Z3_mk_or [zi; ze]])
      = false) /\
  (is_bool_type (get_type formula) = false ->
   convert formula = Ok (Z3_mk_ite zi zt ze)
   /\ is_ite (Z3_mk_ite zi zt ze) = true).
Proof.
  intros Hi Ht He formula.
  assert (Hnode : convert formula = walk_ite formula [zi; zt; ze]).
  { unfold formula, FormulaManager.Ite, FormulaManager.node.
    erewrite convert_node; [reflexivity|].
    cbn [mapM]. rewrite Hi, Ht, He. reflexivity. }
  rewrite Hnode. unfold walk_ite. cbn.
  split; intros Hty; rewrite Hty; split; reflexivity.
Qed.

End ForwardFacts.

Lemma convert_ite_witness :
  let p := FormulaManager.symbol_node "p" BOOL in
  let q := FormulaManager.symbol_node "q" BOOL in
  let x := FormulaManager.symbol_node "x" INT in
  let c := FormulaManager.LT x (FormulaManager.Int 0) in
  @convert sample_oracle (FormulaManager.Ite c p q)
  = Ok (Z3_mk_and
          [Z3_mk_or [Z3_mk_not
                       (Z3_mk_lt (Z3_mk_const "x" IntSort)
                          (Z3_arith_numeral 0 1 IntSort));
                     Z3_mk_const "p" BoolSort];
           Z3_mk_or [Z3_mk_lt (Z3_mk_const "x" IntSort)
                       (Z3_arith_numeral 0 1 IntSort);
                     Z3_mk_const "q" BoolSort]]).
Proof.
  intros p q x c.
  apply (@convert_ite sample_oracle c p q); reflexivity.
Defined.

(** ** Round trip through the engine's terms *)

Section RoundTrip.
Context `{TypeOracle}.

(** An application of three or more arguments that is no conjunction,
    disjunction, sum or product, and no if-then-else or store of three,
    fails the assertion at the head of [_back_single_term]: for an
    uninterpreted function the rule that would rebuild it is not
    reached. *)
Lemma _back_single_term_nary_function (back : BackRec) (d : Z3_func_decl)
    (zs : list Z3_ast) (args : list FNode) (model : option ModelRef)
    (self : Z3Converter) :
  decl_kind d = Z3_OP_UNINTERPRETED ->
  (2 < length args)%nat ->
  _back_single_term back (Z3_app d zs) args model self
  = (Raise (AssertionError "Unexpected n-ary term: %s"), self).
Proof.
  intros Hk Hlen. unfold _back_single_term.
  cbn [is_expr is_quantifier negb].
  assert (Hn : nary_ok (Z3_app d zs) args = false).
  { unfold nary_ok, is_and, is_or, is_add, is_mul, is_ite, is_array_store,
      is_app_of. cbn [Z3_get_app_decl_kind]. rewrite Hk.
    rewrite bool_decide_eq_true_2 by exact Hlen.
    destruct (bool_decide (length args = 3%nat)); reflexivity. }
  rewrite Hn. reflexivity.
Qed.

(** C1, at the failing input.  The predicate [P(x, y, z)] of three
    integer symbols lowers to a native application, and lifting that
    application back raises an assertion error, whatever the bound on the
    iterations: the round trip yields no formula. *)
Theorem round_trip_ternary_function_fails (fuel : nat) :
  exists t,
    convert Sample.P3_xyz = Ok t /\
    is_Ok (fst (back fuel t None (new_converter Sample.manager))) = false /\
    fst (back 8 t None (new_converter Sample.manager))
    = Raise (AssertionError "Unexpected n-ary term: %s").
Proof.
  eexists. split; [reflexivity|]. split; [|reflexivity].
  do 8 (destruct fuel as [|fuel]; [reflexivity|]).
  reflexivity.
Qed.

(** The object [convert] returns for that application is of the Boolean
    class, which is the class z3py gives its term: [back] reads it as it
    reads any Boolean application the engine hands out. *)
Lemma ternary_application_class_kept :
  get_z3_ref Sample.P3_xyz = Ok BoolRef /\
  class_kept Sample.P3_xyz = true.
Proof. split; reflexivity. Qed.

End RoundTrip.

(** ** The session *)

Section SolverFacts.
Context `{TypeOracle} `{Z3Engine} `{SetOrder} `{Simplifier}.
Local Open Scope method_scope.

Lemma clear_pending_pop_bind {A B} (m : Method Z3Solver A)
    (k : A -> Method Z3Solver B) self :
  clear_pending_pop (bind m k) self = bind (clear_pending_pop m) k self.
Proof.
  unfold clear_pending_pop, bind. cbn beta.
  destruct (pending_pop self); [|reflexivity].
  unfold set_pending_pop, set_last_command, modify.
  destruct (_pop_body 1 _) as [[[]|e] s1]; reflexivity.
Qed.

Lemma clear_pending_pop_idle {A} (m : Method Z3Solver A) self :
  pending_pop self = false -> clear_pending_pop m self = m self.
Proof. unfold clear_pending_pop. intros ->. reflexivity. Qed.

(** The engine's answer is the result of [_solve_check]: the query is its
    last step, and it leaves the assumptions it was asked with. *)
Lemma _solve_check_answer assumptions self answer self' :
  _solve_check assumptions self = (Ok answer, self') ->
  exists lits,
    answer = z3_check (assertion_stack (z3 self')) (parameters (z3 self'))
               lits
    /\ last_check (z3 self') = Some lits.
Proof.
  assert (Hq : forall lits s a s',
             on_z3 (z3_check_ lits) s = (Ok a, s') ->
             a = z3_check (assertion_stack (z3 s')) (parameters (z3 s')) lits
             /\ last_check (z3 s') = Some lits).
  { intros lits s a s'. unfold on_z3, z3_check_. cbn.
    intros [= <- <-]. cbn. split; reflexivity. }
  unfold _solve_check. destruct assumptions as [assumptions|].
  - intros Hb.
    apply bind_inv_Ok in Hb as (split & s1 & _ & Hb).
    apply bind_inv_Ok in Hb as (u & s2 & _ & Hb).
    eexists. eapply Hq, Hb.
  - intros Hb. eexists. eapply Hq, Hb.
Qed.

(** C4.  Whenever [solve] gets as far as asking the engine, its outcome
    is the engine's answer and nothing else: on "unknown" it raises
    [SolverReturnedUnknownResultError] (and records the unknown result),
    on "sat" it returns [True] and on "unsat" it returns [False].  The
    same holds of [_solve], which [solve] wraps. *)
Theorem solve_outcome_is_engine_answer assumptions self answer self' :
  clear_pending_pop (_solve_check assumptions) self = (Ok answer, self') ->
  (exists lits,
     answer = z3_check (assertion_stack (z3 self')) (parameters (z3 self'))
                lits
     /\ last_check (z3 self') = Some lits) /\
  match answer with
  | unknown =>
      _solve assumptions self
      = (Raise SolverReturnedUnknownResultError, self') /\
      solve assumptions self
      = (Raise SolverReturnedUnknownResultError,
         with_status (Some ResultUnknown) (Some "solve") self')
  | sat =>
      _solve assumptions self = (Ok true, self') /\
      solve assumptions self
      = (Ok true, with_status (Some ResultTrue) (Some "solve") self')
  | unsat =>
      _solve assumptions self = (Ok false, self') /\
      solve assumptions self
      = (Ok false, with_status (Some ResultFalse) (Some "solve") self')
  end.
Proof.
  intros Hcheck. split.
  - unfold clear_pending_pop in Hcheck.
    destruct (pending_pop self).
    + apply bind_inv_Ok in Hcheck as (u1 & s1 & _ & Hcheck).
      apply bind_inv_Ok in Hcheck as (u2 & s2 & _ & Hcheck).
      apply bind_inv_Ok in Hcheck as (u3 & s3 & _ & Hcheck).
      eapply _solve_check_answer, Hcheck.
    + eapply _solve_check_answer, Hcheck.
  - assert (Hs : _solve assumptions self
                 = (match answer with
                    | unknown => Raise SolverReturnedUnknownResultError
                    | sat => Ok true
                    | unsat => Ok false
                    end, self')).
    { unfold _solve. rewrite clear_pending_pop_bind.
      erewrite bind_Ok by exact Hcheck. destruct answer; reflexivity. }
    unfold solve. rewrite Hs. destruct answer; split; reflexivity.
Qed.

End SolverFacts.

Lemma solve_outcome_witness :
  let engine := constant_engine unknown [] [] None in
  @solve sample_oracle engine (Some [Sample.p]) (Sample.session None)
  = (Raise SolverReturnedUnknownResultError,
     with_status (Some ResultUnknown) (Some "solve")
       (snd (@_solve sample_oracle engine (Some [Sample.p])
               (Sample.session None)))).
Proof.
  intros engine.
  exact (proj2 (proj2 (@solve_outcome_is_engine_answer sample_oracle engine
                         (Some [Sample.p]) (Sample.session None) unknown _
                         eq_refl))).
Defined.

(** ** Fresh symbols *)




(** ** Tracked and untracked assertions *)

Section Tracking.
Context `{TypeOracle}.
Local Open Scope method_scope.

Lemma convert_bool_symbol (name : string) :
  convert (FormulaManager.symbol_node name BOOL)
  = Ok (Z3_mk_const name BoolSort).
Proof. reflexivity. Qed.

(** What [add_assertion] does on a session with no deferred pop
    pending, for a Boolean formula that lowers to [term]. *)
Lemma add_assertion_effect (formula : FNode) (named : option string)
    (self : Z3Solver) (term : Z3_ast) :
  pending_pop self = false ->
  is_bool_type (get_type formula) = true ->
  convert formula = Ok term ->
  add_assertion formula named self
  = match named, unsat_cores_mode (options self) with
    | Some name, Some _ =>
        let m := mgr (converter self) in
        let key := FormulaManager.symbol_node (next_indicator_name m) BOOL in
        (Ok tt,
         mk_solver
           (z3_with_assertion
              (TrackedBy term (Z3_mk_const (next_indicator_name m) BoolSort))
              (z3 self))
           (options self)
           (with_mgr declare_indicator (converter self))
           false
           (named_assertions self ++ [(key, Some name, formula)])
           (last_result self) (Some "assert"))
    | _, _ =>
        (Ok tt,
         mk_solver (z3_with_assertion (Added term) (z3 self))
           (options self) (converter self) false
           (named_assertions self) (last_result self) (Some "assert"))
    end.
Proof.
  intros Hpending Hbool Hterm.
  assert (Hbody : forall k : TrackedAssertion -> Method Z3Solver unit,
            bind (_add_assertion formula named) k self
            = bind (fun self =>
                match named, unsat_cores_mode (options self) with
                | Some _, Some _ =>
                    (key <~ on_converter
                       (on_mgr (FormulaManager.FreshSymbol BOOL
                                  "_assertion_")) ;;
                     tkey <~ lift (convert key) ;;
                     on_z3 (z3_assert_and_track term tkey) ;;;
                     ret (Named key named formula)) self
                | _, _ =>
                    (on_z3 (z3_add term) ;;; ret (Untracked formula)) self
                end) k self).
  { intros k. unfold _add_assertion, bind at 1.
    rewrite clear_pending_pop_idle by exact Hpending.
    unfold _assert_is_boolean. rewrite Hbool.
    unfold bind, ret, lift. rewrite Hterm. reflexivity. }
  unfold add_assertion. rewrite Hbody. clear Hbody.
  destruct self as [z o c pp na lr lc]. cbn in Hpending. subst pp.
  destruct named as [name|], (unsat_cores_mode o) as [mode|] eqn:Hmode;
    cbn [options unsat_cores_mode converter mgr];
    unfold bind; cbn; rewrite ?Hmode; cbn; reflexivity.
Qed.


End Tracking.


(** C2, at the failing input.  With tracking enabled (the mode "all")
    and no name given, the formula is asserted to the engine directly; no
    indicator symbol is allocated and no triple is recorded.  The source
    notes, at the test that decides it, that under the mode "all" the
    fresh variable is to be added; the test asks for a name whatever the
    mode is. *)
Lemma unnamed_assertion_is_not_tracked :
  let s := Sample.session (Some "all") in
  let s' := snd (@add_assertion sample_oracle Sample.p None s) in
  unsat_cores_mode (options s) = Some "all" /\
  fst (@add_assertion sample_oracle Sample.p None s) = Ok tt /\
  current_scope (z3 s') = [Added (Z3_mk_const "p" BoolSort)] /\
  named_assertions s' = [] /\
  mgr (converter s') = mgr (converter s).
Proof. cbv zeta. repeat split. Qed.

(** ** The named unsat core *)

Lemma core_loop_assignments n_ass_map keys cnt res :
  core_loop n_ass_map keys cnt res
  = fold_left (fun r nf => <[fst nf := snd nf]> r)
      (core_assignments n_ass_map keys cnt) res.
Proof.
  revert cnt res. induction keys as [|key keys IH]; intros cnt res.
  - reflexivity.
  - cbn [core_loop core_assignments].
    destruct (dict_get key n_ass_map) as [[[name|] formula]|];
      cbn [fold_left fst snd]; apply IH.
Qed.

(** Every assignment comes from the recorded triple of an indicator of
    the core. *)
Lemma core_assignments_from_triples n_ass_map keys cnt name formula :
  (name, formula) ∈ core_assignments n_ass_map keys cnt ->
  exists key user_name,
    key ∈ keys /\ dict_get key n_ass_map = Some (user_name, formula) /\
    (user_name = Some name \/
     user_name = None /\ exists i, name = FormulaManager.format_d "_a_" i).
Proof.
  revert cnt. induction keys as [|key keys IH]; intros cnt Hin.
  - cbn in Hin. inversion Hin.
  - cbn [core_assignments] in Hin.
    destruct (dict_get key n_ass_map) as [[[user|] f]|] eqn:Hget.
    + apply elem_of_cons in Hin as [[= -> ->]|Hin].
      * exists key, (Some user). split; [left|]. split; [exact Hget|].
        left. reflexivity.
      * destruct (IH _ Hin) as (k & u & Hk & Hrest).
        exists k, u. split; [right; exact Hk|exact Hrest].
    + apply elem_of_cons in Hin as [[= -> ->]|Hin].
      * exists key, None. split; [left|]. split; [exact Hget|].
        right. split; [reflexivity|]. eexists. reflexivity.
      * destruct (IH _ Hin) as (k & u & Hk & Hrest).
        exists k, u. split; [right; exact Hk|exact Hrest].
    + destruct (IH _ Hin) as (k & u & Hk & Hrest).
      exists k, u. split; [right; exact Hk|exact Hrest].
Qed.

(** The unnamed entries of the core get the names [_a_cnt],
    [_a_(cnt+1)], ... in the order of the iteration. *)
Lemma core_assignments_unnamed n_ass_map keys cnt i key :
  filter (fun k => is_unnamed n_ass_map k = true) keys !! i = Some key ->
  exists formula,
    dict_get key n_ass_map = Some (None, formula) /\
    (FormulaManager.format_d "_a_" (cnt + i), formula)
      ∈ core_assignments n_ass_map keys cnt.
Proof.
  revert cnt i. induction keys as [|k keys IH]; intros cnt i Hi.
  - cbn in Hi. discriminate.
  - rewrite filter_cons in Hi. cbn [core_assignments].
    assert (Hu : is_unnamed n_ass_map k
                 = match dict_get k n_ass_map with
                   | Some (None, _) => true
                   | _ => false
                   end) by reflexivity.
    destruct (dict_get k n_ass_map) as [[[user|] f]|] eqn:Hget.
    + rewrite decide_False in Hi by (rewrite Hu; discriminate).
      destruct (IH cnt i Hi) as (formula & Hf & Hin).
      exists formula. split; [exact Hf|]. right. exact Hin.
    + rewrite decide_True in Hi by exact Hu.
      destruct i as [|i].
      * cbn in Hi. injection Hi as <-. exists f.
        split; [exact Hget|]. rewrite Nat.add_0_r. left.
      * cbn in Hi. destruct (IH (S cnt) i Hi) as (formula & Hf & Hin).
        exists formula. split; [exact Hf|].
        replace (cnt + S i)%nat with (S cnt + i)%nat by lia.
        right. exact Hin.
    + rewrite decide_False in Hi by (rewrite Hu; discriminate).
      destruct (IH cnt i Hi) as (formula & Hf & Hin).
      exists formula. split; [exact Hf|]. exact Hin.
Qed.

Section NamedCore.
Context `{TypeOracle} `{Z3Engine} `{SetOrder}.

(** C6, as the code has it.
    - Without unsat-core tracking the call raises
      [SolverNotConfiguredForUnsatCoresError], whatever the status.
    - With tracking enabled it raises a [SolverStatusError] whenever the
      last result is not "unsat" or the last command is not [solve]; the
      session is left as it was.
    - Otherwise, when the engine's core lifts back to the indicators
      [backs], it returns the map that the assignments
      [core_assignments] build, in order, over the indicators in the
      order of the set iteration.  Every assignment stores the formula of
      a recorded triple of one of the reported indicators, under the
      triple's name or under a synthesized one; and the [i]-th indicator
      without a user-supplied name is assigned under ["_a_<i>"]. *)
Theorem get_named_unsat_core_spec (fuel : nat) (self : Z3Solver) :
  (unsat_cores_mode (options self) = None ->
   get_named_unsat_core fuel self
   = (Raise SolverNotConfiguredForUnsatCoresError, self)) /\
  (forall mode, unsat_cores_mode (options self) = Some mode ->
   (last_result self <> Some ResultFalse
    \/ last_command self <> Some "solve") ->
   exists message,
     get_named_unsat_core fuel self
     = (Raise (SolverStatusError message), self)) /\
  (forall mode backs c',
   unsat_cores_mode (options self) = Some mode ->
   last_result self = Some ResultFalse ->
   last_command self = Some "solve" ->
   back_all fuel (z3_unsat_core (z3 self)) (converter self)
   = (Ok backs, c') ->
   let n_ass_map := _named_assertions_map (with_converter c' self) in
   let assignments := core_assignments n_ass_map (set_iter backs) 0 in
   get_named_unsat_core fuel self
   = (Ok (fold_left (fun r nf => <[fst nf := snd nf]> r) assignments ∅),
      with_converter c' self) /\
   (forall name formula, (name, formula) ∈ assignments ->
    exists key user_name,
      key ∈ backs /\ dict_get key n_ass_map = Some (user_name, formula) /\
      (user_name = Some name \/
       user_name = None /\
       exists i, name = FormulaManager.format_d "_a_" i)) /\
   (forall i key,
    filter (fun k => is_unnamed n_ass_map k = true) (set_iter backs) !! i
    = Some key ->
    exists formula,
      dict_get key n_ass_map = Some (None, formula) /\
      (FormulaManager.format_d "_a_" i, formula) ∈ assignments)).
Proof.
  split; [|split].
  - intros Hmode. unfold get_named_unsat_core. rewrite Hmode. reflexivity.
  - intros mode Hmode Hstatus. unfold get_named_unsat_core. rewrite Hmode.
    destruct (bool_decide (last_result self = Some ResultFalse)) eqn:Hr;
      cbn [negb]; [|eexists; reflexivity].
    destruct (bool_decide (last_command self = Some "solve")) eqn:Hc;
      cbn [negb]; [|eexists; reflexivity].
    apply bool_decide_eq_true in Hr, Hc. destruct Hstatus; contradiction.
  - intros mode backs c' Hmode Hr Hc Hback n_ass_map assignments.
    split; [|split].
    + unfold get_named_unsat_core. rewrite Hmode.
      rewrite !bool_decide_eq_true_2 by assumption. cbn [negb].
      unfold bind, on_converter. rewrite Hback.
      rewrite core_loop_assignments. reflexivity.
    + intros name formula Hin.
      apply core_assignments_from_triples in Hin
        as (key & user & Hkey & Hrest).
      exists key, user. split; [|exact Hrest].
      apply set_iter_elem_of. exact Hkey.
    + intros i key Hi.
      apply (core_assignments_unnamed n_ass_map _ 0 i key Hi).
Qed.

End NamedCore.

Lemma get_named_unsat_core_witness :
  fst (@get_named_unsat_core sample_oracle Sample.refuting_engine
         first_occurrence_order 8 Sample.refuted_session)
  = Ok (<["hyp" := Sample.p]> ∅).
Proof.
  pose proof (proj2 (proj2 (@get_named_unsat_core_spec sample_oracle
                              Sample.refuting_engine first_occurrence_order
                              8 Sample.refuted_session))) as Hcore.
  specialize (Hcore "named"
                [FormulaManager.symbol_node "_assertion_0" BOOL]
                (snd (@back_all sample_oracle 8
                        [Z3_mk_const "_assertion_0" BoolSort]
                        (converter Sample.refuted_session)))
                eq_refl eq_refl eq_refl eq_refl).
  destruct Hcore as [Hres _]. rewrite Hres. reflexivity.
Defined.

(** C6 as stated fails: on a session without unsat-core tracking whose
    last result is "sat", [get_named_unsat_core] raises
    [SolverNotConfiguredForUnsatCoresError] and no [SolverStatusError]. *)
Lemma unconfigured_core_is_no_status_error :
  let s := with_status (Some ResultTrue) (Some "solve")
             (Sample.session None) in
  let r := fst (@get_named_unsat_core sample_oracle Sample.refuting_engine
                  first_occurrence_order 8 s) in
  last_result s <> Some ResultFalse /\
  r = Raise SolverNotConfiguredForUnsatCoresError /\
  ~ exists message, r = Raise (SolverStatusError message).
Proof.
  cbv zeta. split; [discriminate|]. split; [reflexivity|].
  intros [message Hr]. discriminate Hr.
Qed.

(** ** Lifting an unresolved constant *)

Lemma dict_get_set_eq {K V} `{EqDecision K} (k : K) (v : V) (d : dict K V) :
  dict_get k (dict_set k v d) = Some v.
Proof.
  induction d as [|[k' v'] d IH]; cbn.
  - rewrite decide_True by reflexivity. reflexivity.
  - destruct (decide (k' = k)) as [->|Hne]; cbn.
    + rewrite decide_True by reflexivity. reflexivity.
    + rewrite decide_False by exact Hne. exact IH.
Qed.

Lemma dict_get_set_ne {K V} `{EqDecision K} (k k0 : K) (v : V)
    (d : dict K V) :
  k <> k0 -> dict_get k0 (dict_set k v d) = dict_get k0 d.
Proof.
  intros Hne. induction d as [|[k' v'] d IH]; cbn.
  - rewrite decide_False by exact Hne. reflexivity.
  - destruct (decide (k' = k)) as [->|Hne']; cbn.
    + rewrite !decide_False by exact Hne. reflexivity.
    + destruct (decide (k' = k0)); [reflexivity|exact IH].
Qed.

Section BackLoop.
Context `{TypeOracle}.

(** The iterations of [back_loop], one case of the memo entry each. *)
Lemma back_loop_nil fuel model self :
  back_loop (S fuel) model [] self = (Ok tt, self).
Proof. reflexivity. Qed.

Lemma back_loop_absent fuel model current stack self :
  dict_get (current, model) (_back_memoization self) = None ->
  back_loop (S fuel) model (current :: stack) self
  = back_loop fuel model (rev (children current) ++ current :: stack)
      (memo_set (current, model) None self).
Proof. intros Hget. cbn [back_loop]. rewrite Hget. reflexivity. Qed.

Lemma back_loop_resolved fuel model current stack self f :
  dict_get (current, model) (_back_memoization self) = Some (Some f) ->
  back_loop (S fuel) model (current :: stack) self
  = back_loop fuel model stack self.
Proof. intros Hget. cbn [back_loop]. rewrite Hget. reflexivity. Qed.

Lemma back_loop_pending fuel model current stack self :
  dict_get (current, model) (_back_memoization self) = Some None ->
  back_loop (S fuel) model (current :: stack) self
  = match mapM (memo_arg model self) (children current) with
    | Raise e => (Raise e, self)
    | Ok args =>
        match _back_single_term (back fuel) current args model self with
        | (Raise e, self') => (Raise e, self')
        | (Ok res, self') =>
            back_loop fuel model stack
              (log_event (mk_event (current, model) args res)
                 (memo_set (current, model) (Some res) self'))
        end
    end.
Proof. intros Hget. cbn [back_loop]. rewrite Hget. reflexivity. Qed.

End BackLoop.

Section UnresolvedConstant.
Context `{TypeOracle}.

Lemma is_app_of_ne (d : Z3_func_decl) (zs : list Z3_ast)
    (k : Z3_decl_kind) :
  decl_kind d <> k -> is_app_of (Z3_app d zs) k = false.
Proof.
  intros Hne. unfold is_app_of. cbn. apply bool_decide_eq_false_2.
  intros [= Heq]. contradiction.
Qed.

(** On a constant whose kind has no rule in the table and that is no
    as-array term and no algebraic number, [_back_single_term] is the
    symbol fallback. *)
Lemma _back_single_term_constant (back : BackRec) (d : Z3_func_decl)
    (model : option ModelRef) (self : Z3Converter) :
  _back_fun (decl_kind d) = None ->
  decl_kind d <> Z3_OP_AS_ARRAY ->
  decl_kind d <> Z3_OP_AGNUM ->
  _back_single_term back (Z3_app d []) [] model self
  = back_symbol (Z3_app d []) self.
Proof.
  intros Hfun Harr Halg. unfold _back_single_term.
  cbn [is_expr is_quantifier negb Z3_get_app_decl_kind].
  replace (nary_ok (Z3_app d []) []) with true by reflexivity.
  cbn [negb]. rewrite Hfun.
  replace (is_const (Z3_app d [])) with true by reflexivity.
  unfold is_as_array, is_algebraic_value.
  rewrite !is_app_of_ne by assumption. reflexivity.
Qed.

(** C7.  Outside of a model context, lifting a native constant that is
    no literal (its kind has no rule in the table), no as-array term and
    no algebraic number, and that is not in the memo table yet, looks up
    the symbol of the term's name: an existing symbol is returned and the
    symbol table is left as it is; when there is none, a symbol with that
    name and the type read off the term's sort is declared and returned,
    and no [UndefinedSymbolError] is raised. *)
Theorem back_unresolved_constant (fuel : nat) (d : Z3_func_decl)
    (self : Z3Converter) :
  let expr := Z3_app d [] in
  _back_fun (decl_kind d) = None ->
  decl_kind d <> Z3_OP_AS_ARRAY ->
  decl_kind d <> Z3_OP_AGNUM ->
  dict_get (expr, None) (_back_memoization self) = None ->
  (forall ty,
     FormulaManager.symbols (mgr self) !! decl_name d = Some ty ->
     back (S (S (S fuel))) expr None self
     = (Ok (FormulaManager.symbol_node (decl_name d) ty),
        leaf_lifted expr None (FormulaManager.symbol_node (decl_name d) ty)
          self)) /\
  (forall ty,
     FormulaManager.symbols (mgr self) !! decl_name d = None ->
     _z3_to_type (decl_range d) = Ok ty ->
     back (S (S (S fuel))) expr None self
     = (Ok (FormulaManager.symbol_node (decl_name d) ty),
        leaf_lifted expr None (FormulaManager.symbol_node (decl_name d) ty)
          (with_mgr (declare_symbol (decl_name d) ty) self))).
Proof.
  intros expr Hfun Harr Halg Hmemo. subst expr.
  set (expr := Z3_app d []) in *.
  assert (Hstep : forall res self1,
            back_symbol expr (memo_set (expr, None) None self)
            = (Ok res, self1) ->
            back (S (S (S fuel))) expr None self
            = (Ok res,
               log_event (mk_event (expr, None) [] res)
                 (memo_set (expr, None) (Some res) self1))).
  { intros res self1 Hsym. unfold back, bind.
    rewrite back_loop_absent by exact Hmemo.
    replace (rev (children expr) ++ [expr])%list with [expr] by reflexivity.
    rewrite back_loop_pending
      by (cbn [memo_set _back_memoization]; apply dict_get_set_eq).
    replace (children expr) with (@nil Z3_ast) by reflexivity.
    change (mapM (memo_arg None (memo_set (expr, None) None self)) [])
      with (@Ok (list FNode) []).
    cbv iota. unfold expr at 1.
    rewrite _back_single_term_constant by assumption.
    fold expr. rewrite Hsym. rewrite back_loop_nil.
    unfold memo_arg, log_event, memo_set. cbn [_back_memoization].
    rewrite dict_get_set_eq. reflexivity. }
  split; intros ty Hsym.
  - rewrite (Hstep (FormulaManager.symbol_node (decl_name d) ty)
               (memo_set (expr, None) None self)); [reflexivity|].
    unfold back_symbol, on_mgr, FormulaManager.get_symbol.
    cbn [memo_set mgr expr_name]. unfold expr at 1. cbn [expr_name].
    rewrite Hsym. destruct self as [m memo log]. reflexivity.
  - intros Hty.
    rewrite (Hstep (FormulaManager.symbol_node (decl_name d) ty)
               (with_mgr (declare_symbol (decl_name d) ty)
                  (memo_set (expr, None) None self))); [reflexivity|].
    unfold back_symbol, on_mgr, FormulaManager.get_symbol.
    cbn [memo_set mgr expr_name]. unfold expr at 1. cbn [expr_name].
    rewrite Hsym. unfold bind, lift. unfold expr at 1.
    cbn [Z3_get_sort]. rewrite Hty.
    destruct self as [m memo log]. cbn [mgr] in Hsym.
    unfold FormulaManager.Symbol, with_mgr, memo_set, expr.
    cbn [mgr expr_name _back_memoization computed]. rewrite Hsym.
    reflexivity.
Qed.

End UnresolvedConstant.

Lemma back_unresolved_constant_witness :
  let c := Z3_mk_const "fresh_c" (BitVecSort 8) in
  fst (@back sample_oracle 3 c None (new_converter Sample.manager))
  = Ok (FormulaManager.symbol_node "fresh_c" (BVType 8)) /\
  FormulaManager.symbols
    (mgr (snd (@back sample_oracle 3 c None (new_converter Sample.manager))))
    !! "fresh_c" = Some (BVType 8).
Proof.
  intros c.
  pose proof (proj2 (@back_unresolved_constant sample_oracle 0
                       (mk_func_decl Z3_OP_UNINTERPRETED "fresh_c" [] []
                          (BitVecSort 8))
                       (new_converter Sample.manager)
                       eq_refl ltac:(discriminate) ltac:(discriminate)
                       eq_refl)
                (BVType 8) eq_refl eq_refl) as Hback.
  unfold c, Z3_mk_const. rewrite Hback. split; reflexivity.
Defined.

(** ** Quantifier elimination *)

Section EliminatorFacts.
Context `{TypeOracle} `{Z3Engine} `{LogicOracle}.

(** The errors of [eliminate_quantifiers]:
    - an input whose logic is neither within LRA nor within LIA is
      rejected with a [PysmtValueError] before anything is lowered or
      eliminated (whatever the converter and the tactics would do), and
      the converter is left as it was;
    - when the logic is within LRA, an exception of the lifting is raised
      unchanged;
    - when the logic is within LIA and not within LRA, a
      [ConvertExpressionError] of the lifting is replaced by the
      incompleteness error, whose [expression] is the native result of
      the elimination. *)
Theorem eliminate_quantifiers_errors (fuel : nat) (formula : FNode)
    (self : Z3Converter) :
  let logic := get_logic formula in
  (logic_le logic LRA = false -> logic_le logic LIA = false ->
   exists message,
     eliminate_quantifiers fuel formula self
     = (Raise (PysmtValueError message), self)) /\
  (forall f s res e self',
   convert formula = Ok f ->
   z3_tactic "simplify" f = Ok s ->
   z3_tactic "qe" f = Ok res ->
   back fuel res None self = (Raise e, self') ->
   (logic_le logic LRA = true ->
    eliminate_quantifiers fuel formula self = (Raise e, self')) /\
   (logic_le logic LRA = false -> logic_le logic LIA = true ->
    forall message expression,
    e = ConvertExpressionError message expression ->
    eliminate_quantifiers fuel formula self
    = (Raise (ConvertExpressionError lia_incomplete_message
                (NativeObject res)), self'))).
Proof.
  intros logic. split.
  - intros Hlra Hlia. unfold eliminate_quantifiers. fold logic.
    rewrite Hlra, Hlia. eexists. reflexivity.
  - intros f s res e self' Hf Hs Hres Hback. split.
    + intros Hlra. unfold eliminate_quantifiers. fold logic.
      rewrite Hlra. cbn [negb andb]. unfold bind, lift.
      rewrite Hf, Hs, Hres, Hback. destruct e; reflexivity.
    + intros Hlra Hlia message expression ->.
      unfold eliminate_quantifiers. fold logic.
      rewrite Hlra, Hlia. cbn [negb andb]. unfold bind, lift.
      rewrite Hf, Hs, Hres, Hback. reflexivity.
Qed.

End EliminatorFacts.

Lemma eliminate_quantifiers_errors_witness :
  fst (@eliminate_quantifiers sample_oracle Sample.parity_engine
         sample_logics 30 Sample.x_is_even_nonneg
         (new_converter Sample.manager))
  = Raise (ConvertExpressionError lia_incomplete_message
             (NativeObject Sample.nonneg_even_x)).
Proof.
  pose proof (proj2 (@eliminate_quantifiers_errors sample_oracle
                       Sample.parity_engine sample_logics 30
                       Sample.x_is_even_nonneg
                       (new_converter Sample.manager))) as He.
  edestruct (He _ _ Sample.nonneg_even_x
               (ConvertExpressionError "Unsupported expression: %s"
                  (NativeObject Sample.x_mod_2))
               (snd (@back sample_oracle 30 Sample.nonneg_even_x None
                       (new_converter Sample.manager)))
               eq_refl eq_refl eq_refl eq_refl) as [_ Hlia].
  rewrite (Hlia eq_refl eq_refl _ _ eq_refl). reflexivity.
Defined.

(** C8, at the failing input.  The eliminator is asked twice for the
    same formula of linear integer arithmetic, [exists y. x = 2 * y and
    0 <= y], for which the engine answers [0 <= x and x mod 2 = 0].  The
    first call raises the incompleteness error with the engine's term.
    It leaves the term marked as in progress in the memo table of the
    eliminator's converter, with no entry for its first argument; the
    second call finds the mark, reads the entries of the arguments and
    raises [KeyError], which the handler of the eliminator does not
    catch: the lifting failed, and the error is not the incompleteness
    error. *)
Lemma second_elimination_raises_KeyError :
  let first :=
    @eliminate_quantifiers sample_oracle Sample.parity_engine sample_logics
      30 Sample.x_is_even_nonneg (new_converter Sample.manager) in
  @logic_le sample_logics (get_logic Sample.x_is_even_nonneg) LRA = false /\
  @logic_le sample_logics (get_logic Sample.x_is_even_nonneg) LIA = true /\
  fst first
  = Raise (ConvertExpressionError lia_incomplete_message
             (NativeObject Sample.nonneg_even_x)) /\
  fst (@eliminate_quantifiers sample_oracle Sample.parity_engine
         sample_logics 30 Sample.x_is_even_nonneg (snd first))
  = Raise KeyError.
Proof. vm_compute. repeat split. Qed.

(** ** Values of the model *)

Section ValueFacts.
Context `{TypeOracle} `{Z3Engine} `{Simplifier}.

(** C10.  [get_value] lowers the term, evaluates it in the engine's
    current model with model completion switched on, and lifts the value
    back in the context of the current model; a lifted value that is a
    constant (a node of a constant kind, or an array value whose
    arguments are constants) is returned as it is, any other is returned
    simplified. *)
Theorem get_value_simplifies_non_constants (fuel : nat) (item : FNode)
    (self : Z3Solver) (titem : Z3_ast) (model model' : ModelRef)
    (z1 z2 : Z3SolverRef) (res : FNode) (c' : Z3Converter) :
  convert item = Ok titem ->
  z3_model_ (z3 self) = (Ok model, z1) ->
  z3_model_ z1 = (Ok model', z2) ->
  back fuel (z3_eval model titem true) (Some model') (converter self)
  = (Ok res, c') ->
  get_value fuel item self
  = (Ok (if is_constant res then res else simplify res),
     with_converter c' (with_z3 z2 self)).
Proof.
  intros Hitem Hm1 Hm2 Hback. unfold get_value, bind, lift, on_z3.
  rewrite Hitem, Hm1. cbn [z3]. rewrite Hm2.
  unfold on_converter. cbn [converter]. rewrite Hback.
  destruct (is_constant res); reflexivity.
Qed.

End ValueFacts.

Lemma get_value_witness :
  let engine := constant_engine sat [] [] None in
  let sum := FormulaManager.node op.PLUS
               [Sample.x; FormulaManager.Int 2] in
  let zeros := FormulaManager.Array INT (FormulaManager.Int 0) [] in
  fst (@get_value sample_oracle engine Sample.collapsing_simplifier
         10 sum (Sample.session None))
  = Ok FormulaManager.TRUE /\
  fst (@get_value sample_oracle engine Sample.collapsing_simplifier
         10 zeros (Sample.session None))
  = Ok zeros.
Proof.
  intros engine sum zeros. split.
  - rewrite (@get_value_simplifies_non_constants sample_oracle
               engine Sample.collapsing_simplifier 10 sum
               (Sample.session None)
               (Z3_mk_add [Z3_mk_const "x" IntSort;
                           Z3_arith_numeral 2 1 IntSort])
               (mk_model 0 []) (mk_model 1 [])
               (mk_z3 [] [] [] None 1) (mk_z3 [] [] [] None 2)
               sum
               (snd (@back sample_oracle 10
                       (Z3_mk_add [Z3_mk_const "x" IntSort;
                                   Z3_arith_numeral 2 1 IntSort])
                       (Some (mk_model 1 []))
                       (new_converter Sample.manager)))
               eq_refl eq_refl eq_refl eq_refl).
    reflexivity.
  - rewrite (@get_value_simplifies_non_constants sample_oracle
               engine Sample.collapsing_simplifier 10 zeros
               (Sample.session None)
               (Z3_mk_const_array IntSort (Z3_arith_numeral 0 1 IntSort))
               (mk_model 0 []) (mk_model 1 [])
               (mk_z3 [] [] [] None 1) (mk_z3 [] [] [] None 2)
               zeros
               (snd (@back sample_oracle 10
                       (Z3_mk_const_array IntSort
                          (Z3_arith_numeral 0 1 IntSort))
                       (Some (mk_model 1 []))
                       (new_converter Sample.manager)))
               eq_refl eq_refl eq_refl eq_refl).
    reflexivity.
Defined.

(** ** The deferred pop *)

Lemma forget_status_inv s s' :
  forget_status s = forget_status s' ->
  forget_check (z3 s) = forget_check (z3 s') /\
  options s = options s' /\ converter s = converter s' /\
  pending_pop s = pending_pop s' /\
  named_assertions s = named_assertions s'.
Proof.
  intros Heq. repeat split.
  - exact (f_equal z3 Heq).
  - exact (f_equal options Heq).
  - exact (f_equal converter Heq).
  - exact (f_equal pending_pop Heq).
  - exact (f_equal named_assertions Heq).
Qed.

Lemma forget_status_intro s s' :
  forget_check (z3 s) = forget_check (z3 s') ->
  options s = options s' -> converter s = converter s' ->
  pending_pop s = pending_pop s' ->
  named_assertions s = named_assertions s' ->
  forget_status s = forget_status s'.
Proof. unfold forget_status. intros -> -> -> -> ->. reflexivity. Qed.

Lemma respects_ext {A} (m m' : Method Z3Solver A) :
  (forall s, m s = m' s) -> respects_status m' -> respects_status m.
Proof. intros Hext Hm s s' Hs. rewrite !Hext. apply Hm, Hs. Qed.

Lemma respects_ret {A} (a : A) : respects_status (ret a).
Proof. intros s s' Hs. split; [reflexivity|exact Hs]. Qed.

Lemma respects_raise {A} (e : PyExn) : respects_status (@raise _ A e).
Proof. intros s s' Hs. split; [reflexivity|exact Hs]. Qed.

Lemma respects_lift {A} (r : result A) : respects_status (lift r).
Proof. intros s s' Hs. split; [reflexivity|exact Hs]. Qed.

Lemma respects_bind {A B} (m : Method Z3Solver A)
    (k : A -> Method Z3Solver B) :
  respects_status m -> (forall a, respects_status (k a)) ->
  respects_status (bind m k).
Proof.
  intros Hm Hk s s' Hs. unfold bind.
  destruct (Hm s s' Hs) as [Hr Hst].
  destruct (m s) as [[a|e] s1], (m s') as [[a'|e'] s1']; cbn in Hr, Hst;
    try discriminate Hr.
  - injection Hr as <-. apply Hk, Hst.
  - injection Hr as <-. split; [reflexivity|exact Hst].
Qed.

Lemma respects_for_each {A} (xs : list A)
    (body : A -> Method Z3Solver unit) :
  (forall x, respects_status (body x)) ->
  respects_status (for_each xs body).
Proof.
  intros Hbody. induction xs as [|x xs IH]; cbn [for_each].
  - apply respects_ret.
  - apply respects_bind; [apply Hbody|intros _; exact IH].
Qed.

(** A method that first reads something the status does not touch. *)
Lemma respects_read {A B} (g : Z3Solver -> B)
    (k : B -> Method Z3Solver A) :
  (forall s s', forget_status s = forget_status s' -> g s = g s') ->
  (forall b, respects_status (k b)) ->
  respects_status (fun self => k (g self) self).
Proof.
  intros Hg Hk s s' Hs. cbn beta. rewrite (Hg s s' Hs). apply Hk, Hs.
Qed.

Lemma respects_on_z3 {A} (m : Method Z3SolverRef A) :
  respects_check m -> respects_status (on_z3 m).
Proof.
  intros Hm s s' Hs. unfold on_z3.
  destruct (forget_status_inv _ _ Hs) as (Hz & Ho & Hc & Hp & Hn).
  destruct (Hm _ _ Hz) as [Hr Hst].
  destruct (m (z3 s)) as [r z1], (m (z3 s')) as [r' z1'].
  cbn in Hr, Hst |- *. split; [exact Hr|].
  apply forget_status_intro;
    cbn [z3 options converter pending_pop named_assertions];
    first [assumption|reflexivity].
Qed.

Lemma respects_on_converter {A} (m : Method Z3Converter A) :
  respects_status (on_converter m).
Proof.
  intros s s' Hs. unfold on_converter.
  destruct (forget_status_inv _ _ Hs) as (Hz & Ho & Hc & Hp & Hn).
  rewrite Hc. destruct (m (converter s')) as [r c1]. cbn.
  split; [reflexivity|]. apply forget_status_intro;
    cbn [z3 options converter pending_pop named_assertions];
    first [assumption|reflexivity].
Qed.

Lemma respects_set_pending_pop b : respects_status (set_pending_pop b).
Proof.
  intros s s' Hs.
  destruct (forget_status_inv _ _ Hs) as (Hz & Ho & Hc & Hp & Hn).
  split; [reflexivity|]. apply forget_status_intro;
    cbn [z3 options converter pending_pop named_assertions];
    first [assumption|reflexivity].
Qed.

Lemma respects_set_last_command c : respects_status (set_last_command c).
Proof.
  intros s s' Hs.
  destruct (forget_status_inv _ _ Hs) as (Hz & Ho & Hc & Hp & Hn).
  split; [reflexivity|]. apply forget_status_intro;
    cbn [z3 options converter pending_pop named_assertions];
    first [assumption|reflexivity].
Qed.

Lemma respects_record_named t : respects_status (record_named t).
Proof.
  intros s s' Hs.
  destruct (forget_status_inv _ _ Hs) as (Hz & Ho & Hc & Hp & Hn).
  unfold record_named, modify. cbn [fst snd].
  split; [reflexivity|]. apply forget_status_intro;
    cbn [z3 options converter pending_pop named_assertions];
    try assumption.
  rewrite Hn. reflexivity.
Qed.

Lemma respects_forget {A} (m : Method Z3Solver A) :
  respects_status m -> respects_status (forget m).
Proof.
  intros Hm s s' Hs. unfold forget. destruct (Hm s s' Hs) as [Hr Hst].
  destruct (m s) as [[a|e] s1], (m s') as [[a'|e'] s1']; cbn in Hr, Hst;
    try discriminate Hr; cbn.
  - split; [reflexivity|exact Hst].
  - injection Hr as <-. split; [reflexivity|exact Hst].
Qed.

(** The engine's own operations. *)
Lemma forget_check_inv z z' :
  forget_check z = forget_check z' ->
  current_scope z = current_scope z' /\ outer_scopes z = outer_scopes z' /\
  parameters z = parameters z' /\ models_made z = models_made z'.
Proof.
  intros Heq. repeat split.
  - exact (f_equal current_scope Heq).
  - exact (f_equal outer_scopes Heq).
  - exact (f_equal parameters Heq).
  - exact (f_equal models_made Heq).
Qed.

Lemma respects_z3_push : respects_check z3_push.
Proof.
  intros z z' Hz. destruct (forget_check_inv _ _ Hz) as (Hc & Ho & Hp & Hm).
  unfold z3_push, forget_check. cbn. rewrite Hc, Ho, Hp, Hm. auto.
Qed.

Lemma respects_z3_pop : respects_check z3_pop.
Proof.
  intros z z' Hz. destruct (forget_check_inv _ _ Hz) as (Hc & Ho & Hp & Hm).
  unfold z3_pop. rewrite Ho.
  destruct (outer_scopes z') as [|scope below]; cbn.
  - split; [reflexivity|exact Hz].
  - unfold forget_check. cbn. rewrite Hp, Hm. auto.
Qed.

Lemma respects_z3_assert a : respects_check (z3_assert a).
Proof.
  intros z z' Hz. destruct (forget_check_inv _ _ Hz) as (Hc & Ho & Hp & Hm).
  unfold z3_assert, forget_check. cbn. rewrite Hc, Ho, Hp, Hm. auto.
Qed.

Lemma respects_z3_reset : respects_check z3_reset.
Proof.
  intros z z' Hz. destruct (forget_check_inv _ _ Hz) as (Hc & Ho & Hp & Hm).
  unfold z3_reset, forget_check. cbn. rewrite Hp, Hm. auto.
Qed.

Lemma respects_check_bind {A B} (m : Method Z3SolverRef A)
    (k : A -> Method Z3SolverRef B) :
  respects_check m -> (forall a, respects_check (k a)) ->
  respects_check (bind m k).
Proof.
  intros Hm Hk z z' Hz. unfold bind.
  destruct (Hm z z' Hz) as [Hr Hst].
  destruct (m z) as [[a|e] z1], (m z') as [[a'|e'] z1']; cbn in Hr, Hst;
    try discriminate Hr.
  - injection Hr as <-. apply Hk, Hst.
  - injection Hr as <-. split; [reflexivity|exact Hst].
Qed.

Lemma respects_check_ret {A} (a : A) : respects_check (ret a).
Proof. intros z z' Hz. split; [reflexivity|exact Hz]. Qed.

Section EngineRespects.
Context `{Z3Engine}.

Lemma respects_z3_check_ lits : respects_check (z3_check_ lits).
Proof.
  intros z z' Hz. destruct (forget_check_inv _ _ Hz) as (Hc & Ho & Hp & Hm).
  unfold z3_check_, assertion_stack, forget_check. cbn.
  rewrite Hc, Ho, Hp, Hm. auto.
Qed.

Lemma respects__set_option name value :
  respects_check (_set_option name value).
Proof.
  intros z z' Hz. destruct (forget_check_inv _ _ Hz) as (Hc & Ho & Hp & Hm).
  unfold _set_option, z3_set.
  destruct (z3_accepts name value); cbn.
  - unfold forget_check. cbn. rewrite Hc, Ho, Hp, Hm. auto.
  - split; [reflexivity|exact Hz].
Qed.

Lemma respects_apply_options o : respects_check (apply_options o).
Proof.
  unfold apply_options.
  apply respects_check_bind; [apply respects__set_option|intros _].
  apply respects_check_bind.
  { destruct (unsat_cores_mode o);
      [apply respects__set_option|apply respects_check_ret]. }
  intros _. apply respects_check_bind.
  { destruct (random_seed o);
      [apply respects__set_option|apply respects_check_ret]. }
  intros _. induction (solver_options o) as [|kv kvs IH]; cbn [for_each].
  - apply respects_check_ret.
  - apply respects_check_bind; [apply respects__set_option|intros _; exact IH].
Qed.

End EngineRespects.

Section SessionRespects.
Context `{TypeOracle} `{Z3Engine}.
Local Open Scope method_scope.

Lemma respects__pop_body n : respects_status (_pop_body n).
Proof.
  apply respects_for_each. intros _.
  apply respects_on_z3, respects_z3_pop.
Qed.

Lemma respects__push_body n : respects_status (_push_body n).
Proof.
  apply respects_for_each. intros _.
  apply respects_on_z3, respects_z3_push.
Qed.

Lemma respects_clear_pending_pop {A} (m : Method Z3Solver A) :
  respects_status m -> respects_status (clear_pending_pop m).
Proof.
  intros Hm.
  apply (respects_ext _
           (fun self =>
              (fun b : bool =>
                 if b then
                   (set_pending_pop false ;;; _pop_body 1 ;;;
                    set_last_command "pop" ;;; m)
                 else m) (pending_pop self) self)).
  { intros s. unfold clear_pending_pop. destruct (pending_pop s);
      reflexivity. }
  apply (respects_read pending_pop
           (fun b : bool =>
              if b then
                (set_pending_pop false ;;; _pop_body 1 ;;;
                 set_last_command "pop" ;;; m)
              else m)).
  - intros s s' Hs. apply forget_status_inv in Hs. tauto.
  - intros [|]; [|exact Hm].
    apply respects_bind; [apply respects_set_pending_pop|intros _].
    apply respects_bind; [apply respects__pop_body|intros _].
    apply respects_bind; [apply respects_set_last_command|intros _].
    exact Hm.
Qed.

Lemma respects_push n : respects_status (push n).
Proof.
  apply respects_bind; [|intros _; apply respects_set_last_command].
  apply respects_clear_pending_pop, respects__push_body.
Qed.

Lemma respects__add_assertion formula named :
  respects_status (_add_assertion formula named).
Proof.
  apply respects_clear_pending_pop.
  apply respects_bind.
  { unfold _assert_is_boolean.
    destruct (is_bool_type (get_type formula));
      [apply respects_ret|apply respects_raise]. }
  intros _. apply respects_bind; [apply respects_lift|intros term].
  apply (respects_ext _
           (fun self =>
              (fun mode =>
                 match named, mode with
                 | Some _, Some _ =>
                     key <~ on_converter
                              (on_mgr (FormulaManager.FreshSymbol BOOL
                                         "_assertion_")) ;;
                     tkey <~ lift (convert key) ;;
                     on_z3 (z3_assert_and_track term tkey) ;;;
                     ret (Named key named formula)
                 | _, _ => on_z3 (z3_add term) ;;; ret (Untracked formula)
                 end) (unsat_cores_mode (options self)) self)).
  { intros s. destruct named, (unsat_cores_mode (options s)); reflexivity. }
  apply (respects_read (fun self => unsat_cores_mode (options self))
           (fun mode =>
              match named, mode with
              | Some _, Some _ =>
                  key <~ on_converter
                           (on_mgr (FormulaManager.FreshSymbol BOOL
                                      "_assertion_")) ;;
                  tkey <~ lift (convert key) ;;
                  on_z3 (z3_assert_and_track term tkey) ;;;
                  ret (Named key named formula)
              | _, _ => on_z3 (z3_add term) ;;; ret (Untracked formula)
              end)).
  - intros s s' Hs. apply forget_status_inv in Hs.
    destruct Hs as (_ & -> & _). reflexivity.
  - intros mode.
    assert (Hplain : respects_status
                       (on_z3 (z3_add term) ;;; ret (Untracked formula))).
    { apply respects_bind; [|intros _; apply respects_ret].
      apply respects_on_z3, respects_z3_assert. }
    destruct named as [name|], mode as [mode|]; try exact Hplain.
    apply respects_bind; [apply respects_on_converter|intros key].
    apply respects_bind; [apply respects_lift|intros tkey].
    apply respects_bind; [|intros _; apply respects_ret].
    apply respects_on_z3, respects_z3_assert.
Qed.

Lemma respects_add_assertion formula named :
  respects_status (add_assertion formula named).
Proof.
  apply respects_bind; [apply respects__add_assertion|intros tracked].
  apply respects_bind; [|intros _; apply respects_set_last_command].
  destruct tracked; [apply respects_ret|apply respects_record_named].
Qed.

Lemma respects__solve_check assumptions :
  respects_status (_solve_check assumptions).
Proof.
  destruct assumptions as [assumptions|]; cbn [_solve_check].
  - apply respects_bind; [apply respects_lift|intros split].
    apply respects_bind.
    + destruct (bool_decide _); [|apply respects_ret].
      apply respects_bind; [apply respects_push|intros _].
      apply respects_bind; [apply respects_add_assertion|intros _].
      apply respects_set_pending_pop.
    + intros _. apply respects_on_z3, respects_z3_check_.
  - apply respects_on_z3, respects_z3_check_.
Qed.

Lemma respects__solve assumptions : respects_status (_solve assumptions).
Proof.
  apply respects_clear_pending_pop.
  apply respects_bind; [apply respects__solve_check|].
  intros [| |]; [apply respects_ret|apply respects_ret|apply respects_raise].
Qed.

(** Every mutating command respects the status. *)
Lemma respects_run_command (c : Command) : respects_status (run_command c).
Proof.
  destruct c; cbn [run_command].
  - apply respects_clear_pending_pop.
    apply respects_bind; [apply respects_on_z3, respects_z3_reset|].
    intros _.
    apply (respects_read options (fun o => on_z3 (apply_options o))).
    + intros s s' Hs. apply forget_status_inv in Hs. tauto.
    + intros o. apply respects_on_z3, respects_apply_options.
  - apply respects_clear_pending_pop, respects_raise.
  - apply respects_forget, respects__add_assertion.
  - apply respects_forget, respects__solve.
  - apply respects_clear_pending_pop, respects_raise.
  - apply respects_clear_pending_pop, respects__push_body.
  - apply respects_clear_pending_pop, respects__pop_body.
Qed.

End SessionRespects.

Section DeferredPop.
Context `{TypeOracle} `{Z3Engine}.
Local Open Scope method_scope.

Lemma clear_pending_pop_discharge {A} (m : Method Z3Solver A) self :
  pending_pop self = true -> outer_scopes (z3 self) <> [] ->
  clear_pending_pop m self = m (discharge self).
Proof.
  intros Hpending Houter. unfold clear_pending_pop, discharge.
  rewrite Hpending.
  destruct self as [[cs os ps lc mm] o c pp na lr lcmd].
  cbn in Houter |- *. destruct os as [|scope below]; [contradiction|].
  reflexivity.
Qed.

Lemma run_command_discharge (c : Command) self :
  pending_pop self = true -> outer_scopes (z3 self) <> [] ->
  run_command c self = run_command c (discharge self).
Proof.
  intros Hpending Houter.
  assert (Hidle : pending_pop (discharge self) = false).
  { unfold discharge. destruct (outer_scopes (z3 self)); [contradiction|].
    reflexivity. }
  destruct c; cbn [run_command];
    unfold _reset_assertions, declare_variable, all_sat, _push, _pop,
      _add_assertion, _solve, forget;
    rewrite (clear_pending_pop_discharge _ self Hpending Houter);
    rewrite (clear_pending_pop_idle _ (discharge self) Hidle);
    reflexivity.
Qed.

Lemma _solve_check_composite (assumptions : list FNode) (self : Z3Solver)
    (lits : list Z3_ast) (others : list FNode) (t : Z3_ast) :
  pending_pop self = false ->
  split_assumptions assumptions [] [] = Ok (lits, others) ->
  others <> [] ->
  is_bool_type (get_type (FormulaManager.And others)) = true ->
  convert (FormulaManager.And others) = Ok t ->
  _solve_check (Some assumptions) self
  = (Ok (z3_check ([Added t] :: assertion_stack (z3 self))
           (parameters (z3 self)) lits),
     mk_solver (scope_pushed t lits (z3 self)) (options self)
       (converter self) true (named_assertions self) (last_result self)
       (Some "assert")).
Proof.
  intros Hpending Hsplit Hothers Hbool Hconv.
  unfold _solve_check. unfold bind at 1, lift. rewrite Hsplit.
  cbn [fst snd].
  rewrite bool_decide_eq_true_2
    by (destruct others; [contradiction|cbn; lia]).
  destruct self as [[cs os ps lc mm] o c pp na lr lcmd].
  cbn in Hpending. subst pp.
  unfold bind at 1. unfold bind at 1.
  replace (push 1 _)
    with (@Ok unit tt,
          mk_solver (mk_z3 [] (cs :: os) ps lc mm) o c false na lr
            (Some "push")) by reflexivity.
  unfold bind at 1.
  rewrite (add_assertion_effect _ None _ t)
    by first [assumption|reflexivity].
  reflexivity.
Qed.

End DeferredPop.

Section Transparency.
Context `{TypeOracle} `{Z3Engine}.

Lemma forget_status_assertion_stack s s' :
  forget_status s = forget_status s' ->
  assertion_stack (z3 s) = assertion_stack (z3 s').
Proof.
  intros Hs. apply forget_status_inv in Hs as (Hz & _).
  apply forget_check_inv in Hz as (Hc & Ho & _).
  unfold assertion_stack. rewrite Hc, Ho. reflexivity.
Qed.

Lemma solve_composite_state (assumptions : list FNode) (self : Z3Solver)
    (lits : list Z3_ast) (others : list FNode) (t : Z3_ast) :
  pending_pop self = false ->
  split_assumptions assumptions [] [] = Ok (lits, others) ->
  others <> [] ->
  is_bool_type (get_type (FormulaManager.And others)) = true ->
  convert (FormulaManager.And others) = Ok t ->
  exists r lr,
    solve (Some assumptions) self
    = (r, mk_solver (scope_pushed t lits (z3 self)) (options self)
            (converter self) true (named_assertions self) lr
            (Some "solve")).
Proof.
  intros Hpending Hsplit Hothers Hbool Hconv.
  pose proof (_solve_check_composite assumptions self lits others t
                Hpending Hsplit Hothers Hbool Hconv) as Hcheck.
  unfold solve, _solve.
  rewrite clear_pending_pop_idle by exact Hpending.
  unfold bind at 1. rewrite Hcheck.
  destruct (z3_check _ _ _); eexists; eexists; reflexivity.
Qed.

(** The deferred pop of [solve], when the assertion inside it
    succeeds.  Let [solve] be called, on a session with no deferred pop
    pending, with assumptions of which at least one is no literal, whose
    conjunction is Boolean and lowers to [t].  Then
    - the engine's assertion stack has exactly one scope more, which
      holds the assertion of [t] and nothing else, and the deferred pop
      is marked;
    - the next mutating command, whichever it is, discharges the pop
      before its body runs: it returns what it would have returned had
      [solve] not been called, and leaves the session it would have left
      then, up to the recorded status; in particular the assertion stack
      it leaves is the one it would have left on the session as it was
      before [solve]. *)
Theorem deferred_pop_is_transparent (assumptions : list FNode)
    (self : Z3Solver) (lits : list Z3_ast) (others : list FNode)
    (t : Z3_ast) :
  pending_pop self = false ->
  split_assumptions assumptions [] [] = Ok (lits, others) ->
  others <> [] ->
  is_bool_type (get_type (FormulaManager.And others)) = true ->
  convert (FormulaManager.And others) = Ok t ->
  let after := snd (solve (Some assumptions) self) in
  assertion_stack (z3 after) = [Added t] :: assertion_stack (z3 self) /\
  pending_pop after = true /\
  assertion_stack (z3 (discharge after)) = assertion_stack (z3 self) /\
  forall c : Command,
    fst (run_command c after) = fst (run_command c self) /\
    forget_status (snd (run_command c after))
    = forget_status (snd (run_command c self)) /\
    assertion_stack (z3 (snd (run_command c after)))
    = assertion_stack (z3 (snd (run_command c self))).
Proof.
  intros Hpending Hsplit Hothers Hbool Hconv after.
  destruct (solve_composite_state assumptions self lits others t
              Hpending Hsplit Hothers Hbool Hconv) as (r & lr & Hsolve).
  subst after. rewrite Hsolve. cbn [snd].
  set (after := mk_solver _ _ _ _ _ _ _).
  assert (Hsame : forget_status (discharge after) = forget_status self).
  { destruct self as [[cs os ps lc mm] o c pp na lr0 lcmd].
    cbn in Hpending. subst pp. reflexivity. }
  split; [reflexivity|]. split; [reflexivity|].
  split; [apply forget_status_assertion_stack, Hsame|].
  intros c.
  rewrite (run_command_discharge c after) by (cbn; congruence).
  destruct (respects_run_command c _ _ Hsame) as [Hr Hst].
  split; [exact Hr|]. split; [exact Hst|].
  apply forget_status_assertion_stack, Hst.
Qed.

End Transparency.

Lemma deferred_pop_is_transparent_witness :
  let a := [Sample.p; FormulaManager.Or [Sample.p; Sample.q];
            FormulaManager.Implies Sample.q Sample.p] in
  let engine := constant_engine sat [] [] None in
  let after := snd (@solve sample_oracle engine (Some a)
                      (Sample.session None)) in
  let t := Z3_mk_and [Z3_mk_or [Z3_mk_const "p" BoolSort;
                                Z3_mk_const "q" BoolSort];
                      Z3_mk_implies (Z3_mk_const "q" BoolSort)
                        (Z3_mk_const "p" BoolSort)] in
  assertion_stack (z3 after) = [[Added t]; []] /\
  assertion_stack
    (z3 (snd (@run_command sample_oracle engine
                (Cmd_add_assertion Sample.q None) after)))
  = [[Added (Z3_mk_const "q" BoolSort)]].
Proof.
  intros a engine after t.
  pose proof (@deferred_pop_is_transparent sample_oracle engine a
                (Sample.session None) [Z3_mk_const "p" BoolSort]
                [FormulaManager.Or [Sample.p; Sample.q];
                 FormulaManager.Implies Sample.q Sample.p]
                t eq_refl eq_refl ltac:(discriminate) eq_refl eq_refl)
    as (Hstack & _ & _ & Hnext).
  split; [exact Hstack|].
  destruct (Hnext (Cmd_add_assertion Sample.q None)) as (_ & _ & Hq).
  unfold after. rewrite Hq. reflexivity.
Defined.

(** C5, at the failing input.  [solve] under the assumptions [p] and
    [s = s], where [s] is a symbol of string type: the equality is no
    literal, so a scope is pushed for it, and asserting it raises, since
    the converter lowers no string symbol.  The scope stays pushed and no
    deferred pop is marked: the next mutating command (here the assertion
    of [q]) leaves an assertion stack one scope deeper than it leaves on
    the session as it was before [solve]. *)
Lemma failed_solve_leaks_scope :
  let a := [Sample.p; FormulaManager.Equals Sample.s Sample.s] in
  let engine := constant_engine sat [] [] None in
  let self := Sample.session None in
  let run := @solve sample_oracle engine (Some a) self in
  fst run
  = Raise (ConvertExpressionError "Unsupported string symbol: %s"
             (FormulaObject Sample.s)) /\
  assertion_stack (z3 self) = [[]] /\
  assertion_stack (z3 (snd run)) = [[]; []] /\
  pending_pop (snd run) = false /\
  assertion_stack
    (z3 (snd (@run_command sample_oracle engine
                (Cmd_add_assertion Sample.q None) (snd run))))
  = [[Added (Z3_mk_const "q" BoolSort)]; []] /\
  assertion_stack
    (z3 (snd (@run_command sample_oracle engine
                (Cmd_add_assertion Sample.q None) self)))
  = [[Added (Z3_mk_const "q" BoolSort)]].
Proof. vm_compute. repeat split. Qed.


(** ** The memo table of [back] *)

Lemma children_ast_size (c t : Z3_ast) :
  c ∈ children t -> (ast_size c < ast_size t)%nat.
Proof.
  destruct t as [| |d xs| |fa bs b|]; cbn [children];
    try (intros Hin; inversion Hin; fail).
  - cbn [ast_size]. induction xs as [|x xs IH]; intros Hin.
    + inversion Hin.
    + cbn [foldr]. apply elem_of_cons in Hin as [->|Hin]; [lia|].
      specialize (IH Hin). lia.
  - intros Hin. apply list_elem_of_singleton in Hin as ->.
    cbn [ast_size]. lia.
Qed.

Lemma children_array_rank (rk : string -> nat) (c t : Z3_ast) :
  c ∈ children t -> (array_rank rk c <= array_rank rk t)%nat.
Proof.
  destruct t as [| |d xs| |fa bs b|]; cbn [children];
    try (intros Hin; inversion Hin; fail).
  - cbn [array_rank]. induction xs as [|x xs IH]; intros Hin.
    + inversion Hin.
    + cbn [foldr]. apply elem_of_cons in Hin as [->|Hin]; [lia|].
      specialize (IH Hin). lia.
  - intros Hin. apply list_elem_of_singleton in Hin as ->.
    cbn [array_rank]. lia.
Qed.

(** The rank of an as-array term is above the rank of its function. *)
Lemma as_array_rank (rk : string -> nat) (expr : Z3_ast) (f : string) :
  is_as_array expr = true -> get_as_array_func expr = Some f ->
  (rk f < array_rank rk expr)%nat.
Proof.
  destruct expr as [| |d xs| | |]; try discriminate.
  unfold is_as_array, is_app_of. cbn [Z3_get_app_decl_kind get_as_array_func].
  intros Hk Hf. apply bool_decide_eq_true in Hk. injection Hk as Hk.
  cbn [array_rank]. unfold decl_array_rank.
  rewrite decide_True by exact Hk.
  destruct (decl_parameters d) as [|[i|g] ps]; try discriminate.
  injection Hf as ->. lia.
Qed.

(** *** Entries of the table under its updates *)

Lemma resolved_memo_set_ne self k v k0 f :
  k <> k0 -> resolved (memo_set k v self) k0 f <-> resolved self k0 f.
Proof.
  intros Hne. unfold resolved, memo_set. cbn [_back_memoization].
  rewrite dict_get_set_ne by exact Hne. reflexivity.
Qed.

Lemma pending_memo_set_ne self k v k0 :
  k <> k0 -> pending (memo_set k v self) k0 <-> pending self k0.
Proof.
  intros Hne. unfold pending, memo_set. cbn [_back_memoization].
  rewrite dict_get_set_ne by exact Hne. reflexivity.
Qed.

Lemma resolved_memo_set_eq self k f g :
  resolved (memo_set k (Some f) self) k g <-> f = g.
Proof.
  unfold resolved, memo_set. cbn [_back_memoization].
  rewrite dict_get_set_eq. split; [intros [= ->]|intros ->]; reflexivity.
Qed.

Lemma resolved_not_pending self k f : resolved self k f -> ~ pending self k.
Proof. unfold resolved, pending. intros -> [=]. Qed.

Lemma resolved_fun self k f g : resolved self k f -> resolved self k g -> f = g.
Proof. unfold resolved. intros -> [= ->]. reflexivity. Qed.

Lemma same_table_refl self : same_table self self.
Proof. split; reflexivity. Qed.

Lemma same_table_resolved self self1 k f :
  same_table self self1 -> resolved self1 k f <-> resolved self k f.
Proof. intros [Hm _]. unfold resolved. rewrite Hm. reflexivity. Qed.

Lemma same_table_pending self self1 k :
  same_table self self1 -> pending self1 k <-> pending self k.
Proof. intros [Hm _]. unfold pending. rewrite Hm. reflexivity. Qed.

Lemma same_table_log_consistent self self1 :
  same_table self self1 -> log_consistent self -> log_consistent self1.
Proof.
  intros [Hm Hl] [Hnd Hev]. unfold log_consistent, resolved in *.
  rewrite Hm, Hl. split; assumption.
Qed.

Lemma extends_refl self : log_consistent self -> extends self self.
Proof.
  intros Hlog. split; [exact Hlog|]. split; [auto|]. split; [reflexivity|].
  exists []. split; [reflexivity|]. intros e He. inversion He.
Qed.

Lemma same_table_extends self self1 :
  same_table self self1 -> log_consistent self -> extends self self1.
Proof.
  intros Hsame Hlog. split; [eapply same_table_log_consistent; eauto|].
  split; [intros k f; apply same_table_resolved, Hsame|].
  split; [intros k; apply same_table_pending, Hsame|].
  exists []. split; [apply Hsame|]. intros e He. inversion He.
Qed.

Lemma extends_trans self self1 self2 :
  extends self self1 -> extends self1 self2 -> extends self self2.
Proof.
  intros (_ & Hr1 & Hp1 & new1 & Hc1 & Hn1)
         (Hlog2 & Hr2 & Hp2 & new2 & Hc2 & Hn2).
  split; [exact Hlog2|]. split; [auto|].
  split; [intros k; rewrite Hp2; apply Hp1|].
  exists (new2 ++ new1)%list. split.
  - rewrite Hc2, Hc1. apply app_assoc.
  - intros e He g Hres. apply elem_of_app in He as [He|He].
    + exact (Hn2 e He g (Hr1 _ _ Hres)).
    + exact (Hn1 e He g Hres).
Qed.

(** *** The log under the updates of the table *)

Lemma log_consistent_memo_set self k v :
  log_consistent self -> (forall f, ~ resolved self k f) ->
  log_consistent (memo_set k v self).
Proof.
  intros [Hnd Hev] Hk. split; [exact Hnd|].
  intros e He. destruct (Hev e He) as [Hres Hargs]. split.
  - apply resolved_memo_set_ne; [|exact Hres].
    intros Heq. rewrite Heq in Hk. exact (Hk _ Hres).
  - eapply Forall2_impl; [exact Hargs|]. intros c a Hc. cbn beta in *.
    apply resolved_memo_set_ne; [|exact Hc].
    intros Heq. rewrite Heq in Hk. exact (Hk _ Hc).
Qed.

Lemma log_keys_resolved self k :
  log_consistent self -> k ∈ ev_key <$> computed self ->
  exists f, resolved self k f.
Proof.
  intros [_ Hev] Hin. apply list_elem_of_fmap in Hin as (e & -> & He).
  exists (ev_result e). apply Hev, He.
Qed.

Lemma log_consistent_record self k args res :
  log_consistent self -> pending self k ->
  Forall2 (fun c a => resolved self (c, snd k) a) (children (fst k)) args ->
  log_consistent (log_event (mk_event k args res)
                    (memo_set k (Some res) self)).
Proof.
  intros Hlog Hpend Hargs.
  assert (Hk : forall f, ~ resolved self k f).
  { intros f Hres. exact (resolved_not_pending _ _ _ Hres Hpend). }
  destruct (log_consistent_memo_set self k (Some res) Hlog Hk)
    as [Hnd Hev].
  split.
  - cbn [log_event computed fmap list_fmap]. apply NoDup_cons. split.
    + intros Hin. destruct (log_keys_resolved self k Hlog Hin) as [f Hf].
      exact (Hk f Hf).
    + exact Hnd.
  - intros e He. cbn [log_event computed] in He.
    apply elem_of_cons in He as [->|He].
    + cbn [ev_key ev_result ev_args]. split.
      * apply resolved_memo_set_eq. reflexivity.
      * eapply Forall2_impl; [exact Hargs|]. intros c a Hc. cbn beta in *.
        apply resolved_memo_set_ne; [|exact Hc].
        intros Heq. rewrite Heq in Hk. exact (Hk _ Hc).
    + exact (Hev e He).
Qed.

Section MemoInvariant.
Context `{TypeOracle}.

Lemma memo_arg_Ok model self c f :
  memo_arg model self c = Ok f -> resolved self (c, model) f.
Proof.
  unfold memo_arg, resolved.
  destruct (dict_get _ _) as [[g|]|]; intros [= ->]. reflexivity.
Qed.

Lemma mapM_memo_arg_Ok model self cs args :
  mapM (memo_arg model self) cs = Ok args ->
  Forall2 (fun c a => resolved self (c, model) a) cs args.
Proof.
  revert args. induction cs as [|c cs IH]; intros args Hm.
  - cbn in Hm. injection Hm as <-. constructor.
  - cbn [mapM] in Hm.
    destruct (memo_arg model self c) as [f|e] eqn:Hc;
      [|discriminate Hm].
    destruct (mapM (memo_arg model self) cs) as [args'|e] eqn:Hcs;
      [|discriminate Hm].
    cbn in Hm. injection Hm as <-.
    constructor; [apply memo_arg_Ok, Hc|]. apply IH. reflexivity.
Qed.

End MemoInvariant.

Section SingleTerm.
Context `{TypeOracle}.

Lemma on_mgr_same_table {A} (m : Method FormulaManager.t A) self r self1 :
  on_mgr m self = (r, self1) -> same_table self self1.
Proof.
  unfold on_mgr. destruct (m (mgr self)) as [r' m']. intros [= _ <-].
  split; reflexivity.
Qed.

Lemma same_table_trans self self1 self2 :
  same_table self self1 -> same_table self1 self2 -> same_table self self2.
Proof. intros [Hm1 Hl1] [Hm2 Hl2]. split; congruence. Qed.

Lemma back_symbol_same_table expr self r self1 :
  back_symbol expr self = (r, self1) -> same_table self self1.
Proof.
  unfold back_symbol.
  destruct (on_mgr (FormulaManager.get_symbol (expr_name expr)) self)
    as [r0 s0] eqn:Hget.
  apply on_mgr_same_table in Hget.
  assert (Hdef : (r0, s0) = (r, self1) -> same_table self self1).
  { intros [= _ <-]. exact Hget. }
  destruct r0 as [f|e]; [exact Hdef|].
  destruct e; try exact Hdef.
  unfold bind, lift.
  destruct (_z3_to_type (Z3_get_sort expr)) as [ty|e].
  - intros Hsym. apply on_mgr_same_table in Hsym.
    eapply same_table_trans; eassumption.
  - intros [= _ <-]. exact Hget.
Qed.

(** A call of [_back_single_term] that returns either leaves the table
    and the log alone, or is the as-array case. *)
Lemma _back_single_term_cases (back : BackRec) expr args model self res
    self1 :
  _back_single_term back expr args model self = (Ok res, self1) ->
  same_table self self1 \/
  (is_as_array expr = true /\
   back_as_array back expr model self = (Ok res, self1)).
Proof.
  unfold _back_single_term.
  destruct (negb (is_expr expr)); [discriminate|].
  destruct (is_quantifier expr); [discriminate|].
  destruct (negb (nary_ok expr args)); [discriminate|].
  destruct (Z3_get_app_decl_kind expr) as [kind|]; [|discriminate].
  destruct (_back_fun kind) as [fun_|].
  { unfold lift. intros [= _ <-]. left. apply same_table_refl. }
  destruct (is_const expr).
  - assert (Hrest :
      (if is_as_array expr then back_as_array back expr model
       else if is_algebraic_value expr
            then ret (FormulaManager._Algebraic (expr_name expr))
            else back_symbol expr) self = (Ok res, self1) ->
      same_table self self1 \/
      (is_as_array expr = true /\
       back_as_array back expr model self = (Ok res, self1))).
    { destruct (is_as_array expr); [intros Hb; right; auto|].
      destruct (is_algebraic_value expr).
      - intros [= _ <-]. left. apply same_table_refl.
      - intros Hs. left. eapply back_symbol_same_table, Hs. }
    destruct expr as [n d s|n w|d xs|i s|fa bs b|d]; try exact Hrest.
    + destruct s; try exact Hrest;
        intros [= _ <-]; left; apply same_table_refl.
    + intros [= _ <-]. left. apply same_table_refl.
  - destruct (is_function expr); [|discriminate].
    unfold bind.
    destruct (on_mgr (FormulaManager.get_symbol (expr_name expr)) self)
      as [[fsymbol|e] s0] eqn:Hget; [|discriminate].
    intros [= _ <-]. left. eapply on_mgr_same_table, Hget.
Qed.

End SingleTerm.

Section LoopInvariant.
Context `{TypeOracle}.
Variable rk : string -> nat.

Lemma extends_all_pending_foreign b m self self1 :
  extends self self1 -> all_pending_foreign rk b m self ->
  all_pending_foreign rk b m self1.
Proof.
  intros (_ & _ & Hp & _) Hall k Hk. apply Hall, Hp, Hk.
Qed.

(** A call of [back] from inside [_back_single_term], on a term below
    every pending key. *)
Lemma nested_back_extends n b m expr self v self1 :
  loop_spec rk n -> stratified rk m -> log_consistent self ->
  (array_rank rk expr <= b)%nat -> all_pending_foreign rk b m self ->
  back n expr (Some m) self = (Ok v, self1) ->
  extends self self1.
Proof.
  intros Hspec Hstrat Hlog Hrank Hforeign Hback.
  unfold back, bind in Hback.
  destruct (back_loop n (Some m) [expr] self) as [[[]|e] s1] eqn:Hloop;
    [|discriminate Hback].
  assert (s1 = self1) as -> by (injection Hback; auto).
  destruct (Hspec b (Some m) [expr] self self1 Hstrat) as
    (Hlog1 & Hmono & Hpend & _ & Hnew); [|exact Hloop|].
  - split; [exact Hlog|]. split.
    + intros x Hx. apply list_elem_of_singleton in Hx as ->. exact Hrank.
    + intros t Ht Hle. exfalso. apply (Hforeign _ Ht). split; [reflexivity|].
      exact Hle.
  - split; [exact Hlog1|]. split; [exact Hmono|]. split; [|exact Hnew].
    intros k. rewrite Hpend. split; [tauto|]. intros Hk.
    split; [exact Hk|]. apply Hforeign, Hk.
Qed.

Lemma back_entries_extends n b m es assign self r self1 :
  loop_spec rk n -> stratified rk m -> log_consistent self ->
  (forall e t, e ∈ es -> t ∈ (fst e ++ [snd e])%list ->
               (array_rank rk t <= b)%nat) ->
  all_pending_foreign rk b m self ->
  back_entries (back n) m es assign self = (Ok r, self1) ->
  extends self self1.
Proof.
  intros Hspec Hstrat. revert assign self.
  induction es as [|[arg_values value] es IH];
    intros assign self Hlog Hrank Hforeign Hrun.
  - cbn in Hrun. injection Hrun as _ <-. apply extends_refl, Hlog.
  - cbn [back_entries] in Hrun.
    destruct arg_values as [|arg_value [|? ?]]; try discriminate Hrun.
    unfold bind in Hrun.
    destruct (back n arg_value (Some m) self) as [[idx|e] s1] eqn:Hidx;
      [|discriminate Hrun].
    destruct (back n value (Some m) s1) as [[val|e] s2] eqn:Hval;
      [|discriminate Hrun].
    assert (Hext1 : extends self s1).
    { eapply (nested_back_extends n b m arg_value); eauto.
      apply (Hrank ([arg_value], value)); [left|]. cbn. left. }
    assert (Hext2 : extends s1 s2).
    { eapply (nested_back_extends n b m value); eauto.
      - apply Hext1.
      - apply (Hrank ([arg_value], value)); [left|]. cbn. right. left.
      - eapply extends_all_pending_foreign; [exact Hext1|exact Hforeign]. }
    eapply extends_trans; [exact Hext1|].
    eapply extends_trans; [exact Hext2|].
    apply (IH (dict_set idx val assign) s2).
    + apply Hext2.
    + intros e t He. apply Hrank. right. exact He.
    + eapply extends_all_pending_foreign; [exact Hext2|].
      eapply extends_all_pending_foreign; [exact Hext1|exact Hforeign].
    + exact Hrun.
Qed.

Lemma back_as_array_extends n expr model self res self1 :
  loop_spec rk n -> model_stratified rk model -> log_consistent self ->
  is_as_array expr = true ->
  (forall t, pending self (t, model) ->
             (array_rank rk expr <= array_rank rk t)%nat) ->
  back_as_array (back n) expr model self = (Ok res, self1) ->
  extends self self1.
Proof.
  intros Hspec Hstrat Hlog Harr Hpend Hrun.
  unfold back_as_array in Hrun. destruct model as [m|]; [|discriminate Hrun].
  cbn [model_stratified] in Hstrat.
  unfold bind at 1, lift in Hrun.
  destruct (get_as_array_func expr) as [f|] eqn:Hf; [|discriminate Hrun].
  cbn [from_z3] in Hrun.
  destruct (model_getitem m f) as [interp|] eqn:Hinterp;
    [|discriminate Hrun].
  pose proof (as_array_rank rk expr f Harr Hf) as Hlt.
  assert (Hforeign : all_pending_foreign rk (rk f) m self).
  { intros [t mo] Hk [Heq Hle]. cbn [fst snd] in Heq, Hle. subst mo.
    specialize (Hpend t Hk). lia. }
  unfold bind in Hrun.
  destruct (back n (else_value interp) (Some m) self) as [[default|e] s1]
    eqn:Hdefault; [|discriminate Hrun].
  destruct (back_entries (back n) m (entries interp) [] s1)
    as [[assign|e] s2] eqn:Hentries; [|discriminate Hrun].
  assert (Hext1 : extends self s1).
  { eapply (nested_back_extends n (rk f) m); eauto.
    apply (Hstrat f interp Hinterp). left. }
  assert (Hext2 : extends s1 s2).
  { eapply (back_entries_extends n (rk f) m); eauto.
    - apply Hext1.
    - intros e t He Ht. apply (Hstrat f interp Hinterp). right.
      apply list_elem_of_In, in_flat_map. exists e.
      split; apply list_elem_of_In; assumption.
    - eapply extends_all_pending_foreign; [exact Hext1|exact Hforeign]. }
  assert (Hext : extends self s2) by (eapply extends_trans; eauto).
  unfold lift in Hrun.
  destruct (_z3_to_type (Z3_get_sort expr)) as [[]|e];
    try discriminate Hrun.
  injection Hrun as _ <-. exact Hext.
Qed.

(** A call of [_back_single_term] on a term that is below every pending
    key of its model. *)
Lemma _back_single_term_extends n expr args model self res self1 :
  loop_spec rk n -> model_stratified rk model -> log_consistent self ->
  (forall t, pending self (t, model) ->
             (array_rank rk expr <= array_rank rk t)%nat) ->
  _back_single_term (back n) expr args model self = (Ok res, self1) ->
  extends self self1.
Proof.
  intros Hspec Hstrat Hlog Hpend Hrun.
  apply _back_single_term_cases in Hrun as [Hsame|[Harr Hrun]].
  - apply same_table_extends; assumption.
  - eapply back_as_array_extends; eauto.
Qed.

End LoopInvariant.

Section LoopSpec.
Context `{TypeOracle}.
Variable rk : string -> nat.

Lemma elem_of_rev {A} (y : A) (l : list A) : y ∈ rev l -> y ∈ l.
Proof.
  intros Hy. apply list_elem_of_In. apply in_rev.
  apply list_elem_of_In. exact Hy.
Qed.

Lemma awaiting_nil t : ~ awaiting rk [] t.
Proof.
  intros (above & below_ & Heq & _). destruct above; discriminate Heq.
Qed.

(** Below the top of the stack, a term other than the top still waits. *)
Lemma awaiting_tail x stack t :
  awaiting rk (x :: stack) t -> x <> t -> awaiting rk stack t.
Proof.
  intros (above & below_ & Heq & Hrank) Hne.
  destruct above as [|a above]; cbn in Heq; injection Heq as -> ->.
  - contradiction.
  - exists above, below_. split; [reflexivity|].
    intros y Hy. apply Hrank. right. exact Hy.
Qed.

(** The top of the stack is of at most the rank of a waiting term. *)
Lemma awaiting_top_rank x stack t :
  awaiting rk (x :: stack) t ->
  (array_rank rk x <= array_rank rk t)%nat.
Proof.
  intros (above & below_ & Heq & Hrank).
  destruct above as [|a above]; cbn in Heq; injection Heq as -> ->.
  - lia.
  - apply Hrank. left.
Qed.

(** Pushing a term and its children above a waiting term. *)
Lemma awaiting_push x stack t :
  awaiting rk (x :: stack) t -> x <> t ->
  awaiting rk (rev (children x) ++ x :: stack)%list t.
Proof.
  intros (above & below_ & Heq & Hrank) Hne.
  destruct above as [|a above]; cbn in Heq; injection Heq as -> ->.
  - contradiction.
  - exists (rev (children a) ++ a :: above)%list, below_. split.
    + rewrite <- app_assoc. reflexivity.
    + intros y Hy. apply elem_of_app in Hy as [Hy|Hy].
      * apply elem_of_rev in Hy.
        pose proof (children_array_rank rk y a Hy).
        pose proof (Hrank a ltac:(left)). lia.
      * apply Hrank. exact Hy.
Qed.

Lemma not_foreign_intro b model t :
  (array_rank rk t <= b)%nat -> ~ foreign rk b model (t, model).
Proof. intros Hle Hf. apply Hf. split; [reflexivity|exact Hle]. Qed.

Lemma loop_spec_holds (n : nat) : loop_spec rk n.
Proof.
  induction n as [|n IH]; intros b model stack self self' Hstrat Hinv Hrun.
  { discriminate Hrun. }
  destruct Hinv as (Hlog & Hstack & Hwait).
  destruct stack as [|x stack].
  - (* the stack is empty *)
    rewrite back_loop_nil in Hrun. injection Hrun as <-.
    split; [exact Hlog|]. split; [auto|]. split; [|split].
    + intros [t mo]. split; [|tauto]. intros Hk. split; [exact Hk|].
      intros [Heq Hle]. cbn [fst snd] in Heq, Hle. subst mo.
      exact (awaiting_nil t (Hwait t Hk Hle)).
    + intros y Hy. inversion Hy.
    + exists []. split; [reflexivity|]. intros e He. inversion He.
  - assert (Hx : (array_rank rk x <= b)%nat) by (apply Hstack; left).
    destruct (dict_get (x, model) (_back_memoization self))
      as [[f|]|] eqn:Hget.
    + (* resolved: nothing to do *)
      rewrite (back_loop_resolved _ _ _ _ _ f Hget) in Hrun.
      destruct (IH b model stack self self' Hstrat) as
        (Hlog' & Hmono & Hpend & Hres & Hnew); [|exact Hrun|].
      { split; [exact Hlog|]. split.
        - intros y Hy. apply Hstack. right. exact Hy.
        - intros t Ht Hle. apply (awaiting_tail x); [auto|].
          intros ->. exact (resolved_not_pending _ _ _ Hget Ht). }
      split; [exact Hlog'|]. split; [exact Hmono|]. split; [exact Hpend|].
      split; [|exact Hnew].
      intros y Hy. apply elem_of_cons in Hy as [->|Hy]; [|auto].
      exists f. apply Hmono. exact Hget.
    + (* pending: all children are done, convert the term *)
      rewrite (back_loop_pending _ _ _ _ _ Hget) in Hrun.
      destruct (mapM (memo_arg model self) (children x)) as [args|e]
        eqn:Hargs; [|discriminate Hrun].
      destruct (_back_single_term (back n) x args model self)
        as [[res|e] self1] eqn:Hterm; [|discriminate Hrun].
      assert (Hext : extends self self1).
      { eapply (_back_single_term_extends rk n); eauto.
        intros t Ht.
        destruct (decide (array_rank rk t <= b)%nat) as [Hle|Hgt]; [|lia].
        apply (awaiting_top_rank x stack). auto. }
      destruct Hext as (Hlog1 & Hmono1 & Hpend1 & new1 & Hc1 & Hnew1).
      assert (Hpx : pending self1 (x, model)) by (apply Hpend1, Hget).
      set (self2 := log_event (mk_event (x, model) args res)
                      (memo_set (x, model) (Some res) self1)) in *.
      assert (Hlog2 : log_consistent self2).
      { apply log_consistent_record; [exact Hlog1|exact Hpx|].
        cbn [fst snd]. eapply Forall2_impl.
        - apply mapM_memo_arg_Ok, Hargs.
        - intros c a Hc. apply Hmono1, Hc. }
      assert (Hres2 : forall k g, resolved self1 k g -> resolved self2 k g).
      { intros k g Hk. unfold self2, resolved.
        cbn [log_event memo_set _back_memoization].
        rewrite dict_get_set_ne; [exact Hk|].
        intros <-. exact (resolved_not_pending _ _ _ Hk Hpx). }
      assert (Hpend2 : forall k, pending self2 k
                                 <-> pending self1 k /\ k <> (x, model)).
      { intros k. unfold self2, pending.
        cbn [log_event memo_set _back_memoization].
        destruct (decide ((x, model) = k)) as [<-|Hne].
        - rewrite dict_get_set_eq. split; [discriminate|tauto].
        - rewrite dict_get_set_ne by exact Hne. split; [|tauto].
          intros Hk. split; [exact Hk|]. congruence. }
      destruct (IH b model stack self2 self' Hstrat) as
        (Hlog' & Hmono & Hpend & Hres & new & Hc & Hnew); [|exact Hrun|].
      { split; [exact Hlog2|]. split.
        - intros y Hy. apply Hstack. right. exact Hy.
        - intros t Ht Hle. apply Hpend2 in Ht as [Ht Hne].
          apply (awaiting_tail x); [apply Hwait; [apply Hpend1, Ht|exact Hle]|].
          intros ->. apply Hne. reflexivity. }
      split; [exact Hlog'|]. split; [auto|]. split; [|split].
      * intros k. rewrite Hpend, Hpend2, Hpend1. split; [tauto|].
        intros [Hk Hf]. split; [|exact Hf]. split; [exact Hk|].
        intros ->. exact (not_foreign_intro b model x Hx Hf).
      * intros y Hy. apply elem_of_cons in Hy as [->|Hy]; [|auto].
        exists res. apply Hmono. unfold self2, resolved.
        cbn [log_event memo_set _back_memoization].
        apply dict_get_set_eq.
      * exists (new ++ mk_event (x, model) args res :: new1)%list. split.
        -- rewrite Hc. unfold self2. cbn [log_event computed memo_set].
           rewrite Hc1. rewrite <- app_assoc. reflexivity.
        -- intros e He g Hg. apply elem_of_app in He as [He|He].
           ++ exact (Hnew e He g (Hres2 _ _ (Hmono1 _ _ Hg))).
           ++ apply elem_of_cons in He as [->|He].
              ** exact (resolved_not_pending _ _ _ Hg Hget).
              ** exact (Hnew1 e He g Hg).
    + (* no entry: mark the term, push it and its children *)
      rewrite (back_loop_absent _ _ _ _ _ Hget) in Hrun.
      set (self1 := memo_set (x, model) None self) in *.
      assert (Hnores : forall g, ~ resolved self (x, model) g).
      { intros g Hg. pose proof (eq_trans (eq_sym Hg) Hget) as E.
        discriminate E. }
      assert (Hres1 : forall k g, resolved self k g -> resolved self1 k g).
      { intros k g Hk. apply resolved_memo_set_ne; [|exact Hk].
        intros <-. exact (Hnores g Hk). }
      assert (Hpend1 : forall k, pending self1 k
                                 <-> pending self k \/ k = (x, model)).
      { intros k. unfold self1, pending. cbn [memo_set _back_memoization].
        destruct (decide ((x, model) = k)) as [<-|Hne].
        - rewrite dict_get_set_eq. split; [auto|reflexivity].
        - rewrite dict_get_set_ne by exact Hne. split; [auto|].
          intros [Hk|Hk]; [exact Hk|congruence]. }
      destruct (IH b model (rev (children x) ++ x :: stack)%list self1 self'
                  Hstrat) as
        (Hlog' & Hmono & Hpend & Hres & new & Hc & Hnew); [|exact Hrun|].
      { split; [apply log_consistent_memo_set; assumption|]. split.
        - intros y Hy. apply elem_of_app in Hy as [Hy|Hy].
          + apply elem_of_rev in Hy.
            pose proof (children_array_rank rk y x Hy). lia.
          + apply Hstack. exact Hy.
        - intros t Ht Hle. apply Hpend1 in Ht as [Ht|Ht].
          + apply awaiting_push; [auto|].
            intros ->. pose proof (eq_trans (eq_sym Ht) Hget) as E.
            discriminate E.
          + injection Ht as ->.
            exists (rev (children x)), stack. split; [reflexivity|].
            intros y Hy. apply elem_of_rev in Hy.
            apply children_array_rank, Hy. }
      split; [exact Hlog'|]. split; [auto|]. split; [|split].
      * intros k. rewrite Hpend, Hpend1. split; [|tauto].
        intros [[Hk| ->] Hf]; [tauto|].
        exfalso. exact (not_foreign_intro b model x Hx Hf).
      * intros y Hy. apply Hres. apply elem_of_app. right. exact Hy.
      * exists new. split; [exact Hc|].
        intros e He g Hg. exact (Hnew e He g (Hres1 _ _ Hg)).
Qed.

End LoopSpec.

Lemma log_consistent_parents_agree self :
  log_consistent self -> parents_agree self.
Proof.
  intros [_ Hev] e1 e2 i j c a1 a2 He1 He2 Hm Hc1 Hc2 Ha1 Ha2.
  destruct (Hev e1 He1) as [_ Hf1]. destruct (Hev e2 He2) as [_ Hf2].
  pose proof (Forall2_lookup_lr _ _ _ _ _ _ Hf1 Hc1 Ha1) as Hr1.
  pose proof (Forall2_lookup_lr _ _ _ _ _ _ Hf2 Hc2 Ha2) as Hr2.
  cbv beta in Hr1, Hr2. rewrite <- Hm in Hr2.
  split; [exact (resolved_fun _ _ _ _ Hr1 Hr2)|exact Hr1].
Qed.

Lemma settled_new_converter m : settled (new_converter m).
Proof.
  split; [intros k Hk; discriminate Hk|]. split.
  - constructor.
  - intros e He. inversion He.
Qed.

Section BackMemo.
Context `{TypeOracle}.

Lemma back_resolved n t model self g :
  resolved self (t, model) g ->
  back (S (S n)) t model self = (Ok g, self).
Proof.
  intros Hr. unfold back.
  erewrite bind_Ok; [|rewrite (back_loop_resolved _ _ _ _ _ g Hr);
                      apply back_loop_nil].
  unfold memo_arg. unfold resolved, BackKey in Hr. rewrite Hr.
  reflexivity.
Qed.

(** C9.  Backward conversion memoizes on the key (term, model).  Take a
    converter between two calls of [back] and a model whose functions are
    ranked (none, or one in which no interpretation mentions itself
    through as-array terms), and a call of [back] that returns a node [f].
    Then, in the converter the call leaves:
    - no key is pending and no key was computed twice: the keys of the
      logged calls of [_back_single_term] are pairwise distinct, and each
      logged call returned the node its key is cached to;
    - the term is cached to [f], and what was cached before the call
      still is, to the same node;
    - the calls of [_back_single_term] the call made are on keys that
      were not cached before it;
    - converting again a cached term returns the cached node and leaves
      the converter, so also its log, as it is;
    - two logged calls under the same model got, for a child they share,
      the same node: the one the child is cached to. *)
Theorem back_memoizes (rk : string -> nat) (fuel : nat) (expr : Z3_ast)
    (model : option ModelRef) (self self' : Z3Converter) (f : FNode) :
  settled self -> model_stratified rk model ->
  back fuel expr model self = (Ok f, self') ->
  settled self' /\
  NoDup (ev_key <$> computed self') /\
  resolved self' (expr, model) f /\
  (forall k g, resolved self k g -> resolved self' k g) /\
  (exists new, computed self' = (new ++ computed self)%list /\
     forall e, e ∈ new -> forall g, ~ resolved self (ev_key e) g) /\
  (forall n t g, resolved self' (t, model) g ->
     back (S (S n)) t model self' = (Ok g, self')) /\
  parents_agree self'.
Proof.
  intros [Hnone Hlog] Hstrat Hback.
  apply bind_inv_Ok in Hback as ([] & self1 & Hloop & Harg).
  injection Harg as Harg <-.
  apply memo_arg_Ok in Harg.
  destruct (loop_spec_holds rk fuel (array_rank rk expr) model [expr]
              self self1 Hstrat) as (Hlog' & Hmono & Hpend & _ & Hnew);
    [|exact Hloop|].
  { split; [exact Hlog|]. split.
    - intros x Hx. apply list_elem_of_singleton in Hx as ->. lia.
    - intros t Ht. destruct (Hnone _ Ht). }
  split; [|split; [|split; [|split; [|split; [|split]]]]].
  - split; [|exact Hlog'].
    intros k Hk. apply Hpend in Hk as [Hk _]. exact (Hnone k Hk).
  - apply Hlog'.
  - exact Harg.
  - exact Hmono.
  - exact Hnew.
  - intros n t g. apply back_resolved.
  - apply log_consistent_parents_agree, Hlog'.
Qed.

End BackMemo.

Lemma back_memoizes_witness :
  let not_p := Z3_mk_not (Z3_mk_const "p" BoolSort) in
  let expr := Z3_mk_and [not_p; Z3_mk_or [not_p; Z3_mk_const "q" BoolSort]] in
  let run := @back sample_oracle 20 expr None
               (new_converter Sample.manager) in
  fst run = Ok (FormulaManager.And
                  [FormulaManager.Not Sample.p;
                   FormulaManager.Or [FormulaManager.Not Sample.p;
                                      Sample.q]]) /\
  length (computed (snd run)) = 5%nat /\
  NoDup (ev_key <$> computed (snd run)) /\
  parents_agree (snd run).
Proof.
  intros not_p expr run.
  assert (Hrun : run = (Ok (FormulaManager.And
                  [FormulaManager.Not Sample.p;
                   FormulaManager.Or [FormulaManager.Not Sample.p;
                                      Sample.q]]), snd run)).
  { vm_compute. reflexivity. }
  destruct (@back_memoizes sample_oracle (fun _ => 0%nat) 20 expr None
              (new_converter Sample.manager) (snd run) _
              (settled_new_converter Sample.manager) I Hrun)
    as (_ & Hdup & _ & _ & _ & _ & Hagree).
  split; [rewrite Hrun; reflexivity|].
  split; [vm_compute; reflexivity|].
  split; [exact Hdup|exact Hagree].
Defined.

(** * Further properties of the module *)

(** ** Types and sorts *)

Lemma z3BitVecSort_Ok (w : N) (s : Z3Sort) :
  z3BitVecSort w = Ok s ->
  s = BitVecSort (w mod 2 ^ 32) /\ (w mod 2 ^ 32 <> 0)%N.
Proof.
  unfold z3BitVecSort. case_bool_decide as Hw; [discriminate|].
  intros [= <-]. split; [reflexivity|exact Hw].
Qed.

Lemma z3BitVecSort_fit (w : N) :
  (0 < w < 2 ^ 32)%N -> z3BitVecSort w = Ok (BitVecSort w).
Proof.
  intros Hw. unfold z3BitVecSort. rewrite N.mod_small by lia.
  rewrite bool_decide_false by lia. reflexivity.
Qed.

Lemma _type_to_z3_inv (tp : PySMTType) (s : Z3Sort) :
  _type_to_z3 tp = Ok s -> _z3_to_type s = Ok (wrap_widths tp).
Proof.
  revert s. induction tp as [| | | |w|i IHi e IHe|r ps|name]; intros s;
    cbn; try (intros [= <-]; reflexivity); try discriminate.
  - intros Hs. apply z3BitVecSort_Ok in Hs as [-> _]. reflexivity.
  - destruct (_type_to_z3 i) as [si|]; [|discriminate].
    destruct (_type_to_z3 e) as [se|]; [|discriminate].
    cbn. intros [= <-]. cbn. rewrite (IHi si eq_refl), (IHe se eq_refl).
    reflexivity.
Qed.

Lemma _z3_to_type_inv (s : Z3Sort) (tp : PySMTType) :
  bv_sizes_fit s = true -> _z3_to_type s = Ok tp -> _type_to_z3 tp = Ok s.
Proof.
  revert tp. induction s as [| | |w|d IHd r IHr|name|name]; intros tp Hfit;
    cbn; try (intros [= <-]; reflexivity); try discriminate.
  - intros [= <-]. cbn in *. apply bool_decide_eq_true in Hfit.
    apply z3BitVecSort_fit, Hfit.
  - cbn in Hfit. apply andb_true_iff in Hfit as [Hd Hr].
    destruct (_z3_to_type d) as [td|]; [|discriminate].
    destruct (_z3_to_type r) as [tr|]; [|discriminate].
    cbn. intros [= <-]. cbn. rewrite (IHd td Hd eq_refl), (IHr tr Hr eq_refl).
    reflexivity.
Qed.

Lemma _type_to_z3_fits (tp : PySMTType) (s : Z3Sort) :
  _type_to_z3 tp = Ok s -> bv_sizes_fit s = true.
Proof.
  revert s. induction tp as [| | | |w|i IHi e IHe|r ps|name]; intros s;
    cbn; try (intros [= <-]; reflexivity); try discriminate.
  - intros Hs. apply z3BitVecSort_Ok in Hs as [-> Hw]. cbn.
    apply bool_decide_eq_true.
    pose proof (N.mod_upper_bound w (2 ^ 32)%N ltac:(now vm_compute)) as Hu.
    set (k := (w mod 2 ^ 32)%N) in *. clearbody k. lia.
  - destruct (_type_to_z3 i) as [si|]; [|discriminate].
    destruct (_type_to_z3 e) as [se|]; [|discriminate].
    cbn. intros [= <-]. cbn. rewrite (IHi si eq_refl), (IHe se eq_refl).
    reflexivity.
Qed.

Lemma _type_to_z3_Ok (tp : PySMTType) :
  has_z3_sort tp = true -> exists s, _type_to_z3 tp = Ok s.
Proof.
  induction tp as [| | | |w|i IHi e IHe|r ps|name]; cbn;
    try discriminate; eauto.
  - intros Hw. apply negb_true_iff, bool_decide_eq_false in Hw.
    unfold z3BitVecSort. rewrite bool_decide_false by exact Hw. eauto.
  - intros Hb. apply andb_true_iff in Hb as [Hi He].
    destruct (IHi Hi) as [si ->], (IHe He) as [se ->]. cbn. eauto.
Qed.

(** [_type_to_z3] and [_z3_to_type] are inverse up to the width of
    bit-vectors: the sort a type is given is read back as that type with
    each bit-vector width taken modulo two to the 32 (so as the type
    itself when its widths are below that), it is a sort of the engine,
    and the type read off a sort of the engine is given that sort. *)
Theorem type_sort_round_trip (tp : PySMTType) (s : Z3Sort) :
  (_type_to_z3 tp = Ok s ->
   _z3_to_type s = Ok (wrap_widths tp) /\ bv_sizes_fit s = true) /\
  (bv_sizes_fit s = true -> _z3_to_type s = Ok tp -> _type_to_z3 tp = Ok s).
Proof.
  split.
  - intros Hs. split; [apply _type_to_z3_inv|eapply _type_to_z3_fits];
      exact Hs.
  - apply _z3_to_type_inv.
Qed.

(** [_type_to_z3] gives a sort exactly for the types with no string and
    no function type inside whose bit-vector widths are not zero modulo
    two to the 32; on the others it fails its assertion or raises the
    engine's refusal of the size zero.  [_z3_to_type] gives a type
    exactly for the sorts built from the six kinds it tests, and raises
    [NotImplementedError] on the others. *)
Theorem type_sort_domains :
  (forall tp,
     if has_z3_sort tp then exists s, _type_to_z3 tp = Ok s
     else exists e, _type_to_z3 tp = Raise e /\ is_type_to_z3_error e = true)
  /\
  (forall s,
     if has_pysmt_type s then exists tp, _z3_to_type s = Ok tp
     else _z3_to_type s
          = Raise (NotImplementedError "Unsupported sort in conversion: %s")).
Proof.
  split.
  - induction tp as [| | | |w|i IHi e IHe|r ps|name]; cbn; eauto.
    + unfold z3BitVecSort. case_bool_decide; cbn; eauto.
    + destruct (has_z3_sort i); cbn.
      * destruct IHi as [si ->]. cbn. destruct (has_z3_sort e).
        -- destruct IHe as [se ->]. cbn. eauto.
        -- destruct IHe as (e0 & -> & He0). cbn. eauto.
      * destruct IHi as (e0 & -> & He0). cbn. eauto.
  - induction s as [| | |w|d IHd r IHr|name|name]; cbn; eauto.
    destruct (has_pysmt_type d); cbn.
    + destruct IHd as [td ->]. cbn. destruct (has_pysmt_type r).
      * destruct IHr as [tr ->]. cbn. eauto.
      * rewrite IHr. reflexivity.
    + rewrite IHd. reflexivity.
Qed.

(** ** Options *)

Section OptionFacts.
Context `{Z3Engine}.
Local Open Scope method_scope.

Lemma _set_option_accepted name value z :
  z3_accepts name value = true ->
  _set_option name value z
  = (Ok tt, with_parameters (parameters z ++ [(name, value)]) z).
Proof. intros Ha. unfold _set_option, z3_set. rewrite Ha. reflexivity. Qed.

Lemma _set_option_rejected name value z :
  z3_accepts name value = false ->
  _set_option name value z = (Raise (PysmtValueError set_options_message), z).
Proof. intros Ha. unfold _set_option, z3_set. rewrite Ha. reflexivity. Qed.

Lemma with_parameters_id z : with_parameters (parameters z) z = z.
Proof. destruct z. reflexivity. Qed.

(** Setting a list of parameters in order. *)
Lemma set_all_spec (kvs : list (string * ParamValue)) z :
  for_each kvs (fun kv => _set_option (fst kv) (snd kv)) z
  = match list_find (fun kv => z3_accepts (fst kv) (snd kv) = false) kvs with
    | None => (Ok tt, with_parameters (parameters z ++ kvs) z)
    | Some (i, _) =>
        (Raise (PysmtValueError set_options_message),
         with_parameters (parameters z ++ take i kvs) z)
    end.
Proof.
  revert z. induction kvs as [|[k v] kvs IH]; intros z.
  - cbn. rewrite app_nil_r, with_parameters_id. reflexivity.
  - cbn [for_each list_find fst snd].
    destruct (z3_accepts k v) eqn:Ha.
    + rewrite decide_False by discriminate.
      unfold bind. rewrite (_set_option_accepted k v z Ha). rewrite IH.
      destruct (list_find _ kvs) as [[i kv]|]; cbn [fmap option_fmap option_map prod_map fst snd];
        unfold with_parameters; cbn; rewrite <- app_assoc; reflexivity.
    + rewrite decide_True by reflexivity.
      unfold bind. rewrite (_set_option_rejected k v z Ha). cbn.
      rewrite app_nil_r, with_parameters_id. reflexivity.
Qed.

Lemma apply_options_set_all (o : Z3Options) z :
  apply_options o z
  = for_each (option_settings o) (fun kv => _set_option (fst kv) (snd kv)) z.
Proof.
  unfold apply_options, option_settings.
  destruct (unsat_cores_mode o), (random_seed o); cbn [app for_each fst snd];
    unfold bind, ret;
    repeat (destruct (_set_option _ _ _) as [[[]|?] ?]; try reflexivity).
Qed.

(** [Z3Options.__call__] sets, in this order, [model], [unsat_core] when
    an unsat-core mode is chosen, [random_seed] when a seed is given, and
    the solver options.  When the engine accepts them all, they are added
    to its parameters; otherwise the call raises [PysmtValueError] at the
    first one the engine rejects, the ones before it staying set.  It
    raises nothing else. *)
Theorem apply_options_spec (o : Z3Options) (z : Z3SolverRef) :
  apply_options o z
  = match list_find (fun kv => z3_accepts (fst kv) (snd kv) = false)
            (option_settings o) with
    | None => (Ok tt, with_parameters (parameters z ++ option_settings o) z)
    | Some (i, _) =>
        (Raise (PysmtValueError set_options_message),
         with_parameters (parameters z ++ take i (option_settings o)) z)
    end.
Proof. rewrite apply_options_set_all. apply set_all_spec. Qed.

End OptionFacts.

(** ** Scopes *)

Lemma with_z3_id (self : Z3Solver) : with_z3 (z3 self) self = self.
Proof. destruct self. reflexivity. Qed.

Lemma with_stack_id (z : Z3SolverRef) : with_stack (assertion_stack z) z = z.
Proof. destruct z. reflexivity. Qed.

Section ScopeFacts.
Context `{TypeOracle} `{Z3Engine} `{SetOrder} `{Simplifier}.
Local Open Scope method_scope.

Lemma replicate_shift {A} (n : nat) (x : A) (l : list A) :
  (replicate n x ++ x :: l = x :: replicate n x ++ l)%list.
Proof. induction n as [|n IH]; cbn; [reflexivity|]. rewrite IH. reflexivity. Qed.

Lemma for_each_on_z3 {A} (xs : list A) (m : Method Z3SolverRef unit)
    (self : Z3Solver) :
  for_each xs (fun _ => on_z3 m) self = on_z3 (for_each xs (fun _ => m)) self.
Proof.
  revert self. induction xs as [|x xs IH]; intros self.
  - unfold on_z3. cbn. destruct self; reflexivity.
  - cbn [for_each]. unfold bind. unfold on_z3 at 1 3.
    destruct (m (z3 self)) as [[[]|e] z1]; [|reflexivity].
    rewrite IH. unfold on_z3. cbn. reflexivity.
Qed.

Lemma z3_push_n (levels start : nat) (z : Z3SolverRef) :
  for_each (seq start levels) (fun _ => z3_push) z
  = (Ok tt, with_stack (replicate levels [] ++ assertion_stack z) z).
Proof.
  revert start z. induction levels as [|levels IH]; intros start z.
  - destruct z; reflexivity.
  - cbn [seq for_each]. unfold bind, z3_push at 1. rewrite IH.
    destruct z as [cur outer ps lc n]. unfold assertion_stack. cbn.
    rewrite replicate_shift. destruct levels; reflexivity.
Qed.

Lemma with_stack_scopes stack cur outer cur' outer' ps lc n :
  (0 < length stack)%nat ->
  with_stack stack (mk_z3 cur outer ps lc n)
  = with_stack stack (mk_z3 cur' outer' ps lc n).
Proof. destruct stack; cbn; [lia|reflexivity]. Qed.

Lemma z3_pop_n (levels start : nat) (z : Z3SolverRef) :
  for_each (seq start levels) (fun _ => z3_pop) z
  = if decide (levels <= length (outer_scopes z))%nat then
      (Ok tt, with_stack (drop levels (assertion_stack z)) z)
    else
      (Raise (Z3Exception "index out of bounds"),
       with_stack (drop (length (outer_scopes z)) (assertion_stack z)) z).
Proof.
  revert start z. induction levels as [|levels IH]; intros start z.
  - rewrite decide_True by lia. destruct z; reflexivity.
  - cbn [seq for_each]. unfold bind, z3_pop at 1.
    destruct z as [cur outer ps lc n]. cbn [outer_scopes].
    destruct outer as [|scope below].
    + rewrite decide_False by (cbn; lia). reflexivity.
    + rewrite IH. unfold assertion_stack. cbn [outer_scopes current_scope
        length drop skipn].
      repeat case_decide; try lia;
        (f_equal; apply with_stack_scopes; rewrite length_drop; cbn; lia).
Qed.

Lemma _push_body_spec (levels : nat) (self : Z3Solver) :
  _push_body levels self
  = (Ok tt,
     with_z3 (with_stack (replicate levels [] ++ assertion_stack (z3 self))
                (z3 self)) self).
Proof.
  unfold _push_body. rewrite for_each_on_z3. unfold on_z3.
  rewrite z3_push_n. reflexivity.
Qed.

Lemma _pop_body_spec (levels : nat) (self : Z3Solver) :
  _pop_body levels self
  = if decide (levels <= length (outer_scopes (z3 self)))%nat then
      (Ok tt,
       with_z3 (with_stack (drop levels (assertion_stack (z3 self)))
                  (z3 self)) self)
    else
      (Raise (Z3Exception "index out of bounds"),
       with_z3 (with_stack (drop (length (outer_scopes (z3 self)))
                              (assertion_stack (z3 self)))
                  (z3 self)) self).
Proof.
  unfold _pop_body. rewrite for_each_on_z3. unfold on_z3.
  rewrite z3_pop_n. case_decide; reflexivity.
Qed.

(** [_push] and [_pop] on a session with no deferred pop pending:
    [_push(levels)] opens that many empty scopes above the current one;
    [_pop(levels)] removes the innermost [levels] scopes when there are
    that many above the outermost one, and otherwise removes all of
    them, one by one, and then raises the engine's exception, leaving
    the session at the outermost scope. *)
Theorem push_pop_depth (levels : nat) (self : Z3Solver) :
  pending_pop self = false ->
  let stack := assertion_stack (z3 self) in
  _push levels self
  = (Ok tt, with_z3 (with_stack (replicate levels [] ++ stack) (z3 self))
              self)
  /\
  _pop levels self
  = if decide (levels < length stack)%nat then
      (Ok tt, with_z3 (with_stack (drop levels stack) (z3 self)) self)
    else
      (Raise (Z3Exception "index out of bounds"),
       with_z3 (with_stack (drop (length stack - 1) stack) (z3 self)) self).
Proof.
  intros Hpending stack. unfold _push, _pop.
  rewrite !clear_pending_pop_idle by exact Hpending.
  rewrite _push_body_spec, _pop_body_spec. split; [reflexivity|].
  subst stack.
  assert (Hlen : length (assertion_stack (z3 self))
                 = S (length (outer_scopes (z3 self)))) by reflexivity.
  rewrite Hlen.
  replace (S (length (outer_scopes (z3 self))) - 1)%nat
    with (length (outer_scopes (z3 self))) by lia.
  repeat case_decide; try lia; reflexivity.
Qed.

(** What [_add_assertion] does to the engine: one more assertion in the
    current scope. *)
Lemma _add_assertion_engine (formula : FNode) (named : option string)
    (self : Z3Solver) (r : TrackedAssertion) (s' : Z3Solver) :
  pending_pop self = false ->
  _add_assertion formula named self = (Ok r, s') ->
  pending_pop s' = false /\
  named_assertions s' = named_assertions self /\
  exists a, z3 s' = z3_with_assertion a (z3 self).
Proof.
  intros Hpending. unfold _add_assertion.
  rewrite clear_pending_pop_idle by exact Hpending.
  unfold _assert_is_boolean.
  destruct (is_bool_type (get_type formula)); [|discriminate].
  unfold bind at 1, ret at 1. unfold bind at 1, lift at 1.
  destruct (convert formula) as [term|e]; [|discriminate].
  destruct self as [z o c pp na lr lc]. cbn in Hpending. subst pp.
  cbn [options]. destruct named as [name|], (unsat_cores_mode o) as [mode|];
    unfold bind, on_converter, on_mgr, on_z3, lift, ret; cbn;
    intros [= <- <-]; cbn; eauto.
Qed.

Lemma assertions_keep_scopes (asserted : list (FNode * option string))
    (self s' : Z3Solver) :
  pending_pop self = false ->
  for_each asserted (fun a => forget (_add_assertion (fst a) (snd a))) self
  = (Ok tt, s') ->
  pending_pop s' = false /\
  named_assertions s' = named_assertions self /\
  exists added,
    z3 s' = with_stack ((current_scope (z3 self) ++ added)%list
                          :: outer_scopes (z3 self)) (z3 self).
Proof.
  revert self. induction asserted as [|[f n] asserted IH]; intros self Hp.
  - cbn. intros [= <-]. split; [exact Hp|]. split; [reflexivity|].
    exists []. rewrite app_nil_r. destruct (z3 self); reflexivity.
  - cbn [for_each fst snd]. unfold bind, forget at 1.
    destruct (_add_assertion f n self) as [[r|e] s1] eqn:Hadd; [|discriminate].
    destruct (_add_assertion_engine f n self r s1 Hp Hadd)
      as (Hp1 & Hna1 & a & Hz1).
    intros Hrest. destruct (IH s1 Hp1 Hrest) as (Hp' & Hna' & added & Hz').
    split; [exact Hp'|]. split; [congruence|].
    exists (a :: added). rewrite Hz', Hz1. unfold z3_with_assertion. cbn.
    rewrite <- app_assoc. reflexivity.
Qed.

(** [_pop] undoes [_push] and what was asserted since: after
    [_push(levels)] (at least one level), any number of successful
    [_add_assertion] calls and [_pop(levels)], the engine is as it was
    before the push, and the pop succeeds. *)
Theorem pop_undoes_push (levels : nat)
    (asserted : list (FNode * option string)) (self s1 s2 : Z3Solver) :
  pending_pop self = false ->
  _push (S levels) self = (Ok tt, s1) ->
  for_each asserted (fun a => forget (_add_assertion (fst a) (snd a))) s1
  = (Ok tt, s2) ->
  exists s3,
    _pop (S levels) s2 = (Ok tt, s3) /\
    z3 s3 = z3 self /\
    pending_pop s3 = false.
Proof.
  intros Hp Hpush Hadd.
  unfold _push in Hpush. rewrite clear_pending_pop_idle in Hpush by exact Hp.
  rewrite _push_body_spec in Hpush. injection Hpush as <-.
  apply assertions_keep_scopes in Hadd as (Hp2 & _ & added & Hz2);
    [|exact Hp].
  unfold _pop. rewrite clear_pending_pop_idle by exact Hp2.
  rewrite _pop_body_spec. rewrite Hz2.
  destruct self as [[cur outer ps lc n] o c pp na lr lcmd].
  unfold assertion_stack. cbn. rewrite length_app, length_replicate.
  rewrite decide_True by (cbn; lia).
  eexists. split; [reflexivity|]. split; [|exact Hp2].
  cbn. rewrite drop_app_length'; [reflexivity|].
  rewrite length_replicate. reflexivity.
Qed.

End ScopeFacts.

(** ** Reset *)

Section ResetFacts.
Context `{TypeOracle} `{Z3Engine} `{SetOrder} `{Simplifier}.
Local Open Scope method_scope.

Lemma Z3Solver_init_accepted env_mgr o s0 :
  Z3Solver_init env_mgr o = Ok s0 ->
  list_find (fun kv => z3_accepts (fst kv) (snd kv) = false)
    (option_settings o) = None
  /\ s0 = mk_solver (with_parameters (option_settings o) new_z3) o
            (new_converter env_mgr) false [] None None.
Proof.
  unfold Z3Solver_init. rewrite apply_options_set_all, set_all_spec.
  destruct (list_find _ _) as [[i kv]|]; [discriminate|].
  intros [= <-]. split; reflexivity.
Qed.

(** [_reset_assertions] empties the assertion stack and applies the
    options of the session again: the engine is left with one empty
    scope, as the constructor leaves it, whatever was asserted or pushed
    before, and the options are set once more after the parameters the
    engine already had, which its reset keeps.  A deferred pop is
    discharged first and is no longer pending. *)
Theorem reset_empties_stack_and_sets_options (env_mgr : FormulaManager.t)
    (self s0 : Z3Solver) :
  Z3Solver_init env_mgr (options self) = Ok s0 ->
  (pending_pop self = true -> outer_scopes (z3 self) <> []) ->
  exists s',
    _reset_assertions self = (Ok tt, s') /\
    assertion_stack (z3 s') = assertion_stack (z3 s0) /\
    assertion_stack (z3 s') = [[]] /\
    parameters (z3 s')
    = (parameters (z3 self) ++ parameters (z3 s0))%list /\
    parameters (z3 s0) = option_settings (options self) /\
    last_check (z3 s') = None /\
    pending_pop s' = false /\
    options s' = options self.
Proof.
  intros Hinit Hdepth.
  apply Z3Solver_init_accepted in Hinit as [Hacc ->].
  assert (Hbody : forall s, options s = options self -> exists s',
            (on_z3 z3_reset ;;;
             fun self => on_z3 (apply_options (options self)) self) s
            = (Ok tt, s') /\
            z3 s' = with_parameters
                      (parameters (z3 s) ++ option_settings (options self))%list
                      (mk_z3 [] [] [] None (models_made (z3 s))) /\
            pending_pop s' = pending_pop s /\ options s' = options self).
  { intros s Ho. unfold bind, on_z3 at 1, z3_reset. unfold on_z3.
    cbn [z3 options]. rewrite Ho, apply_options_set_all, set_all_spec, Hacc.
    eexists. split; [reflexivity|]. cbn. auto. }
  unfold _reset_assertions, clear_pending_pop.
  destruct (pending_pop self) eqn:Hp.
  - specialize (Hdepth eq_refl).
    unfold bind at 1, set_pending_pop at 1, modify.
    unfold bind at 1. rewrite _pop_body_spec. cbn [z3 outer_scopes].
    destruct (outer_scopes (z3 self)) as [|scope below] eqn:Houter;
      [contradiction|].
    rewrite decide_True by (cbn; lia).
    unfold bind at 1, set_last_command at 1, modify.
    match goal with |- context [bind _ _ ?s] =>
      destruct (Hbody s eq_refl) as (s' & Hrun & Hz & Hpp & Ho) end.
    exists s'. split; [exact Hrun|]. rewrite Hz, Ho, Hpp. cbn.
    rewrite Houter. cbn. auto 10.
  - destruct (Hbody self eq_refl) as (s' & Hrun & Hz & Hpp & Ho).
    exists s'. split; [exact Hrun|]. rewrite Hz, Ho, Hpp. cbn. auto 10.
Qed.

End ResetFacts.

(** ** Solving under literals *)

Section LiteralFacts.
Context `{TypeOracle} `{Z3Engine} `{SetOrder} `{Simplifier}.
Local Open Scope method_scope.

Lemma split_assumptions_literals (assumptions : list FNode)
    (lits acc : list Z3_ast) (others : list FNode) :
  forallb is_literal assumptions = true ->
  mapM convert assumptions = Ok lits ->
  split_assumptions assumptions acc others = Ok ((acc ++ lits)%list, others).
Proof.
  revert lits acc. induction assumptions as [|x xs IH]; intros lits acc Hlit.
  - cbn. intros [= <-]. rewrite app_nil_r. reflexivity.
  - cbn in Hlit. apply andb_true_iff in Hlit as [Hx Hxs].
    cbn [mapM split_assumptions]. rewrite Hx.
    destruct (convert x) as [t|e]; [|discriminate]. cbn.
    destruct (mapM convert xs) as [ts|e] eqn:Hts; [|discriminate].
    cbn. intros [= <-]. rewrite (IH ts (acc ++ [t])%list Hxs eq_refl).
    rewrite <- app_assoc. reflexivity.
Qed.

(** [_solve] under assumptions that are all literals: the literals are
    lowered and passed to the engine's check in their order, no scope is
    pushed, nothing is asserted and no pop is deferred; the outcome is
    the engine's answer for the assertion stack as it stands. *)
Theorem solve_under_literals (assumptions : list FNode)
    (lits : list Z3_ast) (self : Z3Solver) :
  pending_pop self = false ->
  forallb is_literal assumptions = true ->
  mapM convert assumptions = Ok lits ->
  _solve (Some assumptions) self
  = (match z3_check (assertion_stack (z3 self)) (parameters (z3 self))
             lits with
     | unknown => Raise SolverReturnedUnknownResultError
     | sat => Ok true
     | unsat => Ok false
     end,
     with_z3 (with_last_check lits (z3 self)) self).
Proof.
  intros Hp Hlit Hconv. unfold _solve.
  rewrite clear_pending_pop_idle by exact Hp.
  unfold _solve_check, bind at 1. unfold bind at 1, lift at 1.
  rewrite (split_assumptions_literals assumptions lits [] [] Hlit Hconv).
  cbn [app fst snd length]. rewrite bool_decide_false by (cbn; lia).
  unfold bind, ret, on_z3, z3_check_. cbn.
  destruct (z3_check _ _ _); reflexivity.
Qed.

End LiteralFacts.

(** ** The simplifying tactic of the eliminator *)

(** [eliminate_quantifiers] runs the tactic [simplify] and drops its
    result: the eliminator is applied to the lowered formula itself.
    Whatever term the simplification returns, the outcome is the same. *)
Theorem eliminate_quantifiers_ignores_simplify (T : TypeOracle)
    (L : LogicOracle) (E1 E2 : Z3Engine) (fuel : nat) (formula : FNode)
    (self : Z3Converter) (f s1 s2 : Z3_ast) :
  convert formula = Ok f ->
  @z3_tactic E1 "simplify" f = Ok s1 ->
  @z3_tactic E2 "simplify" f = Ok s2 ->
  @z3_tactic E1 "qe" f = @z3_tactic E2 "qe" f ->
  @eliminate_quantifiers T E1 L fuel formula self
  = @eliminate_quantifiers T E2 L fuel formula self.
Proof.
  intros Hf Hs1 Hs2 Hqe. unfold eliminate_quantifiers.
  destruct (negb _ && negb _); [reflexivity|].
  unfold bind, lift. rewrite Hf, Hs1, Hs2, Hqe. reflexivity.
Qed.

(** ** The worklist of [back] and the bottom-up reading *)


Lemma Forall2_impl_elem {A B} (P Q : A -> B -> Prop) (l : list A)
    (k : list B) :
  Forall2 P l k -> (forall x y, x ∈ l -> P x y -> Q x y) -> Forall2 Q l k.
Proof.
  induction 1 as [|x y l k Hxy Hlk IH]; intros Himp; constructor.
  - apply Himp; [left|exact Hxy].
  - apply IH. intros x' y' Hin. apply Himp. right. exact Hin.
Qed.

Lemma ast_size_children (t : Z3_ast) :
  ast_size t = S (ast_sizes (children t)).
Proof. destruct t; cbn; try reflexivity. lia. Qed.

Lemma ast_sizes_cons (x : Z3_ast) (l : list Z3_ast) :
  ast_sizes (x :: l) = (ast_size x + ast_sizes l)%nat.
Proof. reflexivity. Qed.

Lemma ast_sizes_app (l k : list Z3_ast) :
  ast_sizes (l ++ k) = (ast_sizes l + ast_sizes k)%nat.
Proof.
  induction l as [|x l IH]; [reflexivity|].
  cbn [app]. rewrite !ast_sizes_cons, IH. lia.
Qed.

Lemma ast_sizes_rev (l : list Z3_ast) : ast_sizes (rev l) = ast_sizes l.
Proof.
  induction l as [|x l IH]; cbn [rev]; [reflexivity|].
  rewrite ast_sizes_app, IH, !ast_sizes_cons.
  change (ast_sizes []) with 0%nat. lia.
Qed.

Lemma ast_sizes_elem (c : Z3_ast) (l : list Z3_ast) :
  c ∈ l -> (ast_size c <= ast_sizes l)%nat.
Proof.
  induction l as [|x l IH]; intros Hin; [inversion Hin|].
  rewrite ast_sizes_cons.
  apply elem_of_cons in Hin as [->|Hin]; [lia|].
  specialize (IH Hin). lia.
Qed.

Lemma subterm_size (s t : Z3_ast) :
  subterm s t -> (ast_size s <= ast_size t)%nat.
Proof.
  induction 1 as [t|s c t Hs IH Hc]; [lia|].
  rewrite (ast_size_children t). pose proof (ast_sizes_elem c _ Hc). lia.
Qed.

Section BottomUp.
Context `{TypeOracle}.

Lemma back_tree_eq (m : FormulaManager.t) (t : Z3_ast) :
  back_tree m t
  = (args ← mapM (back_tree m) (children t); back_step m t args).
Proof.
  destruct t as [n d s|n w|d xs|i s|fa bs b|d]; reflexivity.
Qed.

Lemma symbols_declared_top (m : FormulaManager.t) (t : Z3_ast) :
  symbols_declared m t = true -> taken_for_symbol t = true ->
  is_Some (FormulaManager.symbols m !! expr_name t).
Proof.
  intros Hd Ht. destruct t; cbn [symbols_declared] in Hd; rewrite Ht in Hd;
    apply andb_true_iff in Hd as [Hd _];
    apply bool_decide_eq_true in Hd; exact Hd.
Qed.

Lemma symbols_declared_child (m : FormulaManager.t) (t c : Z3_ast) :
  symbols_declared m t = true -> c ∈ children t ->
  symbols_declared m c = true.
Proof.
  intros Hd Hc.
  destruct t as [n d s|n w|d xs|i s|fa bs b|d]; cbn [children] in Hc;
    try (inversion Hc; fail);
    cbn [symbols_declared] in Hd; apply andb_true_iff in Hd as [_ Hd].
  - rewrite forallb_forall in Hd. apply Hd. apply list_elem_of_In, Hc.
  - apply list_elem_of_singleton in Hc as ->. exact Hd.
Qed.

Lemma with_mgr_id (self : Z3Converter) :
  with_mgr (fun _ => mgr self) self = self.
Proof. destruct self. reflexivity. Qed.

(** Under no model and on a term whose symbol, if it is taken for one,
    is declared, [_back_single_term] is a function of the manager, and
    leaves the converter as it is. *)
Lemma _back_single_term_pure (rec : BackRec) (t : Z3_ast)
    (args : list FNode) (model : option ModelRef) (self : Z3Converter)
    (f : FNode) :
  (taken_for_symbol t = true ->
   is_Some (FormulaManager.symbols (mgr self) !! expr_name t)) ->
  back_step (mgr self) t args = Ok f ->
  _back_single_term rec t args model self = (Ok f, self).
Proof.
  unfold back_step, _back_single_term, taken_for_symbol.
  destruct (negb (is_expr t)); [discriminate|].
  destruct (is_quantifier t); [discriminate|].
  destruct (negb (nary_ok t args)); [discriminate|].
  destruct (Z3_get_app_decl_kind t) as [kind|]; [|discriminate].
  destruct (_back_fun kind) as [fun_|].
  { unfold lift. cbn. intros _ ->. reflexivity. }
  assert (Hsym : is_Some (FormulaManager.symbols (mgr self) !! expr_name t) ->
                 fst (back_symbol t (new_converter (mgr self))) = Ok f ->
                 back_symbol t self = (Ok f, self)).
  { intros [ty Hty]. unfold back_symbol, on_mgr, FormulaManager.get_symbol.
    cbn [mgr new_converter]. rewrite Hty. cbn. intros ->.
    rewrite with_mgr_id. reflexivity. }
  destruct (is_const t).
  - assert (Hrest :
      (is_rational_value t = false) -> is_int_value t = false ->
      is_bv_value t = false ->
      (true && negb false && negb false && negb false
       && negb (is_as_array t) && negb (is_algebraic_value t) = true ->
       is_Some (FormulaManager.symbols (mgr self) !! expr_name t)) ->
      fst ((if is_as_array t then back_as_array no_back t None
            else if is_algebraic_value t
                 then ret (FormulaManager._Algebraic (expr_name t))
                 else back_symbol t) (new_converter (mgr self))) = Ok f ->
      (if is_as_array t then back_as_array rec t model
       else if is_algebraic_value t
            then ret (FormulaManager._Algebraic (expr_name t))
            else back_symbol t) self = (Ok f, self)).
    { intros _ _ _. destruct (is_as_array t); [discriminate 2|].
      destruct (is_algebraic_value t).
      - cbn. intros _ [= <-]. reflexivity.
      - cbn [negb andb]. intros Hd. apply Hsym. apply Hd. reflexivity. }
    destruct t as [n d s|n w|d xs|i s|fa bs b|d];
      try (cbn [is_rational_value is_int_value is_bv_value];
           apply Hrest; reflexivity).
    + destruct s;
        try (cbn [is_rational_value is_int_value is_bv_value];
             apply Hrest; reflexivity);
        cbn; intros _ [= <-]; reflexivity.
    + cbn. intros _ [= <-]. reflexivity.
  - intros _. destruct (is_function t); [|discriminate].
    unfold bind, on_mgr, FormulaManager.get_symbol, ret.
    cbn [mgr new_converter].
    destruct (FormulaManager.symbols (mgr self) !! expr_name t);
      [|discriminate].
    cbn. intros ->. rewrite with_mgr_id. reflexivity.
Qed.

End BottomUp.

Section Worklist.
Context `{TypeOracle}.
Variable model : option ModelRef.

Lemma loop_run_nil (stack : list Z3_ast) (self : Z3Converter) :
  table_sound model self -> loop_run model 0 stack stack self self.
Proof.
  intros Hs. split; [reflexivity|]. split; [reflexivity|].
  split; [exact Hs|]. split; [reflexivity|auto].
Qed.

Lemma loop_run_trans n1 n2 st1 st2 st3 self self1 self2 :
  loop_run model n1 st1 st2 self self1 ->
  loop_run model n2 st2 st3 self1 self2 ->
  loop_run model (n1 + n2) st1 st3 self self2.
Proof.
  intros (Hr1 & Hm1 & _ & Hp1 & Hres1) (Hr2 & Hm2 & Hs2 & Hp2 & Hres2).
  split.
  { intros fuel. rewrite <- Nat.add_assoc, Hr1, Hr2. reflexivity. }
  split; [congruence|]. split; [exact Hs2|]. split.
  - intros k. rewrite Hp2, Hp1. reflexivity.
  - auto.
Qed.

Lemma table_sound_mark (t : Z3_ast) (self : Z3Converter) :
  table_sound model self ->
  table_sound model (memo_set (t, model) None self).
Proof.
  intros Hs t' g Hr. apply Hs. unfold resolved in *.
  cbn [memo_set _back_memoization] in Hr.
  destruct (decide ((t, model) = (t', model))) as [Heq|Hne].
  - rewrite Heq, dict_get_set_eq in Hr. discriminate Hr.
  - rewrite dict_get_set_ne in Hr by exact Hne. exact Hr.
Qed.

(** The loop converts the term on top of its stack, and the terms under
    it first, in at most two iterations for each node. *)
Lemma back_loop_term (m : FormulaManager.t) (bound : nat) :
  forall (t : Z3_ast) (f : FNode) (stack : list Z3_ast)
         (self : Z3Converter),
    (ast_size t < bound)%nat ->
    mgr self = m ->
    table_sound model self ->
    symbols_declared m t = true ->
    back_tree m t = Ok f ->
    (forall s, subterm s t -> ~ pending self (s, model)) ->
    exists n self1,
      (1 <= n <= 2 * ast_size t)%nat /\
      loop_run model n (t :: stack) stack self self1 /\
      resolved self1 (t, model) f.
Proof.
  induction bound as [|bound IH]; intros t f stack self Hsize Hm Hs Hd Ht Hp;
    [lia|].
  destruct (dict_get (t, model) (_back_memoization self)) as [[g|]|] eqn:Hget.
  - (* cached *)
    exists 1%nat, self. pose proof (ast_size_children t).
    split; [lia|]. split.
    + split; [|split; [reflexivity|split; [exact Hs|split; [reflexivity|auto]]]].
      intros fuel. cbn [Nat.add]. apply (back_loop_resolved _ _ _ _ _ g Hget).
    + pose proof (Hs t g Hget) as Hg. rewrite Hm, Ht in Hg.
      injection Hg as <-. exact Hget.
  - (* marked: excluded *)
    destruct (Hp t (subterm_refl t) Hget).
  - (* new: mark it, convert the children, then the term *)
    rewrite back_tree_eq in Ht.
    destruct (mapM (back_tree m) (children t)) as [args|e] eqn:Hargs;
      [|discriminate Ht].
    cbn in Ht. apply mapM_result_Ok in Hargs.
    set (self0 := memo_set (t, model) None self).
    assert (Hchildren : forall (cs : list Z3_ast) (rest : list Z3_ast)
                               (s0 : Z3Converter),
              (forall c, c ∈ cs -> c ∈ children t) ->
              mgr s0 = m -> table_sound model s0 ->
              (forall k, pending s0 k <-> pending self0 k) ->
              exists n s1,
                (n <= 2 * ast_sizes cs)%nat /\
                loop_run model n (cs ++ rest) rest s0 s1 /\
                forall c g, c ∈ cs -> back_tree m c = Ok g ->
                            resolved s1 (c, model) g).
    { induction cs as [|c cs IHcs]; intros rest s0 Hin Hm0 Hs0 Hp0.
      - exists 0%nat, s0. split; [cbn; lia|]. split.
        + apply loop_run_nil, Hs0.
        + intros c g Hc. inversion Hc.
      - assert (Hc : c ∈ children t) by (apply Hin; left).
        assert (Hfc : exists fc, back_tree m c = Ok fc).
        { apply list_elem_of_lookup in Hc as [i Hi].
          destruct (Forall2_lookup_l _ _ _ _ _ Hargs Hi) as (fc & _ & Hfc).
          eauto. }
        destruct Hfc as [fc Hfc].
        destruct (IH c fc (cs ++ rest)%list s0) as (n1 & s1 & Hn1 & Hrun1 & Hr1).
        { pose proof (children_ast_size c t Hc). lia. }
        { exact Hm0. }
        { exact Hs0. }
        { eapply symbols_declared_child; eauto. }
        { exact Hfc. }
        { intros s Hsub Hpend. apply Hp0 in Hpend.
          unfold self0, pending in Hpend.
          cbn [memo_set _back_memoization] in Hpend.
          destruct (decide ((t, model) = (s, model))) as [Heq|Hne].
          - injection Heq as ->. apply subterm_size in Hsub.
            pose proof (children_ast_size c s Hc). lia.
          - rewrite dict_get_set_ne in Hpend by exact Hne.
            apply (Hp s); [|exact Hpend].
            eapply subterm_child; eauto. }
        destruct Hrun1 as (Hrun1 & Hm1 & Hs1 & Hp1 & Hres1).
        destruct (IHcs rest s1) as (n2 & s2 & Hn2 & Hrun2 & Hr2).
        { intros c' Hc'. apply Hin. right. exact Hc'. }
        { congruence. }
        { exact Hs1. }
        { intros k. rewrite Hp1. apply Hp0. }
        exists (n1 + n2)%nat, s2. split.
        { rewrite ast_sizes_cons. lia. }
        split.
        { eapply loop_run_trans; [|exact Hrun2].
          split; [exact Hrun1|]. split; [exact Hm1|]. split; [exact Hs1|].
          split; [exact Hp1|exact Hres1]. }
        intros c' g Hc' Hg. apply elem_of_cons in Hc' as [->|Hc'].
        + destruct Hrun2 as (_ & _ & _ & _ & Hres2). apply Hres2.
          rewrite Hfc in Hg. injection Hg as <-. exact Hr1.
        + eapply Hr2; eauto. }
    destruct (Hchildren (rev (children t)) (t :: stack) self0)
      as (n1 & self1 & Hn1 & (Hrun1 & Hm1 & Hs1 & Hp1 & Hres1) & Hr1).
    { intros c Hc. apply elem_of_rev, Hc. }
    { exact Hm. }
    { apply table_sound_mark, Hs. }
    { reflexivity. }
    rewrite ast_sizes_rev in Hn1.
    assert (Hm1' : mgr self1 = m) by (rewrite Hm1; exact Hm).
    assert (Hpt : pending self1 (t, model)).
    { apply Hp1. unfold self0, pending. cbn [memo_set _back_memoization].
      apply dict_get_set_eq. }
    assert (Hmemo : mapM (memo_arg model self1) (children t) = Ok args).
    { apply mapM_result_Ok. eapply Forall2_impl_elem; [exact Hargs|].
      intros c g Hc Hg. cbv beta in Hg.
      assert (Hrc : resolved self1 (c, model) g).
      { apply Hr1; [|exact Hg]. apply list_elem_of_In, in_rev.
        rewrite rev_involutive. apply list_elem_of_In, Hc. }
      unfold memo_arg. unfold resolved, BackKey in Hrc. rewrite Hrc.
      reflexivity. }
    assert (Hstep : forall rec,
              _back_single_term rec t args model self1 = (Ok f, self1)).
    { intros rec. apply _back_single_term_pure.
      - rewrite Hm1'. apply symbols_declared_top, Hd.
      - rewrite Hm1'. exact Ht. }
    set (self2 := log_event (mk_event (t, model) args f)
                    (memo_set (t, model) (Some f) self1)).
    exists (S (n1 + 1)), self2. pose proof (ast_size_children t). split; [lia|].
    split; [split; [|split; [|split; [|split]]]|].
    + intros fuel. cbn [Nat.add].
      rewrite (back_loop_absent _ _ _ _ _ Hget).
      fold self0. rewrite <- Nat.add_assoc. rewrite Hrun1. cbn [Nat.add].
      rewrite (back_loop_pending _ _ _ _ _ Hpt), Hmemo, Hstep.
      reflexivity.
    + unfold self2. cbn [log_event memo_set mgr]. rewrite Hm1. reflexivity.
    + intros t' g Hr. unfold self2, resolved in Hr.
      cbn [log_event memo_set _back_memoization] in Hr.
      change (mgr self2) with (mgr self1).
      destruct (decide ((t, model) = (t', model))) as [Heq|Hne].
      * rewrite Heq, dict_get_set_eq in Hr. injection Hr as <-.
        injection Heq as <-. rewrite Hm1', back_tree_eq.
        apply mapM_result_Ok in Hargs. rewrite Hargs. exact Ht.
      * rewrite dict_get_set_ne in Hr by exact Hne. apply Hs1, Hr.
    + intros k. unfold self2, pending.
      cbn [log_event memo_set _back_memoization].
      destruct (decide ((t, model) = k)) as [<-|Hne].
      * rewrite dict_get_set_eq. split; [discriminate|].
        intros Hk. pose proof (eq_trans (eq_sym Hk) Hget) as E.
        discriminate E.
      * rewrite dict_get_set_ne by exact Hne.
        change (pending self1 k <-> pending self k). rewrite Hp1.
        unfold self0, pending. cbn [memo_set _back_memoization].
        rewrite dict_get_set_ne by exact Hne. reflexivity.
    + intros k g Hk. unfold self2, resolved.
      cbn [log_event memo_set _back_memoization].
      assert (Hne : (t, model) <> k).
      { intros <-. pose proof (eq_trans (eq_sym Hk) Hget) as E.
        discriminate E. }
      rewrite dict_get_set_ne by exact Hne. apply Hres1.
      unfold self0, resolved. cbn [memo_set _back_memoization].
      rewrite dict_get_set_ne by exact Hne. exact Hk.
    + unfold self2, resolved. cbn [log_event memo_set _back_memoization].
      apply dict_get_set_eq.
Qed.

End Worklist.

Section BackTreeTheorem.
Context `{TypeOracle}.

Lemma back_of_loop_run (fuel n : nat) (t : Z3_ast) (f : FNode)
    (model : option ModelRef) (self self1 : Z3Converter) :
  (n < fuel)%nat ->
  loop_run model n [t] [] self self1 ->
  resolved self1 (t, model) f ->
  back fuel t model self = (Ok f, self1).
Proof.
  intros Hfuel (Hrun & _) Hr. unfold back.
  replace fuel with (n + S (fuel - S n))%nat by lia.
  erewrite bind_Ok; [|rewrite Hrun; apply back_loop_nil].
  unfold memo_arg. unfold resolved, BackKey in Hr. rewrite Hr.
  reflexivity.
Qed.

(** [back] computes the bottom-up reading of the term.  On a converter
    with nothing in progress whose cached entries are bottom-up readings,
    for a term whose constants taken for symbols are declared and whose
    bottom-up reading is a node, [back] returns that node within two
    iterations of its loop for each node of the term and one more; it
    declares no symbol, and leaves a converter of the same kind, in which
    what was cached still is. *)
Theorem back_computes_back_tree (fuel : nat) (t : Z3_ast) (f : FNode)
    (model : option ModelRef) (self : Z3Converter) :
  (forall k, ~ pending self k) ->
  table_sound model self ->
  symbols_declared (mgr self) t = true ->
  back_tree (mgr self) t = Ok f ->
  (2 * ast_size t < fuel)%nat ->
  exists self',
    back fuel t model self = (Ok f, self') /\
    mgr self' = mgr self /\
    table_sound model self' /\
    (forall k, ~ pending self' k) /\
    (forall k g, resolved self k g -> resolved self' k g).
Proof.
  intros Hnone Hsound Hdecl Htree Hfuel.
  destruct (back_loop_term model (mgr self) (S (ast_size t)) t f [] self)
    as (n & self1 & Hn & Hrun & Hres); auto.
  exists self1. split.
  - eapply back_of_loop_run; [|exact Hrun|exact Hres]. lia.
  - destruct Hrun as (_ & Hm & Hs & Hp & Hmono).
    split; [exact Hm|]. split; [exact Hs|]. split; [|exact Hmono].
    intros k Hk. apply Hp in Hk. exact (Hnone k Hk).
Qed.

End BackTreeTheorem.

(** ** The round trip *)


Section RoundTripFragment.
Context `{TypeOracle}.

Lemma back_step_table (m : FormulaManager.t) (d : Z3_func_decl)
    (ts : list Z3_ast) (args : list FNode)
    (fun_ : list FNode -> Z3_ast -> result FNode) :
  _back_fun (decl_kind d) = Some fun_ ->
  nary_ok (Z3_app d ts) args = true ->
  back_step m (Z3_app d ts) args = fun_ args (Z3_app d ts).
Proof.
  intros Hfun Hnary. unfold back_step, _back_single_term.
  cbn [is_expr is_quantifier negb Z3_get_app_decl_kind].
  rewrite Hnary, Hfun. reflexivity.
Qed.

Lemma nary_ok_short (expr : Z3_ast) (args : list FNode) :
  (length args <= 2)%nat -> nary_ok expr args = true.
Proof.
  intros Hlen. unfold nary_ok. rewrite bool_decide_false by lia.
  reflexivity.
Qed.

Lemma taken_for_symbol_table (d : Z3_func_decl) (ts : list Z3_ast)
    (fun_ : list FNode -> Z3_ast -> result FNode) :
  _back_fun (decl_kind d) = Some fun_ ->
  taken_for_symbol (Z3_app d ts) = false.
Proof.
  intros Hfun. unfold taken_for_symbol. cbn [Z3_get_app_decl_kind].
  rewrite Hfun. reflexivity.
Qed.

Lemma symbols_declared_app (m : FormulaManager.t) (d : Z3_func_decl)
    (ts : list Z3_ast) :
  taken_for_symbol (Z3_app d ts) = false ->
  forallb (symbols_declared m) ts = true ->
  symbols_declared m (Z3_app d ts) = true.
Proof. intros Ht Hts. cbn [symbols_declared]. rewrite Ht, Hts. reflexivity. Qed.

(** The children of a liftable node. *)
Lemma round_trip_children (m : FormulaManager.t) (xs : list FNode) :
  Forall (fun x => liftable m x = true ->
                   exists t, round_trip_pair m x t) xs ->
  forallb (liftable m) xs = true ->
  exists ts,
    Forall2 (round_trip_pair m) xs ts /\
    mapM convert xs = Ok ts /\
    mapM (back_tree m) ts = Ok xs /\
    forallb (symbols_declared m) ts = true.
Proof.
  induction 1 as [|x xs Hx Hxs IH]; intros Hl.
  - exists []. repeat split; constructor.
  - cbn in Hl. apply andb_true_iff in Hl as [Hlx Hlxs].
    destruct (Hx Hlx) as (t & Hc & Hb & Hd).
    destruct (IH Hlxs) as (ts & Hf & Hcs & Hbs & Hds).
    exists (t :: ts). split; [constructor; [repeat split|]; assumption|].
    cbn [mapM forallb]. rewrite Hc, Hcs, Hb, Hbs, Hd, Hds.
    repeat split.
Qed.

End RoundTripFragment.

Section RoundTripNodes.
Context `{TypeOracle}.

(** A node lowered to an application of a built-in operator that
    [_back_fun] has a rule for. *)
Lemma round_trip_builtin (m : FormulaManager.t) (o : op.t)
    (xs : list FNode) (p : Payload) (ts : list Z3_ast)
    (k : Z3_decl_kind) (ps : list Z3_parameter) (range : Z3Sort)
    (fun_ : list FNode -> Z3_ast -> result FNode) :
  mapM convert xs = Ok ts ->
  mapM (back_tree m) ts = Ok xs ->
  forallb (symbols_declared m) ts = true ->
  walk_node (mkFNode o xs p) ts = Ok (builtin k ps range ts) ->
  _back_fun k = Some fun_ ->
  nary_ok (builtin k ps range ts) xs = true ->
  fun_ xs (builtin k ps range ts) = Ok (mkFNode o xs p) ->
  round_trip_pair m (mkFNode o xs p) (builtin k ps range ts).
Proof.
  intros Hcs Hbs Hds Hwalk Hfun Hnary Hback. split; [|split].
  - rewrite (convert_node o xs p ts Hcs). exact Hwalk.
  - rewrite back_tree_eq.
    change (children (builtin k ps range ts)) with ts.
    rewrite Hbs. cbn [mbind result_bind].
    etransitivity; [|exact Hback].
    apply back_step_table; [exact Hfun|exact Hnary].
  - apply symbols_declared_app; [|exact Hds].
    eapply taken_for_symbol_table. exact Hfun.
Qed.

(** A numeral or a constant: a term without children that is not taken
    for a symbol. *)
Lemma round_trip_leaf (m : FormulaManager.t) (o : op.t) (p : Payload)
    (t : Z3_ast) :
  walk_node (mkFNode o [] p) [] = Ok t ->
  children t = [] ->
  back_step m t [] = Ok (mkFNode o [] p) ->
  taken_for_symbol t = false ->
  round_trip_pair m (mkFNode o [] p) t.
Proof.
  intros Hwalk Hch Hback Htaken. split; [|split].
  - rewrite (convert_node o [] p [] eq_refl). exact Hwalk.
  - rewrite back_tree_eq, Hch. exact Hback.
  - destruct t; cbn [children] in Hch; try discriminate Hch;
      cbn [symbols_declared]; rewrite Htaken; try reflexivity.
    subst. reflexivity.
Qed.

End RoundTripNodes.

Section RoundTripLemma.
Context `{TypeOracle}.

Ltac invert_children :=
  repeat match goal with
  | Hf : Forall2 _ (_ :: _) _ |- _ => inversion Hf; subst; clear Hf
  | Hf : Forall2 _ [] _ |- _ => inversion Hf; subst; clear Hf
  end.

Ltac builtin_node Hcs Hbs Hds :=
  eexists; eapply round_trip_builtin;
  [ exact Hcs | exact Hbs | exact Hds | reflexivity | reflexivity
  | first [ apply nary_ok_short; cbn; lia | reflexivity ]
  | try reflexivity ].

Lemma walk_symbol_const (name : string) (ty : PySMTType) (s : Z3Sort) :
  is_function_type ty = false -> _type_to_z3 ty = Ok s ->
  walk_symbol (mkFNode op.SYMBOL [] (SymbolPayload name ty))
  = Ok (Z3_mk_const name s).
Proof.
  intros Hfun Hs. unfold walk_symbol. cbn [symbol_type payload symbol_name].
  rewrite Hfun.
  destruct ty; cbn -[z3BitVecSort] in Hs |- *; try discriminate;
    try (injection Hs as <-; reflexivity);
    rewrite Hs; reflexivity.
Qed.

Lemma round_trip_symbol (m : FormulaManager.t) (name : string)
    (ty : PySMTType) :
  is_function_type ty = false -> has_z3_sort ty = true ->
  FormulaManager.symbols m !! name = Some ty ->
  exists t,
    round_trip_pair m (mkFNode op.SYMBOL [] (SymbolPayload name ty)) t.
Proof.
  intros Hfun Hsort Hdecl. destruct (_type_to_z3_Ok ty Hsort) as [s Hs].
  exists (Z3_mk_const name s). split; [|split].
  - rewrite (convert_node _ [] _ [] eq_refl). cbn [walk_node node_type].
    apply walk_symbol_const; assumption.
  - rewrite back_tree_eq. unfold Z3_mk_const.
    cbn [children mapM mret result_ret mbind result_bind].
    unfold back_step.
    rewrite _back_single_term_constant by (reflexivity || discriminate).
    unfold back_symbol, on_mgr, FormulaManager.get_symbol.
    cbn [mgr new_converter expr_name decl_name]. rewrite Hdecl.
    reflexivity.
  - unfold Z3_mk_const. cbn [symbols_declared forallb].
    replace (taken_for_symbol _) with true by reflexivity.
    cbn [expr_name decl_name]. rewrite Hdecl.
    rewrite bool_decide_true by eauto. reflexivity.
Qed.

Lemma mapM__type_to_z3_Ok (ps : list PySMTType) :
  forallb has_z3_sort ps = true -> exists ss, mapM _type_to_z3 ps = Ok ss.
Proof.
  induction ps as [|p ps IH]; cbn; [eauto|].
  intros Hb. apply andb_true_iff in Hb as [Hp Hps].
  destruct (_type_to_z3_Ok p Hp) as [s ->], (IH Hps) as [ss ->].
  cbn. eauto.
Qed.

Lemma round_trip_function (m : FormulaManager.t) (name : string)
    (r : PySMTType) (ps : list PySMTType) (xs : list FNode)
    (ts : list Z3_ast) :
  mapM convert xs = Ok ts ->
  mapM (back_tree m) ts = Ok xs ->
  forallb (symbols_declared m) ts = true ->
  (1 <= length xs <= 2)%nat ->
  has_z3_sort r = true -> forallb has_z3_sort ps = true ->
  FormulaManager.symbols m !! name = Some (FunctionType r ps) ->
  exists t,
    round_trip_pair m
      (mkFNode op.FUNCTION xs (SymbolPayload name (FunctionType r ps))) t.
Proof.
  intros Hcs Hbs Hds Hlen Hr Hps Hdecl.
  destruct (_type_to_z3_Ok r Hr) as [sr Hsr].
  destruct (mapM__type_to_z3_Ok ps Hps) as [sps Hsps].
  assert (Hts : ts <> []).
  { intros ->. apply mapM_result_Ok in Hbs. inversion Hbs; subst.
    cbn in Hlen. lia. }
  exists (Z3_mk_app (Z3_mk_func_decl name sps sr) ts). split; [|split].
  - rewrite (convert_node _ xs _ ts Hcs). cbn [walk_node node_type].
    unfold walk_function, _z3_func_decl, function_name.
    cbn [symbol_type payload symbol_name]. rewrite Hsps. cbn.
    rewrite Hsr. reflexivity.
  - rewrite back_tree_eq. unfold Z3_mk_app, Z3_mk_func_decl.
    cbn [children]. rewrite Hbs.
    cbn [mbind result_bind]. unfold back_step, _back_single_term.
    cbn [is_expr is_quantifier negb Z3_get_app_decl_kind
         decl_kind _back_fun].
    rewrite nary_ok_short by lia. cbn [negb].
    assert (Hconst : is_const (Z3_app (mk_func_decl Z3_OP_UNINTERPRETED name
                                         [] sps sr) ts) = false).
    { destruct ts; [contradiction|]. reflexivity. }
    rewrite Hconst.
    replace (is_function _) with true by reflexivity.
    unfold bind, on_mgr, FormulaManager.get_symbol, ret.
    cbn [mgr new_converter expr_name decl_name]. rewrite Hdecl. cbn.
    destruct xs; [cbn in Hlen; lia|]. reflexivity.
  - apply symbols_declared_app; [|exact Hds].
    unfold taken_for_symbol.
    cbn [Z3_get_app_decl_kind decl_kind Z3_mk_func_decl _back_fun].
    destruct ts; [contradiction|]. reflexivity.
Qed.

Lemma liftable_round_trip (m : FormulaManager.t) (f : FNode) :
  liftable m f = true -> exists t, round_trip_pair m f t.
Proof.
  induction f as [o xs p IH] using FNode_nested_ind. intros Hl.
  cbn [liftable] in Hl. apply andb_true_iff in Hl as [Hn Hxs].
  destruct (round_trip_children m xs IH Hxs) as (ts & Hf & Hcs & Hbs & Hds).
  clear IH Hxs. unfold node_liftable in Hn.
  destruct o; try discriminate Hn.
  all: destruct xs as [|a [|b [|c xs]]]; try discriminate Hn.
  all: destruct p; try discriminate Hn.
  all: try (destruct xs; try discriminate Hn).
  all: try (builtin_node Hcs Hbs Hds; fail).
  all: invert_children.
  all: try (builtin_node Hcs Hbs Hds; fail).
  (* bit-vector operators: the node carries the width of its argument *)
  all: try (destruct params; try discriminate Hn;
            apply bool_decide_eq_true in Hn; subst;
            builtin_node Hcs Hbs Hds; fail).
  - (* NOT *)
    apply negb_true_iff in Hn.
    eexists; eapply round_trip_builtin;
      [ exact Hcs | exact Hbs | exact Hds | reflexivity | reflexivity
      | apply nary_ok_short; cbn; lia | ].
    cbn. unfold FormulaManager.Not. destruct a as [[] xa pa];
      first [reflexivity | discriminate Hn].
  - (* IFF *)
    eexists; eapply round_trip_builtin;
      [ exact Hcs | exact Hbs | exact Hds | reflexivity | reflexivity
      | apply nary_ok_short; cbn; lia | ].
    cbn. rewrite Hn. reflexivity.
  - (* SYMBOL *)
    apply andb_true_iff in Hn as [Hn Hdecl].
    apply andb_true_iff in Hn as [Hfun Hsort].
    apply negb_true_iff in Hfun. apply bool_decide_eq_true in Hdecl.
    apply round_trip_symbol; assumption.
  - (* FUNCTION, one argument *)
    destruct ty; try discriminate Hn.
    apply andb_true_iff in Hn as [Hn Hdecl].
    apply andb_true_iff in Hn as [Hn Hps].
    apply andb_true_iff in Hn as [_ Hr].
    apply bool_decide_eq_true in Hdecl.
    eapply round_trip_function; eauto; cbn; lia.
  - (* FUNCTION, two arguments *)
    destruct ty; try discriminate Hn.
    apply andb_true_iff in Hn as [Hn Hdecl].
    apply andb_true_iff in Hn as [Hn Hps].
    apply andb_true_iff in Hn as [_ Hr].
    apply bool_decide_eq_true in Hdecl.
    eapply round_trip_function; eauto; cbn; lia.
  - (* REAL_CONSTANT *)
    apply bool_decide_eq_true in Hn.
    exists (Z3_arith_numeral numerator denominator RealSort).
    apply round_trip_leaf; try reflexivity.
    + cbn. rewrite Hn, Z.div_1_r, Z.div_1_r. reflexivity.
    + unfold back_step. cbn. unfold FormulaManager.Real.
      rewrite Hn, Z.div_1_r, Z.div_1_r. reflexivity.
  - (* BOOL_CONSTANT *)
    destruct b; builtin_node Hcs Hbs Hds.
  - (* INT_CONSTANT *)
    exists (Z3_arith_numeral z 1 IntSort).
    apply round_trip_leaf; try reflexivity.
    cbn. rewrite Z.div_1_r. reflexivity.
  - (* EQUALS *)
    apply negb_true_iff in Hn.
    eexists; eapply round_trip_builtin;
      [ exact Hcs | exact Hbs | exact Hds | reflexivity | reflexivity
      | apply nary_ok_short; cbn; lia | ].
    cbn. rewrite Hn. reflexivity.
  - (* ITE *)
    apply negb_true_iff in Hn.
    eexists;
      eapply (round_trip_builtin _ _ _ _ _ Z3_OP_ITE [] (Z3_get_sort y0));
      [ exact Hcs | exact Hbs | exact Hds | | reflexivity
      | reflexivity | reflexivity ].
    cbn [walk_node node_type]. unfold walk_ite. cbn. rewrite Hn.
    reflexivity.
  - (* BV_CONSTANT *)
    apply andb_true_iff in Hn as [Hw Hn].
    apply bool_decide_eq_true in Hw. apply bool_decide_eq_true in Hn.
    exists (Z3_bv_numeral value width).
    apply round_trip_leaf; try reflexivity.
    cbn [walk_node node_type]. unfold walk_bv_constant. cbn [payload].
    rewrite (z3BitVecSort_fit width Hw). cbn.
    rewrite Z.div_1_r, Z.mod_small by exact Hn. reflexivity.
Qed.

End RoundTripLemma.

Section RoundTripTheorem.
Context `{TypeOracle}.

(** The round trip on the liftable formulas.  When every node of a
    formula is liftable, its walk asks Z3 for well-sorted terms only,
    and the object [convert] returns for it is of the class z3py gives
    its term (which a numeral, a read of an array or a term of an
    uninterpreted sort is not), [convert] lowers the formula to a term,
    and [back], on a converter with nothing in progress whose cached
    entries are bottom-up readings, rebuilds from that term the formula
    itself, declaring no symbol. *)
Theorem liftable_formula_round_trip (f : FNode) (model : option ModelRef)
    (self : Z3Converter) :
  liftable (mgr self) f = true ->
  walk_well_sorted f = true ->
  class_kept f = true ->
  (forall k, ~ pending self k) ->
  table_sound model self ->
  exists t,
    convert f = Ok t /\
    forall fuel, (2 * ast_size t < fuel)%nat ->
      exists self',
        back fuel t model self = (Ok f, self') /\
        mgr self' = mgr self /\
        table_sound model self' /\
        (forall k, ~ pending self' k).
Proof.
  intros Hl _ _ Hnone Hsound.
  destruct (liftable_round_trip (mgr self) f Hl) as (t & Hc & Hb & Hd).
  exists t. split; [exact Hc|]. intros fuel Hfuel.
  destruct (back_loop_term model (mgr self) (S (ast_size t)) t f [] self)
    as (n & self1 & Hn & Hrun & Hres); auto.
  exists self1. split.
  - eapply back_of_loop_run; [|exact Hrun|exact Hres]. lia.
  - destruct Hrun as (_ & Hm & Hs & Hp & _).
    split; [exact Hm|]. split; [exact Hs|].
    intros k Hk. apply Hp in Hk. exact (Hnone k Hk).
Qed.

End RoundTripTheorem.

(** ** A conversion that fails *)

Section FailedBack.
Context `{TypeOracle}.

(** Under no model, [_back_single_term] leaves the table alone, whether
    it returns or raises. *)
Lemma _back_single_term_no_model_table (rec : BackRec) (t : Z3_ast)
    (args : list FNode) (self : Z3Converter) (r : result FNode)
    (self1 : Z3Converter) :
  _back_single_term rec t args None self = (r, self1) ->
  same_table self self1.
Proof.
  unfold _back_single_term.
  destruct (negb (is_expr t));
    [intros [= _ <-]; apply same_table_refl|].
  destruct (is_quantifier t);
    [intros [= _ <-]; apply same_table_refl|].
  destruct (negb (nary_ok t args));
    [intros [= _ <-]; apply same_table_refl|].
  destruct (Z3_get_app_decl_kind t) as [kind|];
    [|intros [= _ <-]; apply same_table_refl].
  destruct (_back_fun kind) as [fun_|];
    [intros [= _ <-]; apply same_table_refl|].
  destruct (is_const t).
  - assert (Hrest :
      (if is_as_array t then back_as_array rec t None
       else if is_algebraic_value t
            then ret (FormulaManager._Algebraic (expr_name t))
            else back_symbol t) self = (r, self1) ->
      same_table self self1).
    { destruct (is_as_array t);
        [intros [= _ <-]; apply same_table_refl|].
      destruct (is_algebraic_value t);
        [intros [= _ <-]; apply same_table_refl|].
      apply back_symbol_same_table. }
    destruct t as [n d s|n w|d xs|i s|fa bs b|d]; try exact Hrest.
    + destruct s; try exact Hrest;
        intros [= _ <-]; apply same_table_refl.
    + intros [= _ <-]. apply same_table_refl.
  - destruct (is_function t);
      [|intros [= _ <-]; apply same_table_refl].
    unfold bind.
    destruct (on_mgr (FormulaManager.get_symbol (expr_name t)) self)
      as [[fsymbol|e] s0] eqn:Hget; intros [= _ <-];
      eapply on_mgr_same_table, Hget.
Qed.

(** While the loop works on the terms under [t], the mark of [t] stays:
    a run that raises leaves it, and a run that ends has resolved [t]. *)
Lemma back_loop_keeps_mark (t : Z3_ast) (n : nat) :
  forall (above : list Z3_ast) (self : Z3Converter) (r : result unit)
         (self' : Z3Converter),
    (forall x, x ∈ above -> (ast_size x < ast_size t)%nat) ->
    pending self (t, None) ->
    back_loop n None (above ++ [t]) self = (r, self') ->
    match r with
    | Ok _ => exists g, resolved self' (t, None) g
    | Raise e => e <> IterationBound -> pending self' (t, None)
    end.
Proof.
  induction n as [|n IH]; intros above self r self' Hsmall Hpend Hrun.
  { cbn in Hrun. injection Hrun as <- <-. intros Hne. contradiction. }
  destruct above as [|x above]; cbn [app] in Hrun.
  - (* the term itself is on top *)
    rewrite (back_loop_pending _ _ _ _ _ Hpend) in Hrun.
    destruct (mapM (memo_arg None self) (children t)) as [args|e].
    2:{ injection Hrun as <- <-. intros _. exact Hpend. }
    destruct (_back_single_term (back n) t args None self)
      as [[res|e] self1] eqn:Hterm.
    2:{ injection Hrun as <- <-. intros _.
        apply _back_single_term_no_model_table in Hterm.
        apply (same_table_pending _ _ _ Hterm), Hpend. }
    assert (Hres : resolved
                     (log_event (mk_event (t, None) args res)
                        (memo_set (t, None) (Some res) self1))
                     (t, None) res).
    { unfold resolved. cbn [log_event memo_set _back_memoization].
      apply dict_get_set_eq. }
    destruct n as [|n]; cbn in Hrun; injection Hrun as <- <-.
    + intros Hne. contradiction.
    + exists res. exact Hres.
  - (* a term under it is on top *)
    assert (Hx : (ast_size x < ast_size t)%nat) by (apply Hsmall; left).
    assert (Hne : (x, @None ModelRef) <> (t, None)).
    { intros [= ->]. lia. }
    assert (Habove : forall y, y ∈ above -> (ast_size y < ast_size t)%nat).
    { intros y Hy. apply Hsmall. right. exact Hy. }
    destruct (dict_get (x, None) (_back_memoization self))
      as [[g|]|] eqn:Hget.
    + rewrite (back_loop_resolved _ _ _ _ _ g Hget) in Hrun.
      eapply IH; eauto.
    + rewrite (back_loop_pending _ _ _ _ _ Hget) in Hrun.
      destruct (mapM (memo_arg None self) (children x)) as [args|e].
      2:{ injection Hrun as <- <-. intros _. exact Hpend. }
      destruct (_back_single_term (back n) x args None self)
        as [[res|e] self1] eqn:Hterm;
        apply _back_single_term_no_model_table in Hterm.
      2:{ injection Hrun as <- <-. intros _.
          apply (same_table_pending _ _ _ Hterm), Hpend. }
      eapply IH; [exact Habove| |exact Hrun].
      unfold pending. cbn [log_event memo_set _back_memoization].
      rewrite dict_get_set_ne by exact Hne.
      apply (same_table_pending _ _ _ Hterm), Hpend.
    + rewrite (back_loop_absent _ _ _ _ _ Hget) in Hrun.
      rewrite app_comm_cons, app_assoc in Hrun.
      eapply IH; [| |exact Hrun].
      * intros y Hy. apply elem_of_app in Hy as [Hy|Hy].
        -- apply elem_of_rev in Hy.
           pose proof (children_ast_size y x Hy). lia.
        -- apply elem_of_cons in Hy as [->|Hy]; [exact Hx|auto].
      * unfold pending. cbn [memo_set _back_memoization].
        rewrite dict_get_set_ne by exact Hne. exact Hpend.
Qed.

(** A call of [back] that raises leaves the term marked as in progress:
    the entry of its key is [None] and stays in the table. *)
Theorem failed_back_leaves_mark (fuel : nat) (t : Z3_ast)
    (self : Z3Converter) (e : PyExn) (self' : Z3Converter) :
  back fuel t None self = (Raise e, self') ->
  e <> IterationBound ->
  pending self' (t, None).
Proof.
  intros Hback Hne. unfold back, bind in Hback.
  destruct (back_loop fuel None [t] self) as [[[]|e0] s1] eqn:Hloop.
  - (* the loop ended: the entry is asked for *)
    injection Hback as Hmemo <-. unfold memo_arg in Hmemo.
    destruct (dict_get (t, None) (_back_memoization s1)) as [[g|]|] eqn:Hget;
      [discriminate Hmemo|exact Hget|].
    exfalso. destruct fuel as [|fuel]; [discriminate Hloop|].
    destruct (dict_get (t, None) (_back_memoization self))
      as [[g|]|] eqn:Hget0.
    + rewrite (back_loop_resolved _ _ _ _ _ g Hget0) in Hloop.
      destruct fuel; cbn in Hloop; [discriminate Hloop|].
      injection Hloop as <-.
      pose proof (eq_trans (eq_sym Hget0) Hget) as E. discriminate E.
    + pose proof (back_loop_keeps_mark t (S fuel) [] self _ _
                    ltac:(intros x Hx; inversion Hx) Hget0 Hloop)
        as [g Hg].
      pose proof (eq_trans (eq_sym Hg) Hget) as E. discriminate E.
    + rewrite (back_loop_absent _ _ _ _ _ Hget0) in Hloop.
      assert (Hp0 : pending (memo_set (t, None) None self) (t, None)).
      { unfold pending. cbn [memo_set _back_memoization].
        apply dict_get_set_eq. }
      pose proof (back_loop_keeps_mark t fuel (rev (children t)) _ _ _
                    ltac:(intros x Hx; apply elem_of_rev in Hx;
                          apply children_ast_size, Hx) Hp0 Hloop)
        as [g Hg].
      pose proof (eq_trans (eq_sym Hg) Hget) as E. discriminate E.
  - (* the loop raised *)
    injection Hback as <- <-.
    destruct fuel as [|fuel];
      [cbn in Hloop; injection Hloop as <- <-; contradiction|].
    destruct (dict_get (t, None) (_back_memoization self))
      as [[g|]|] eqn:Hget0.
    + rewrite (back_loop_resolved _ _ _ _ _ g Hget0) in Hloop.
      destruct fuel; cbn in Hloop; [|discriminate Hloop].
      injection Hloop as <- <-. contradiction.
    + exact (back_loop_keeps_mark t (S fuel) [] self _ _
               ltac:(intros x Hx; inversion Hx) Hget0 Hloop Hne).
    + rewrite (back_loop_absent _ _ _ _ _ Hget0) in Hloop.
      assert (Hp0 : pending (memo_set (t, None) None self) (t, None)).
      { unfold pending. cbn [memo_set _back_memoization].
        apply dict_get_set_eq. }
      exact (back_loop_keeps_mark t fuel (rev (children t)) _ _ _
               ltac:(intros x Hx; apply elem_of_rev in Hx;
                     apply children_ast_size, Hx) Hp0 Hloop Hne).
Qed.

Lemma memo_arg_absent (model : option ModelRef) (self : Z3Converter)
    (c : Z3_ast) :
  dict_get (c, model) (_back_memoization self) = None ->
  memo_arg model self c = Raise KeyError.
Proof.
  intros Hc. unfold memo_arg. rewrite Hc. reflexivity.
Qed.

Lemma memo_arg_resolved (model : option ModelRef) (self : Z3Converter)
    (c : Z3_ast) (g : FNode) :
  resolved self (c, model) g -> memo_arg model self c = Ok g.
Proof.
  intros Hc. unfold memo_arg.
  destruct (dict_get (c, model) (_back_memoization self)) as [v|] eqn:Hget;
    pose proof (eq_trans (eq_sym Hget) Hc) as E; [|discriminate E].
  injection E as ->. reflexivity.
Qed.

Lemma mapM_memo_arg_KeyError (model : option ModelRef)
    (self : Z3Converter) (pre post : list Z3_ast) (c : Z3_ast) :
  (forall x, x ∈ pre -> exists g, resolved self (x, model) g) ->
  dict_get (c, model) (_back_memoization self) = None ->
  mapM (memo_arg model self) (pre ++ c :: post) = Raise KeyError.
Proof.
  intros Hpre Hc. induction pre as [|x pre IH]; cbn [app mapM].
  - rewrite (memo_arg_absent model self c Hc). reflexivity.
  - destruct (Hpre x ltac:(left)) as [g Hg].
    rewrite (memo_arg_resolved model self x g Hg).
    cbn [mbind result_bind]. rewrite IH; [reflexivity|].
    intros y Hy. apply Hpre. right. exact Hy.
Qed.

(** [back] on a term that is marked as in progress takes its children
    for converted: when the first child that is not has no entry at all,
    the call raises [KeyError] and changes nothing; it does not convert
    the term again. *)
Theorem marked_term_raises_KeyError (fuel : nat) (t : Z3_ast)
    (model : option ModelRef) (self : Z3Converter)
    (pre post : list Z3_ast) (c : Z3_ast) :
  pending self (t, model) ->
  children t = (pre ++ c :: post)%list ->
  (forall x, x ∈ pre -> exists g, resolved self (x, model) g) ->
  dict_get (c, model) (_back_memoization self) = None ->
  back (S fuel) t model self = (Raise KeyError, self).
Proof.
  intros Hpend Hch Hpre Hc. unfold back, bind.
  rewrite (back_loop_pending _ _ _ _ _ Hpend), Hch.
  rewrite (mapM_memo_arg_KeyError model self pre post c Hpre Hc).
  reflexivity.
Qed.

End FailedBack.

(** ** Symbols that the manager does not know *)

Section UndefinedSymbols.
Context `{TypeOracle}.

Lemma _z3_to_type_raises (s : Z3Sort) (e : PyExn) :
  _z3_to_type s = Raise e ->
  e = NotImplementedError "Unsupported sort in conversion: %s".
Proof.
  induction s as [| | |w|s1 IH1 s2 IH2|n|n]; cbn; try discriminate.
  - destruct (_z3_to_type s1) as [t1|e1]; cbn; [|exact IH1].
    destruct (_z3_to_type s2) as [t2|e2]; cbn; [discriminate|exact IH2].
  - intros [= <-]. reflexivity.
Qed.

Lemma _back_fun_defined (kind : Z3_decl_kind)
    (fun_ : list FNode -> Z3_ast -> result FNode) (args : list FNode)
    (expr : Z3_ast) (name : string) :
  _back_fun kind = Some fun_ ->
  fun_ args expr <> Raise (UndefinedSymbolError name).
Proof.
  intros Hfun.
  destruct kind; try discriminate Hfun; injection Hfun as <-;
    unfold back1, back2, back3, back_param1, _back_z3_eq, _back_z3_uminus,
      _back_z3_const_array, item, from_z3, bv_unsigned_value;
    destruct args as [|a [|b [|c args]]]; cbn;
    repeat match goal with
    | |- context [match ?x with _ => _ end] => destruct x; cbn
    end;
    try discriminate.
  all: destruct (_z3_to_type _) as [ty|e] eqn:Hty; cbn;
    [destruct ty; discriminate|].
  all: apply _z3_to_type_raises in Hty; subst; discriminate.
Qed.

Lemma _back_single_term_constant_defined (rec : BackRec)
    (d : Z3_func_decl) (self : Z3Converter) (name : string)
    (self1 : Z3Converter) :
  _back_single_term rec (Z3_app d []) [] None self
  <> (Raise (UndefinedSymbolError name), self1).
Proof.
  unfold _back_single_term.
  cbn [is_expr is_quantifier negb Z3_get_app_decl_kind].
  rewrite nary_ok_short by (cbn; lia). cbn [negb].
  destruct (_back_fun (decl_kind d)) as [fun_|] eqn:Hfun.
  { unfold lift. intros [= Hr _]. exact (_back_fun_defined _ _ _ _ _ Hfun Hr). }
  replace (is_const (Z3_app d [])) with true by reflexivity.
  destruct (is_as_array (Z3_app d [])); [discriminate|].
  destruct (is_algebraic_value (Z3_app d [])); [discriminate|].
  unfold back_symbol, on_mgr, FormulaManager.get_symbol.
  destruct (FormulaManager.symbols (mgr self) !! expr_name (Z3_app d []));
    [discriminate|].
  unfold bind, lift. destruct (_z3_to_type _) as [ty|e] eqn:Hty.
  - unfold FormulaManager.Symbol. cbn [mgr with_mgr].
    destruct (FormulaManager.symbols _ !! _) as [ty'|];
      [destruct (decide (ty' = ty))|]; discriminate.
  - intros [= -> _]. apply _z3_to_type_raises in Hty. discriminate Hty.
Qed.

Lemma back_constant_defined (fuel : nat) (d : Z3_func_decl)
    (self : Z3Converter) (name : string) (self' : Z3Converter) :
  back fuel (Z3_app d []) None self
  <> (Raise (UndefinedSymbolError name), self').
Proof.
  assert (Hpending : forall n s, pending s (Z3_app d [], None) ->
            back_loop n None [Z3_app d []] s
            <> (Raise (UndefinedSymbolError name), self')).
  { intros [|n] s Hp; [discriminate|].
    rewrite (back_loop_pending _ _ _ _ _ Hp).
    change (mapM (memo_arg None s) (children (Z3_app d [])))
      with (@Ok (list FNode) []).
    lazy beta iota.
    destruct (_back_single_term (back n) (Z3_app d []) [] None s)
      as [[res|e] s1] eqn:Hterm.
    - destruct n; discriminate.
    - intros [= -> ->].
      exact (_back_single_term_constant_defined _ _ _ _ _ Hterm). }
  unfold back, bind.
  destruct (back_loop fuel None [Z3_app d []] self) as [[[]|e] s1] eqn:Hloop.
  - unfold memo_arg. destruct (dict_get _ _) as [[g|]|]; discriminate.
  - intros [= -> ->]. revert Hloop. destruct fuel as [|fuel]; [discriminate|].
    destruct (dict_get (Z3_app d [], None) (_back_memoization self))
      as [[g|]|] eqn:Hget.
    + rewrite (back_loop_resolved _ _ _ _ _ g Hget).
      destruct fuel; discriminate.
    + apply Hpending. exact Hget.
    + rewrite (back_loop_absent _ _ _ _ _ Hget).
      apply Hpending. unfold pending. cbn [memo_set _back_memoization].
      apply dict_get_set_eq.
Qed.

(** [back] on a constant of the engine, [d()], under no model never
    raises [UndefinedSymbolError]: a symbol the manager does not know is
    declared, with the type read off the sort, and not reported. *)
Theorem back_constant_never_undefined (fuel : nat) (d : Z3_func_decl)
    (self : Z3Converter) :
  is_undefined_symbol_error (fst (back fuel (Z3_app d []) None self))
  = false.
Proof.
  destruct (back fuel (Z3_app d []) None self) as [[f|e] self'] eqn:Hback;
    [reflexivity|].
  destruct e; try reflexivity.
  destruct (back_constant_defined fuel d self name self' Hback).
Qed.

End UndefinedSymbols.

(** ** Strings *)

Section StringFacts.
Context `{TypeOracle}.

Lemma convert_unfold (o : op.t) (xs : list FNode) (p : Payload) :
  convert (mkFNode o xs p)
  = (zs ← mapM convert xs; walk_node (mkFNode o xs p) zs).
Proof.
  rewrite convert_walk, walk_node_eq.
  assert (HF : forall l, mapM convert l = mapM walk l).
  { induction l as [|x l IHl]; [reflexivity|].
    cbn [mapM]. rewrite IHl, convert_walk. reflexivity. }
  rewrite HF. reflexivity.
Qed.

Lemma mapM_convert_Raise (xs : list FNode) (c : FNode) (e : PyExn) :
  c ∈ xs -> convert c = Raise e -> exists e', mapM convert xs = Raise e'.
Proof.
  intros Hin Hc. induction xs as [|x xs IH]; [inversion Hin|].
  cbn [mapM]. destruct (convert x) as [z|e0] eqn:Hx; [|cbn; eauto].
  apply elem_of_cons in Hin as [->|Hin]; [congruence|].
  destruct (IH Hin) as [e' ->]. cbn. eauto.
Qed.

Lemma subformula_convert_Raise (s f : FNode) (e : PyExn) :
  subformula s f -> convert s = Raise e -> exists e', convert f = Raise e'.
Proof.
  induction 1 as [f|s c f Hs IH Hc]; intros He; [eauto|].
  destruct (IH He) as [e1 He1]. destruct f as [o xs p]. cbn [args] in Hc.
  rewrite convert_unfold.
  destruct (mapM_convert_Raise xs c e1 Hc He1) as [e' ->]. cbn. eauto.
Qed.

(** [convert] has no sort for strings: on a symbol of type string it
    raises [ConvertExpressionError] with the symbol as its expression,
    and it returns no term for any formula in which such a symbol is an
    argument, at whatever depth. *)
Theorem convert_rejects_string_symbols (name : string) (f : FNode) :
  let symbol := FormulaManager.symbol_node name STRING in
  convert symbol
  = Raise (ConvertExpressionError "Unsupported string symbol: %s"
             (FormulaObject symbol)) /\
  (subformula symbol f -> exists e, convert f = Raise e).
Proof.
  intros symbol. split; [reflexivity|].
  intros Hsub. eapply subformula_convert_Raise; [exact Hsub|reflexivity].
Qed.

End StringFacts.

(** ** The values of a model object *)

Section ModelValues.
Context `{TypeOracle} `{Z3Engine}.

Lemma back_Ok_resolved (fuel : nat) (t : Z3_ast) (model : option ModelRef)
    (self : Z3Converter) (f : FNode) (self' : Z3Converter) :
  back fuel t model self = (Ok f, self') -> resolved self' (t, model) f.
Proof.
  intros Hback. apply bind_inv_Ok in Hback as ([] & s1 & _ & Hmemo).
  injection Hmemo as Hmemo <-. apply memo_arg_Ok, Hmemo.
Qed.

(** [Z3Model.get_value] keeps what it computed: asked again for the
    value of the same formula, it returns the same node from the table of
    its converter, converts nothing and changes nothing. *)
Theorem model_get_value_cached (fuel n : nat) (formula : FNode)
    (model_completion : bool) (self self' : Z3Model.t) (value : FNode) :
  Z3Model.get_value fuel formula model_completion self = (Ok value, self') ->
  Z3Model.get_value (S (S n)) formula model_completion self'
  = (Ok value, self').
Proof.
  unfold Z3Model.get_value.
  destruct (convert formula) as [titem|e]; [|discriminate].
  cbn zeta.
  destruct (back fuel _ _ (Z3Model.converter self)) as [r c] eqn:Hback.
  intros [= -> <-]. cbn [Z3Model.z3_model Z3Model.converter].
  apply back_Ok_resolved in Hback.
  rewrite (back_resolved n _ _ _ _ Hback). reflexivity.
Qed.

End ModelValues.

(** ** The assumptions of [solve] *)

Section AssumptionFacts.
Context `{TypeOracle}.

Lemma split_assumptions_acc (assumptions : list FNode)
    (bool_ass : list Z3_ast) (other_ass : list FNode) :
  split_assumptions assumptions bool_ass other_ass
  = (lits ← mapM convert (List.filter is_literal assumptions);
     Ok ((bool_ass ++ lits)%list,
         (other_ass
          ++ List.filter (fun x => negb (is_literal x)) assumptions)%list)).
Proof.
  revert bool_ass other_ass.
  induction assumptions as [|x xs IH]; intros bool_ass other_ass.
  - cbn. rewrite !app_nil_r. reflexivity.
  - cbn [split_assumptions List.filter]. destruct (is_literal x); cbn [negb].
    + cbn [mapM]. destruct (convert x) as [t|e]; [|reflexivity].
      cbn [mbind result_bind]. rewrite IH.
      destruct (mapM convert (List.filter is_literal xs)) as [ts|e];
        [|reflexivity].
      cbn. rewrite <- app_assoc. reflexivity.
    + rewrite IH.
      destruct (mapM convert (List.filter is_literal xs)) as [ts|e];
        [|reflexivity].
      cbn. rewrite <- app_assoc. reflexivity.
Qed.

(** The loop of [_solve] over the assumptions splits them in two and
    keeps the order in both parts: the literals, lowered, go to the
    engine's check; the other formulas are the ones asserted as one
    conjunction.  It raises exactly when lowering a literal raises, with
    the exception of the first literal that does. *)
Theorem split_assumptions_partition (assumptions : list FNode) :
  split_assumptions assumptions [] []
  = (lits ← mapM convert (List.filter is_literal assumptions);
     Ok (lits, List.filter (fun x => negb (is_literal x)) assumptions)).
Proof. rewrite split_assumptions_acc. reflexivity. Qed.

End AssumptionFacts.

(** ** Array values *)

Section ArrayValueFacts.
Context `{TypeOracle}.

Lemma array_value_stores_pairs (pairs : list (Z3_ast * Z3_ast))
    (z3term : Z3_ast) :
  array_value_stores z3term (flat_map (fun kv => [fst kv; snd kv]) pairs)
  = Ok (fold_left (fun a kv => Z3_mk_store a (fst kv) (snd kv)) pairs
          z3term).
Proof.
  revert z3term. induction pairs as [|[k v] pairs IH]; intros z3term.
  - reflexivity.
  - cbn [flat_map app fst snd array_value_stores fold_left].
    unfold walk_array_store. cbn. apply IH.
Qed.

Lemma array_value_stores_dangling (pairs : list (Z3_ast * Z3_ast))
    (key z3term : Z3_ast) :
  array_value_stores z3term
    (flat_map (fun kv => [fst kv; snd kv]) pairs ++ [key])
  = Raise IndexError.
Proof.
  revert z3term. induction pairs as [|[k v] pairs IH]; intros z3term.
  - reflexivity.
  - cbn [flat_map app fst snd array_value_stores].
    unfold walk_array_store. cbn. apply IH.
Qed.

(** [walk_array_value] lowers an array value to the constant array of its
    default, of the lowered index type, under one store for each pair of
    an index and a value, the first pair innermost.  When its arguments
    end with an index that has no value, it raises [IndexError]; when the
    index type has no sort, it raises before anything is built. *)
Theorem walk_array_value_stores (formula : FNode) (default : Z3_ast)
    (pairs : list (Z3_ast * Z3_ast)) (key : Z3_ast) :
  let flat := flat_map (fun kv => [fst kv; snd kv]) pairs in
  match _type_to_z3 (array_value_index_type formula) with
  | Ok s =>
      walk_array_value formula (default :: flat)
      = Ok (fold_left (fun a kv => Z3_mk_store a (fst kv) (snd kv)) pairs
              (Z3_mk_const_array s default)) /\
      walk_array_value formula (default :: flat ++ [key])%list
      = Raise IndexError
  | Raise e =>
      walk_array_value formula (default :: flat) = Raise e
  end.
Proof.
  intros flat. unfold walk_array_value.
  destruct (_type_to_z3 (array_value_index_type formula)) as [s|e];
    [|reflexivity].
  cbn [mbind result_bind item lookup list_lookup tail]. split.
  - apply array_value_stores_pairs.
  - apply array_value_stores_dangling.
Qed.

End ArrayValueFacts.

(** ** The round trip of a Boolean if-then-else *)

Section BooleanIte.
Context `{TypeOracle}.

Lemma back_tree_builtin (m : FormulaManager.t) (k : Z3_decl_kind)
    (ps : list Z3_parameter) (range : Z3Sort) (ts : list Z3_ast)
    (xs : list FNode) (fun_ : list FNode -> Z3_ast -> result FNode) :
  mapM (back_tree m) ts = Ok xs ->
  _back_fun k = Some fun_ ->
  nary_ok (builtin k ps range ts) xs = true ->
  back_tree m (builtin k ps range ts) = fun_ xs (builtin k ps range ts).
Proof.
  intros Hbs Hfun Hnary. rewrite back_tree_eq.
  change (children (builtin k ps range ts)) with ts.
  rewrite Hbs. cbn [mbind result_bind].
  apply back_step_table; [exact Hfun|exact Hnary].
Qed.

Lemma symbols_declared_builtin (m : FormulaManager.t) (k : Z3_decl_kind)
    (ps : list Z3_parameter) (range : Z3Sort) (ts : list Z3_ast)
    (fun_ : list FNode -> Z3_ast -> result FNode) :
  _back_fun k = Some fun_ ->
  forallb (symbols_declared m) ts = true ->
  symbols_declared m (builtin k ps range ts) = true.
Proof.
  intros Hfun Hts. apply symbols_declared_app; [|exact Hts].
  eapply taken_for_symbol_table. exact Hfun.
Qed.

(** A Boolean if-then-else does not come back as it went: [convert]
    lowers it to two clauses, and [back] rebuilds from them the
    conjunction of [(not i) or t] and [i or e], whose parts are the
    formulas the if-then-else was made of ([Not], [Or] and [And] being
    the formula manager's: the negation of a negation [i] is the formula
    [i] negates).  Stated for a condition and branches that survive the
    round trip, a walk that asks Z3 for well-sorted terms only, and the
    object [convert] returns being of the class z3py gives its term,
    which is the Boolean one. *)
Theorem boolean_ite_round_trip (i t e : FNode) (model : option ModelRef)
    (self : Z3Converter) :
  liftable (mgr self) i = true ->
  liftable (mgr self) t = true ->
  liftable (mgr self) e = true ->
  is_bool_type (get_type (FormulaManager.Ite i t e)) = true ->
  walk_well_sorted (FormulaManager.Ite i t e) = true ->
  class_kept (FormulaManager.Ite i t e) = true ->
  (forall k, ~ pending self k) ->
  table_sound model self ->
  exists z,
    convert (FormulaManager.Ite i t e) = Ok z /\
    forall fuel, (2 * ast_size z < fuel)%nat ->
      exists self',
        back fuel z model self
        = (Ok (FormulaManager.And
                 [FormulaManager.Or [FormulaManager.Not i; t];
                  FormulaManager.Or [i; e]]), self') /\
        mgr self' = mgr self.
Proof.
  intros Hi Ht He Hbool _ _ Hnone Hsound.
  destruct (liftable_round_trip (mgr self) i Hi) as (zi & Hci & Hbi & Hdi).
  destruct (liftable_round_trip (mgr self) t Ht) as (zt & Hct & Hbt & Hdt).
  destruct (liftable_round_trip (mgr self) e He) as (ze & Hce & Hbe & Hde).
  set (m := mgr self) in *.
  set (z := Z3_mk_and [Z3_mk_or [Z3_mk_not zi; zt]; Z3_mk_or [zi; ze]]).
  assert (Hconv : convert (FormulaManager.Ite i t e) = Ok z).
  { unfold FormulaManager.Ite, FormulaManager.node.
    rewrite (convert_node _ [i; t; e] _ [zi; zt; ze])
      by (cbn [mapM]; rewrite Hci, Hct, Hce; reflexivity).
    cbn [walk_node node_type]. unfold walk_ite. cbn.
    unfold FormulaManager.Ite, FormulaManager.node in Hbool.
    rewrite Hbool. reflexivity. }
  assert (Hnot : back_tree m (Z3_mk_not zi) = Ok (FormulaManager.Not i)).
  { unfold Z3_mk_not. etransitivity;
      [eapply back_tree_builtin;
       [cbn [mapM]; rewrite Hbi; reflexivity | reflexivity
       |apply nary_ok_short; cbn; lia]
      |reflexivity]. }
  assert (Hor1 : back_tree m (Z3_mk_or [Z3_mk_not zi; zt])
                 = Ok (FormulaManager.Or [FormulaManager.Not i; t])).
  { unfold Z3_mk_or. etransitivity;
      [eapply back_tree_builtin;
       [cbn [mapM]; rewrite Hnot, Hbt; reflexivity | reflexivity
       |apply nary_ok_short; cbn; lia]
      |reflexivity]. }
  assert (Hor2 : back_tree m (Z3_mk_or [zi; ze])
                 = Ok (FormulaManager.Or [i; e])).
  { unfold Z3_mk_or. etransitivity;
      [eapply back_tree_builtin;
       [cbn [mapM]; rewrite Hbi, Hbe; reflexivity | reflexivity
       |apply nary_ok_short; cbn; lia]
      |reflexivity]. }
  assert (Hz : back_tree m z
               = Ok (FormulaManager.And
                       [FormulaManager.Or [FormulaManager.Not i; t];
                        FormulaManager.Or [i; e]])).
  { unfold z, Z3_mk_and. etransitivity;
      [eapply back_tree_builtin;
       [cbn [mapM]; rewrite Hor1, Hor2; reflexivity | reflexivity
       |apply nary_ok_short; cbn; lia]
      |reflexivity]. }
  assert (Hdecl : symbols_declared m z = true).
  { assert (Hd1 : symbols_declared m (Z3_mk_not zi) = true).
    { unfold Z3_mk_not. eapply symbols_declared_builtin; [reflexivity|].
      cbn [forallb]. rewrite Hdi. reflexivity. }
    assert (Hd2 : symbols_declared m (Z3_mk_or [Z3_mk_not zi; zt]) = true).
    { unfold Z3_mk_or. eapply symbols_declared_builtin; [reflexivity|].
      cbn [forallb]. rewrite Hd1, Hdt. reflexivity. }
    assert (Hd3 : symbols_declared m (Z3_mk_or [zi; ze]) = true).
    { unfold Z3_mk_or. eapply symbols_declared_builtin; [reflexivity|].
      cbn [forallb]. rewrite Hdi, Hde. reflexivity. }
    unfold z, Z3_mk_and. eapply symbols_declared_builtin; [reflexivity|].
    cbn [forallb]. rewrite Hd2, Hd3. reflexivity. }
  exists z. split; [exact Hconv|]. intros fuel Hfuel.
  destruct (back_loop_term model m (S (ast_size z)) z _ [] self
              (Nat.lt_succ_diag_r (ast_size z)) eq_refl Hsound Hdecl Hz
              (fun s _ => Hnone (s, model)))
    as (n & self1 & Hn & Hrun & Hres).
  exists self1. split.
  - eapply back_of_loop_run; [|exact Hrun|exact Hres]. lia.
  - destruct Hrun as (_ & Hm & _). exact Hm.
Qed.

End BooleanIte.

(** ** A node that is rejected after its children are rebuilt *)

Section RootFailure.
Context `{TypeOracle}.
Variable model : option ModelRef.

(** The loop converts the terms on top of its stack one after the
    other. *)
Lemma back_loop_terms (m : FormulaManager.t) :
  forall (cs rest : list Z3_ast) (s0 : Z3Converter),
    (forall c, c ∈ cs -> exists g, back_tree m c = Ok g) ->
    forallb (symbols_declared m) cs = true ->
    mgr s0 = m -> table_sound model s0 ->
    (forall c s, c ∈ cs -> subterm s c -> ~ pending s0 (s, model)) ->
    exists n s1,
      (n <= 2 * ast_sizes cs)%nat /\
      loop_run model n (cs ++ rest) rest s0 s1 /\
      forall c g, c ∈ cs -> back_tree m c = Ok g ->
                  resolved s1 (c, model) g.
Proof.
  induction cs as [|c cs IH]; intros rest s0 Hgs Hd Hm Hs Hp.
  - exists 0%nat, s0. split; [cbn; lia|]. split.
    + apply loop_run_nil, Hs.
    + intros c g Hc. inversion Hc.
  - cbn [forallb] in Hd. apply andb_true_iff in Hd as [Hdc Hdcs].
    destruct (Hgs c) as [fc Hfc]; [left|].
    destruct (back_loop_term model m (S (ast_size c)) c fc (cs ++ rest)%list
                s0 (Nat.lt_succ_diag_r _) Hm Hs Hdc Hfc)
      as (n1 & s1 & Hn1 & Hrun1 & Hr1).
    { intros s Hsub. apply (Hp c); [left|exact Hsub]. }
    pose proof Hrun1 as (_ & Hm1 & Hs1 & Hp1 & _).
    destruct (IH rest s1) as (n2 & s2 & Hn2 & Hrun2 & Hr2).
    { intros c' Hc'. apply Hgs. right. exact Hc'. }
    { exact Hdcs. }
    { congruence. }
    { exact Hs1. }
    { intros c' s Hc' Hsub Hpend. apply Hp1 in Hpend.
      apply (Hp c' s); [right; exact Hc'|exact Hsub|exact Hpend]. }
    exists (n1 + n2)%nat, s2. split; [rewrite ast_sizes_cons; lia|].
    split; [exact (loop_run_trans _ _ _ _ _ _ _ _ _ Hrun1 Hrun2)|].
    intros c' g Hc' Hg. apply elem_of_cons in Hc' as [->|Hc'].
    + destruct Hrun2 as (_ & _ & _ & _ & Hres2). apply Hres2.
      rewrite Hfc in Hg. injection Hg as <-. exact Hr1.
    + eapply Hr2; eauto.
Qed.

(** When the children of a term are rebuilt and [_back_single_term]
    rejects the term itself, [back] raises what it raises. *)
Lemma back_raises_at_root (fuel : nat) (t : Z3_ast) (args : list FNode)
    (e : PyExn) (self : Z3Converter) :
  (forall k, ~ pending self k) ->
  table_sound model self ->
  forallb (symbols_declared (mgr self)) (children t) = true ->
  mapM (back_tree (mgr self)) (children t) = Ok args ->
  (forall rec mdl s, _back_single_term rec t args mdl s = (Raise e, s)) ->
  (2 * ast_size t < fuel)%nat ->
  exists self',
    back fuel t model self = (Raise e, self') /\ mgr self' = mgr self.
Proof.
  intros Hnone Hs Hd Hargs Hstep Hfuel.
  assert (Hget : dict_get (t, model) (_back_memoization self) = None).
  { destruct (dict_get (t, model) (_back_memoization self)) as [[g|]|]
      eqn:Hget; [| |reflexivity].
    - pose proof (Hs t g Hget) as Hg. rewrite back_tree_eq, Hargs in Hg.
      cbn [mbind result_bind] in Hg. unfold back_step in Hg.
      rewrite Hstep in Hg. discriminate Hg.
    - destruct (Hnone _ Hget). }
  set (self0 := memo_set (t, model) None self).
  pose proof Hargs as Hall. apply mapM_result_Ok in Hall.
  destruct (back_loop_terms (mgr self) (rev (children t)) [t] self0)
    as (n1 & self1 & Hn1 & (Hrun1 & Hm1 & Hs1 & Hp1 & Hres1) & Hr1).
  { intros c Hc. apply elem_of_rev in Hc.
    apply list_elem_of_lookup in Hc as [i Hi].
    destruct (Forall2_lookup_l _ _ _ _ _ Hall Hi) as (fc & _ & Hfc).
    eauto. }
  { rewrite forallb_forall in Hd |- *. intros c Hc. apply Hd.
    apply in_rev. exact Hc. }
  { reflexivity. }
  { apply table_sound_mark, Hs. }
  { intros c s Hc Hsub Hpend. apply elem_of_rev in Hc.
    unfold self0, pending in Hpend.
    cbn [memo_set _back_memoization] in Hpend.
    destruct (decide ((t, model) = (s, model))) as [Heq|Hne].
    - injection Heq as ->. apply subterm_size in Hsub.
      pose proof (children_ast_size c s Hc). lia.
    - rewrite dict_get_set_ne in Hpend by exact Hne.
      exact (Hnone _ Hpend). }
  rewrite ast_sizes_rev in Hn1.
  assert (Hpt : pending self1 (t, model)).
  { apply Hp1. unfold self0, pending. cbn [memo_set _back_memoization].
    apply dict_get_set_eq. }
  assert (Hmemo : mapM (memo_arg model self1) (children t) = Ok args).
  { apply mapM_result_Ok. eapply Forall2_impl_elem; [exact Hall|].
    intros c g Hc Hg. cbv beta in Hg.
    assert (Hrc : resolved self1 (c, model) g).
    { apply Hr1; [|exact Hg]. apply list_elem_of_In, in_rev.
      rewrite rev_involutive. apply list_elem_of_In, Hc. }
    unfold memo_arg. unfold resolved, BackKey in Hrc. rewrite Hrc.
    reflexivity. }
  exists self1. split; [|exact Hm1].
  pose proof (ast_size_children t) as Hsize.
  unfold back.
  replace fuel with (S (n1 + S (fuel - S (S n1))))%nat by lia.
  apply bind_Raise.
  rewrite (back_loop_absent _ _ _ _ _ Hget). fold self0.
  rewrite Hrun1.
  rewrite (back_loop_pending _ _ _ _ _ Hpt), Hmemo, Hstep.
  reflexivity.
Qed.

End RootFailure.

Section RejectedNodes.
Context `{TypeOracle}.

(** An application of an uninterpreted function to three or more
    arguments goes one way only: [convert] lowers it, and [back] on the
    term it gave fails the assertion on the number of arguments at the
    head of [_back_single_term], before the rule for applications is
    reached.  Stated for arguments that themselves survive the round
    trip, a walk that asks Z3 for well-sorted terms only (the arguments
    have the sorts of the function's parameters), and a return type
    such that the object [convert] returns is of the class z3py gives
    its term (no uninterpreted type). *)
Theorem wide_application_back_fails (name : string) (r : PySMTType)
    (ps : list PySMTType) (xs : list FNode) (model : option ModelRef)
    (self : Z3Converter) :
  (2 < length xs)%nat ->
  forallb (liftable (mgr self)) xs = true ->
  has_z3_sort r = true ->
  forallb has_z3_sort ps = true ->
  walk_well_sorted (FormulaManager.Function
                      (FormulaManager.symbol_node name (FunctionType r ps))
                      xs)
  = true ->
  class_kept (FormulaManager.Function
                (FormulaManager.symbol_node name (FunctionType r ps)) xs)
  = true ->
  (forall k, ~ pending self k) ->
  table_sound model self ->
  exists z,
    convert (FormulaManager.Function
               (FormulaManager.symbol_node name (FunctionType r ps)) xs)
    = Ok z /\
    forall fuel, (2 * ast_size z < fuel)%nat ->
      exists self',
        back fuel z model self
        = (Raise (AssertionError "Unexpected n-ary term: %s"), self') /\
        mgr self' = mgr self.
Proof.
  intros Hlen Hxs Hr Hps _ _ Hnone Hsound.
  destruct (round_trip_children (mgr self) xs) as (ts & Hf & Hcs & Hbs & Hds).
  { apply Forall_forall. intros x _. apply liftable_round_trip. }
  { exact Hxs. }
  destruct (_type_to_z3_Ok r Hr) as [sr Hsr].
  destruct (mapM__type_to_z3_Ok ps Hps) as [sps Hsps].
  exists (Z3_mk_app (Z3_mk_func_decl name sps sr) ts). split.
  - destruct xs as [|a xs]; [cbn in Hlen; lia|].
    unfold FormulaManager.Function, FormulaManager.symbol_node.
    cbn [payload].
    rewrite (convert_node _ (a :: xs) _ ts Hcs). cbn [walk_node node_type].
    unfold walk_function, _z3_func_decl, function_name.
    cbn [symbol_type payload symbol_name]. rewrite Hsps. cbn.
    rewrite Hsr. reflexivity.
  - intros fuel Hfuel.
    apply (back_raises_at_root model fuel _ xs); auto.
    intros rec mdl s. unfold _back_single_term, Z3_mk_app, Z3_mk_func_decl.
    cbn [is_expr is_quantifier negb].
    replace (nary_ok _ xs) with false; [reflexivity|].
    unfold nary_ok. rewrite bool_decide_true by exact Hlen.
    destruct (bool_decide (length xs = 3%nat)); reflexivity.
Qed.

(** An application of an operator that has no rule in [_back_fun] and is
    no uninterpreted function (the native [mod], say) is not lifted:
    once its one or two arguments are rebuilt, [back] raises
    [ConvertExpressionError] with the term as its expression. *)
Theorem back_unsupported_operator (fuel : nat) (d : Z3_func_decl)
    (ts : list Z3_ast) (args : list FNode) (model : option ModelRef)
    (self : Z3Converter) :
  _back_fun (decl_kind d) = None ->
  is_function (Z3_app d ts) = false ->
  (1 <= length ts <= 2)%nat ->
  (forall k, ~ pending self k) ->
  table_sound model self ->
  forallb (symbols_declared (mgr self)) ts = true ->
  mapM (back_tree (mgr self)) ts = Ok args ->
  (2 * ast_size (Z3_app d ts) < fuel)%nat ->
  exists self',
    back fuel (Z3_app d ts) model self
    = (Raise (ConvertExpressionError "Unsupported expression: %s"
                (NativeObject (Z3_app d ts))), self') /\
    mgr self' = mgr self.
Proof.
  intros Hfun Hnof Hlen Hnone Hsound Hds Hbs Hfuel.
  apply (back_raises_at_root model fuel _ args); auto.
  intros rec mdl s. unfold _back_single_term.
  cbn [is_expr is_quantifier negb Z3_get_app_decl_kind].
  assert (Hargs : length args = length ts).
  { apply mapM_result_Ok in Hbs. symmetry. eapply Forall2_length, Hbs. }
  rewrite nary_ok_short by lia. cbn [negb]. rewrite Hfun.
  assert (Hconst : is_const (Z3_app d ts) = false).
  { destruct ts; [cbn in Hlen; lia|]. reflexivity. }
  rewrite Hconst, Hnof. reflexivity.
Qed.

End RejectedNodes.



(** ** Sample runs of the further properties *)

Lemma push_pop_depth_witness :
  let self := Sample.session None in
  _pop 1 self = (Raise (Z3Exception "index out of bounds"), self) /\
  assertion_stack (z3 (snd (_push 2 self))) = [[]; []; []] /\
  _pop 2 (snd (_push 2 self)) = (Ok tt, self).
Proof.
  intros self.
  destruct (push_pop_depth 1 self eq_refl) as [_ Hpop1].
  destruct (push_pop_depth 2 self eq_refl) as [Hpush2 _].
  destruct (push_pop_depth 2 (snd (_push 2 self)) eq_refl) as [_ Hpop2].
  split; [exact Hpop1|]. split; [rewrite Hpush2; reflexivity|exact Hpop2].
Defined.

Lemma pop_undoes_push_witness :
  let self := Sample.session (Some "named") in
  let asserted := [(Sample.p, None); (Sample.q, Some "goal")] in
  let pushed := snd (_push 1 self) in
  let s2 :=
    snd (for_each asserted
           (fun a => forget (@_add_assertion sample_oracle (fst a) (snd a)))
           pushed) in
  length (current_scope (z3 s2)) = 2%nat /\
  exists s3, _pop 1 s2 = (Ok tt, s3) /\ z3 s3 = z3 self.
Proof.
  intros self asserted pushed s2. split; [reflexivity|].
  destruct (@pop_undoes_push sample_oracle 0 asserted self pushed s2
              eq_refl eq_refl eq_refl) as (s3 & Hpop & Hz & _).
  exists s3. split; [exact Hpop|exact Hz].
Defined.

Lemma reset_empties_stack_and_sets_options_witness :
  let engine := constant_engine sat [] [] None in
  let o := mk_options true (Some "named") None [] in
  let s0 :=
    mk_solver (with_parameters (option_settings o) new_z3) o
      (new_converter Sample.manager) false [] None None in
  let self :=
    snd (@add_assertion sample_oracle Sample.p None (snd (_push 2 s0))) in
  @Z3Solver_init engine Sample.manager o = Ok s0 /\
  length (assertion_stack (z3 self)) = 3%nat /\
  exists s',
    @_reset_assertions engine self = (Ok tt, s') /\
    assertion_stack (z3 s') = [[]] /\
    parameters (z3 s')
    = [("model", BoolParam true); ("unsat_core", BoolParam true);
       ("model", BoolParam true); ("unsat_core", BoolParam true)].
Proof.
  intros engine o s0 self. split; [reflexivity|]. split; [reflexivity|].
  destruct (@reset_empties_stack_and_sets_options engine Sample.manager
              self s0 eq_refl ltac:(discriminate))
    as (s' & Hreset & _ & Hstack & Hparams & _).
  exists s'. split; [exact Hreset|]. split; [exact Hstack|exact Hparams].
Defined.

Lemma solve_under_literals_witness :
  let engine := constant_engine unsat [] [] None in
  let self := Sample.session None in
  let lits := [Z3_mk_const "p" BoolSort;
               Z3_mk_not (Z3_mk_const "q" BoolSort)] in
  @_solve sample_oracle engine
    (Some [Sample.p; FormulaManager.Not Sample.q]) self
  = (Ok false, with_z3 (with_last_check lits (z3 self)) self).
Proof.
  intros engine self lits.
  exact (@solve_under_literals sample_oracle engine
           [Sample.p; FormulaManager.Not Sample.q] lits self
           eq_refl eq_refl eq_refl).
Defined.

Lemma eliminate_quantifiers_ignores_simplify_witness :
  let self := new_converter Sample.manager in
  @z3_tactic simplifying_engine "simplify" (Z3_mk_const "p" BoolSort)
  = Ok Z3_mk_true /\
  @eliminate_quantifiers sample_oracle (constant_engine sat [] [] None)
    sample_logics 10 Sample.p self
  = @eliminate_quantifiers sample_oracle simplifying_engine sample_logics
      10 Sample.p self.
Proof.
  intros self. split; [reflexivity|].
  exact (eliminate_quantifiers_ignores_simplify sample_oracle sample_logics
           (constant_engine sat [] [] None) simplifying_engine 10 Sample.p
           self (Z3_mk_const "p" BoolSort) (Z3_mk_const "p" BoolSort)
           Z3_mk_true eq_refl eq_refl eq_refl eq_refl).
Defined.

Lemma back_computes_back_tree_witness :
  let not_p := Z3_mk_not (Z3_mk_const "p" BoolSort) in
  let t := Z3_mk_and [not_p; Z3_mk_or [not_p; Z3_mk_const "q" BoolSort]] in
  let f := FormulaManager.And
             [FormulaManager.Not Sample.p;
              FormulaManager.Or [FormulaManager.Not Sample.p; Sample.q]] in
  exists self',
    @back sample_oracle 15 t None (new_converter Sample.manager)
    = (Ok f, self') /\
    mgr self' = Sample.manager.
Proof.
  intros not_p t f.
  destruct (@back_computes_back_tree sample_oracle 15 t f None
              (new_converter Sample.manager))
    as (self' & Hback & Hmgr & _).
  - intros k Hk. discriminate Hk.
  - intros t' g Hr. discriminate Hr.
  - vm_compute. reflexivity.
  - vm_compute. reflexivity.
  - vm_compute. lia.
  - exists self'. split; [exact Hback|exact Hmgr].
Defined.

Lemma liftable_formula_round_trip_witness :
  let f := FormulaManager.And
             [FormulaManager.LE Sample.x
                (FormulaManager.node op.PLUS [Sample.y; FormulaManager.Int 2]);
              FormulaManager.Or [FormulaManager.Not Sample.p; Sample.q]] in
  exists t self',
    @convert sample_oracle f = Ok t /\
    @back sample_oracle 30 t None (new_converter Sample.manager)
    = (Ok f, self').
Proof.
  intros f.
  destruct (@liftable_formula_round_trip sample_oracle f None
              (new_converter Sample.manager))
    as (t & Hconvert & Hback).
  - vm_compute. reflexivity.
  - vm_compute. reflexivity.
  - vm_compute. reflexivity.
  - intros k Hk. discriminate Hk.
  - intros t' g Hr. discriminate Hr.
  - destruct (Hback 30%nat) as (self' & Hrun & _).
    + vm_compute in Hconvert. injection Hconvert as <-. vm_compute. lia.
    + exists t, self'. split; [exact Hconvert|exact Hrun].
Defined.

Lemma failed_back_leaves_mark_witness :
  let t := Z3_mk_and [Z3_mk_const "p" BoolSort; Sample.x_mod_2_is_0] in
  let run := @back sample_oracle 20 t None (new_converter Sample.manager) in
  fst run
  = Raise (ConvertExpressionError "Unsupported expression: %s"
             (NativeObject Sample.x_mod_2)) /\
  pending (snd run) (t, None).
Proof.
  intros t run. split; [vm_compute; reflexivity|].
  apply (@failed_back_leaves_mark sample_oracle 20 t
           (new_converter Sample.manager)
           (ConvertExpressionError "Unsupported expression: %s"
              (NativeObject Sample.x_mod_2))
           (snd run)).
  - vm_compute. reflexivity.
  - discriminate.
Defined.

Lemma marked_term_raises_KeyError_witness :
  let t := Z3_mk_and [Z3_mk_const "p" BoolSort; Sample.x_mod_2_is_0] in
  let failed :=
    snd (@back sample_oracle 20 t None (new_converter Sample.manager)) in
  @back sample_oracle 20 t None failed = (Raise KeyError, failed).
Proof.
  intros t failed.
  apply (@marked_term_raises_KeyError sample_oracle 19 t None failed []
           [Sample.x_mod_2_is_0] (Z3_mk_const "p" BoolSort)).
  - vm_compute. reflexivity.
  - reflexivity.
  - intros x Hx. inversion Hx.
  - vm_compute. reflexivity.
Defined.

Lemma model_get_value_cached_witness :
  let self := Z3Model.init Sample.manager (mk_model 0 []) in
  let first :=
    @Z3Model.get_value sample_oracle Sample.valuing_engine 5 Sample.x true
      self in
  fst first = Ok (FormulaManager.Int 1) /\
  @Z3Model.get_value sample_oracle Sample.valuing_engine 2 Sample.x true
    (snd first)
  = (Ok (FormulaManager.Int 1), snd first).
Proof.
  intros self first. split; [vm_compute; reflexivity|].
  apply (@model_get_value_cached sample_oracle Sample.valuing_engine 5 0
           Sample.x true self (snd first) (FormulaManager.Int 1)).
  vm_compute. reflexivity.
Defined.

Lemma boolean_ite_round_trip_witness :
  let f := FormulaManager.Ite Sample.p Sample.q (FormulaManager.Not Sample.p) in
  exists z self',
    @convert sample_oracle f = Ok z /\
    @back sample_oracle 40 z None (new_converter Sample.manager)
    = (Ok (FormulaManager.And
             [FormulaManager.Or [FormulaManager.Not Sample.p; Sample.q];
              FormulaManager.Or [Sample.p; FormulaManager.Not Sample.p]]),
       self').
Proof.
  intros f.
  destruct (@boolean_ite_round_trip sample_oracle Sample.p Sample.q
              (FormulaManager.Not Sample.p) None
              (new_converter Sample.manager))
    as (z & Hconvert & Hback).
  - vm_compute. reflexivity.
  - vm_compute. reflexivity.
  - vm_compute. reflexivity.
  - vm_compute. reflexivity.
  - vm_compute. reflexivity.
  - vm_compute. reflexivity.
  - intros k Hk. discriminate Hk.
  - intros t' g Hr. discriminate Hr.
  - destruct (Hback 40%nat) as (self' & Hrun & _).
    + vm_compute in Hconvert. injection Hconvert as <-. vm_compute. lia.
    + exists z, self'. split; [exact Hconvert|exact Hrun].
Defined.

Lemma wide_application_back_fails_witness :
  let f := FormulaManager.Function Sample.P3
             [Sample.x;
              FormulaManager.node op.PLUS [Sample.y; FormulaManager.Int 1];
              Sample.z] in
  exists z self',
    @convert sample_oracle f = Ok z /\
    @back sample_oracle 20 z None (new_converter Sample.manager)
    = (Raise (AssertionError "Unexpected n-ary term: %s"), self').
Proof.
  intros f.
  destruct (@wide_application_back_fails sample_oracle "P" BOOL
              [INT; INT; INT]
              [Sample.x;
               FormulaManager.node op.PLUS [Sample.y; FormulaManager.Int 1];
               Sample.z]
              None (new_converter Sample.manager))
    as (z & Hconvert & Hback).
  - cbn. lia.
  - vm_compute. reflexivity.
  - reflexivity.
  - reflexivity.
  - vm_compute. reflexivity.
  - vm_compute. reflexivity.
  - intros k Hk. discriminate Hk.
  - intros t' g Hr. discriminate Hr.
  - destruct (Hback 20%nat) as (self' & Hrun & _).
    + vm_compute in Hconvert. injection Hconvert as <-. vm_compute. lia.
    + exists z, self'. split; [exact Hconvert|exact Hrun].
Defined.

Lemma back_unsupported_operator_witness :
  exists self',
    @back sample_oracle 10 Sample.x_mod_2 None (new_converter Sample.manager)
    = (Raise (ConvertExpressionError "Unsupported expression: %s"
                (NativeObject Sample.x_mod_2)), self') /\
    mgr self' = Sample.manager.
Proof.
  apply (@back_unsupported_operator sample_oracle 10
           (mk_func_decl Z3_OP_MOD EmptyString [] [IntSort; IntSort] IntSort)
           [Z3_mk_const "x" IntSort; Z3_arith_numeral 2 1 IntSort]
           [Sample.x; FormulaManager.Int 2] None
           (new_converter Sample.manager)).
  - reflexivity.
  - reflexivity.
  - cbn. lia.
  - intros k Hk. discriminate Hk.
  - intros t' g Hr. discriminate Hr.
  - vm_compute. reflexivity.
  - vm_compute. reflexivity.
  - vm_compute. lia.
Defined.


